(** * OpenShare: multipart extraction and file / session lifecycle

    A shallow embedding of the session-aware, binary-safe server of the
    repository (the file with [parseMultipartFormData]), together with the
    properties its specification states about it.  The repository also keeps
    two older variants of the server, which split the decoded body as text
    (one of them, server.js, without sessions); the first two parts of this
    file are about the binary-safe server, the third embeds the upload,
    the listing, the download and the sweep of server.js.

    Conventions of the embedding.
    - A Node [Buffer] is a [list byte].
    - A JavaScript string is a [string]; its characters stand for the bytes of
      its UTF-8 encoding, so [Buffer.from(s)] and [buf.toString()] are the
      change of representation between [string] and [list byte] (exact for
      well-formed UTF-8 text, which is what header blocks carry).
    - A JavaScript object used as a dictionary is an association list kept in
      insertion order, the order [Object.entries] enumerates; it holds the
      object's own properties.  The names every object inherits from
      [Object.prototype] ([inherited]) are outside the model: a session
      token or an owner of a record is taken not to be one of them.
    - Buffer offsets and lengths are [nat]; clock readings are [Z]
      (milliseconds); the reads of [Date.now()] inside one callback are one
      reading.
    - A callback runs to completion: every handler, the [end] and [finish]
      callbacks and the sweep are functions from state to state.
    - The identifiers [crypto.randomBytes] yields and the failures of the
      file system are inputs of the functions that use them.

    - A handler that throws outside every [try] answers with [throws]: no
      response is written.  Node ends the process on such an exception; the
      embedding keeps the stores as the statements before the throw left
      them.

    Left out: the static asset server, the CORS headers and the parsing of
    the URL.  A download is addressed by the text after /download/ in the
    path of the request, one path segment, taken as the name of the stored
    file; the statements that follow a link to its download are made for
    names that the URL parser hands over as they are ([url_segment]).

    The file has three parts.  The first embeds the extractor, the stores
    and the handlers, and proves the properties the specification states.
    The second proves further properties of the same functions and embeds
    two more pieces of the listener: the reading of the session cookie
    ([getSessionId]) and the [data] callback that enforces the size limit
    of an upload.  The third is about server.js. *)

From Stdlib Require Import Strings.String Strings.Ascii Strings.Byte List Arith ZArith NArith Lia Bool.
Import ListNotations.
Open Scope string_scope.
Open Scope list_scope.

(** ** Buffers *)

Definition Buffer := list byte.

Definition Buffer_from (s : string) : Buffer := list_byte_of_string s.
Definition toString (b : Buffer) : string := string_of_list_byte b.

Definition CR : byte := x0d.
Definition LF : byte := x0a.
Definition crlfBuffer : Buffer := [CR; LF].

(** [pat] is a prefix of [buf]. *)
Fixpoint starts_with (pat buf : Buffer) : bool :=
  match pat, buf with
  | [], _ => true
  | _ :: _, [] => false
  | p :: pat', b :: buf' => Byte.eqb p b && starts_with pat' buf'
  end.

(** Offset of the first occurrence of [pat] in [buf]. *)
Fixpoint find_first (pat buf : Buffer) : option nat :=
  match buf with
  | [] => if starts_with pat [] then Some 0 else None
  | _ :: buf' =>
      if starts_with pat buf then Some 0
      else option_map S (find_first pat buf')
  end.

(** [buffer.indexOf(pat, pos)]: [None] is JavaScript's [-1]. *)
Definition indexOf (buffer pat : Buffer) (pos : nat) : option nat :=
  option_map (Nat.add pos) (find_first pat (skipn pos buffer)).

(** [buffer.includes(pat)] *)
Definition includes (buffer pat : Buffer) : bool :=
  match indexOf buffer pat 0 with Some _ => true | None => false end.

(** [buffer.slice(s, e)] for offsets that are not negative. *)
Definition slice {A : Type} (buffer : list A) (s e : nat) : list A :=
  firstn (e - s) (skipn s buffer).

(** ** Regular expressions of the source, as matchers on strings *)

Definition dquote : ascii := ascii_of_nat 34.
Definition semicolon : ascii := ascii_of_nat 59.

(** Case folding of [/i] on the characters the patterns use: ASCII letters. *)
Definition lower (c : ascii) : ascii :=
  let n := nat_of_ascii c in
  if ((65 <=? n) && (n <=? 90))%nat then ascii_of_nat (n + 32) else c.

Fixpoint toLowerCase (s : string) : string :=
  match s with
  | EmptyString => EmptyString
  | String c s' => String (lower c) (toLowerCase s')
  end.

(** [lit] is a prefix of [s]; with [ci] the comparison folds case. *)
Fixpoint str_starts_with (ci : bool) (lit s : string) : bool :=
  match lit, s with
  | EmptyString, _ => true
  | String _ _, EmptyString => false
  | String a lit', String b s' =>
      Ascii.eqb a (if ci then lower b else b) && str_starts_with ci lit' s'
  end.

Fixpoint str_drop (n : nat) (s : string) : string :=
  match n, s with
  | O, _ => s
  | S n', String _ s' => str_drop n' s'
  | S _, EmptyString => EmptyString
  end.

(** The longest prefix of [s] free of [c], and what follows it. *)
Fixpoint span_not (c : ascii) (s : string) : string * string :=
  match s with
  | EmptyString => (EmptyString, EmptyString)
  | String a s' =>
      if Ascii.eqb a c then (EmptyString, s)
      else let (run, rest) := span_not c s' in (String a run, rest)
  end.

(** [s] between double quotes. *)
Definition quoted (s : string) : string :=
  String dquote (String.append s (String dquote EmptyString)).

(** [s.includes(lit)] *)
Fixpoint str_includes (lit s : string) : bool :=
  str_starts_with false lit s
  || match s with
     | EmptyString => false
     | String _ s' => str_includes lit s'
     end.

(** One or more characters other than the double quote, then a double
    quote, at the start of [s]: the captured run. *)
Definition quoted_run (s : string) : option string :=
  match span_not dquote s with
  | (String a run, String _ _) => Some (String a run)
  | _ => None
  end.

(** [[^;]+] at the start of [s]. *)
Definition unquoted_run (s : string) : option string :=
  match span_not semicolon s with
  | (String a run, _) => Some (String a run)
  | _ => None
  end.

(** [header.match(re)] for the file-name pattern of the source (the literal
    filename= and a double quote, a captured run of one or more characters
    other than the double quote, a double quote): group 1 of the leftmost
    match. *)
Definition filename_open : string :=
  String.append "filename=" (String dquote EmptyString).

Fixpoint filenameMatch (s : string) : option string :=
  let here :=
    if str_starts_with false filename_open s
    then quoted_run (str_drop 10 s) else None in
  match here with
  | Some name => Some name
  | None =>
      match s with
      | EmptyString => None
      | String _ s' => filenameMatch s'
      end
  end.

(** [contentType.match(re)] for the boundary pattern of the source, case
    folded: the literal boundary=, then either a quoted run (group 1) or a
    run of one or more characters other than the semicolon (group 2);
    followed by [boundaryMatch[1] || boundaryMatch[2]]. *)
Fixpoint boundaryMatch (s : string) : option string :=
  let here :=
    if str_starts_with true "boundary=" s then
      let rest := str_drop 9 s in
      match rest with
      | String q rest' =>
          if Ascii.eqb q dquote then
            match quoted_run rest' with
            | Some b => Some b
            | None => unquoted_run rest
            end
          else unquoted_run rest
      | EmptyString => None
      end
    else None in
  match here with
  | Some b => Some b
  | None =>
      match s with
      | EmptyString => None
      | String _ s' => boundaryMatch s'
      end
  end.

(** ** The multipart extractor: [parseMultipartFormData] *)

Record ParseResult := mkParseResult {
  fileName : option string;
  fileContent : option Buffer
}.

Definition headerEndBuffer : Buffer := [CR; LF; CR; LF].
Definition filenameMarker : Buffer := Buffer_from "filename=".

(** The [while (true)] loop collecting boundary offsets.  Every round moves
    [pos] forward by at least the delimiter length, so [fuel] rounds with
    [fuel] above the buffer length never run out
    (see [boundaryPositions_fuel]). *)
Fixpoint positions_loop (fuel : nat) (buffer boundaryBuffer : Buffer) (pos : nat)
  : list nat :=
  match fuel with
  | O => []
  | S fuel' =>
      match indexOf buffer boundaryBuffer pos with
      | None => []
      | Some index =>
          index :: positions_loop fuel' buffer boundaryBuffer
                     (index + length boundaryBuffer)
      end
  end.

Definition boundaryPositions (buffer boundaryBuffer : Buffer) : list nat :=
  positions_loop (S (length buffer)) buffer boundaryBuffer 0.

(** What one round of the [for] loop does with its part: [None] is
    [continue] (or a part without the marker), [Some] is the assignment of
    both fields followed by [break]. *)
Definition examine_part (part : Buffer) : option (string * Buffer) :=
  if includes part filenameMarker then
    match indexOf part headerEndBuffer 0 with
    | None => None
    | Some headerEndPos =>
        let header := toString (slice part 0 headerEndPos) in
        match filenameMatch header with
        | None => None
        | Some name =>
            let contentStart := headerEndPos + length headerEndBuffer in
            let contentEnd := length part - 2 in
            Some (name, slice part contentStart contentEnd)
        end
    end
  else None.

(** The [for] loop over consecutive boundary offsets. *)
Fixpoint process_parts (buffer : Buffer) (blen : nat) (positions : list nat)
  : ParseResult :=
  match positions with
  | p0 :: ((p1 :: _) as rest) =>
      let partStart := p0 + blen in
      let partEnd := p1 in
      let part := slice buffer partStart partEnd in
      match examine_part part with
      | Some (name, content) => mkParseResult (Some name) (Some content)
      | None => process_parts buffer blen rest
      end
  | _ => mkParseResult None None
  end.

Definition parseMultipartFormData (buffer : Buffer) (boundary : string)
  : ParseResult :=
  let boundaryBuffer := Buffer_from (String.append "--" boundary) in
  process_parts buffer (length boundaryBuffer)
    (boundaryPositions buffer boundaryBuffer).

(** The bounded segments the loop visits, in order. *)
Fixpoint parts_of (buffer : Buffer) (blen : nat) (positions : list nat)
  : list Buffer :=
  match positions with
  | p0 :: ((p1 :: _) as rest) =>
      slice buffer (p0 + blen) p1 :: parts_of buffer blen rest
  | _ => []
  end.

(** ** Node's [path.extname] and [path.basename] (POSIX)

    The two library functions the handlers call, written after Node's
    [lib/path.js]: a scan of the path from its last character to its first. *)

Definition slash : ascii := ascii_of_nat 47.
Definition dot : ascii := ascii_of_nat 46.

(** The characters of [s] with their indices, last character first. *)
Definition chars_backwards (s : string) : list (nat * ascii) :=
  let l := list_ascii_of_string s in
  rev (combine (seq 0 (List.length l)) l).

Definition str_slice (s : string) (b e : nat) : string :=
  substring b (e - b) s.

Record ExtScan := mkExtScan {
  ext_startDot : option nat;
  ext_startPart : nat;
  ext_end : option nat;
  ext_matchedSlash : bool;
  ext_preDotState : Z
}.

Fixpoint extname_loop (cs : list (nat * ascii)) (st : ExtScan) : ExtScan :=
  match cs with
  | [] => st
  | (i, code) :: cs' =>
      let '(mkExtScan startDot startPart end_ matchedSlash preDotState) := st in
      if Ascii.eqb code slash then
        if negb matchedSlash
        then mkExtScan startDot (i + 1) end_ matchedSlash preDotState
        else extname_loop cs' st
      else
        let '(end1, matched1) :=
          match end_ with
          | None => (Some (i + 1), false)
          | Some _ => (end_, matchedSlash)
          end in
        if Ascii.eqb code dot then
          match startDot with
          | None => extname_loop cs' (mkExtScan (Some i) startPart end1 matched1 preDotState)
          | Some _ => extname_loop cs' (mkExtScan startDot startPart end1 matched1 1%Z)
          end
        else
          match startDot with
          | Some _ => extname_loop cs' (mkExtScan startDot startPart end1 matched1 (-1)%Z)
          | None => extname_loop cs' (mkExtScan startDot startPart end1 matched1 preDotState)
          end
  end.

Definition path_extname (path : string) : string :=
  let st := extname_loop (chars_backwards path) (mkExtScan None 0 None true 0%Z) in
  match ext_startDot st, ext_end st with
  | Some startDot, Some end_ =>
      if Z.eqb (ext_preDotState st) 0
         || (Z.eqb (ext_preDotState st) 1
             && Nat.eqb startDot (end_ - 1)
             && Nat.eqb startDot (ext_startPart st + 1))
      then EmptyString
      else str_slice path startDot end_
  | _, _ => EmptyString
  end.

Record BaseScan := mkBaseScan {
  base_start : nat;
  base_end : option nat;
  base_matchedSlash : bool;
  base_extIdx : option nat;
  base_firstNonSlashEnd : option nat
}.

Definition char_at (s : string) (i : nat) : option ascii := String.get i s.

Definition same_char (a : ascii) (b : option ascii) : bool :=
  match b with Some b' => Ascii.eqb a b' | None => false end.

(** The loop of [basename] taken when a suffix is given. *)
Fixpoint basename_suffix_loop (suffix : string) (cs : list (nat * ascii))
  (st : BaseScan) : BaseScan :=
  match cs with
  | [] => st
  | (i, code) :: cs' =>
      let '(mkBaseScan start end_ matchedSlash extIdx firstNonSlashEnd) := st in
      if Ascii.eqb code slash then
        if negb matchedSlash
        then mkBaseScan (i + 1) end_ matchedSlash extIdx firstNonSlashEnd
        else basename_suffix_loop suffix cs' st
      else
        let '(matched1, first1) :=
          match firstNonSlashEnd with
          | None => (false, Some (i + 1))
          | Some _ => (matchedSlash, firstNonSlashEnd)
          end in
        match extIdx with
        | Some k =>
            if same_char code (char_at suffix k) then
              match k with
              | O => basename_suffix_loop suffix cs'
                       (mkBaseScan start (Some i) matched1 None first1)
              | S k' => basename_suffix_loop suffix cs'
                          (mkBaseScan start end_ matched1 (Some k') first1)
              end
            else basename_suffix_loop suffix cs'
                   (mkBaseScan start first1 matched1 None first1)
        | None => basename_suffix_loop suffix cs'
                    (mkBaseScan start end_ matched1 None first1)
        end
  end.

(** The loop of [basename] taken without a usable suffix. *)
Fixpoint basename_plain_loop (cs : list (nat * ascii)) (st : BaseScan) : BaseScan :=
  match cs with
  | [] => st
  | (i, code) :: cs' =>
      let '(mkBaseScan start end_ matchedSlash extIdx firstNonSlashEnd) := st in
      if Ascii.eqb code slash then
        if negb matchedSlash
        then mkBaseScan (i + 1) end_ matchedSlash extIdx firstNonSlashEnd
        else basename_plain_loop cs' st
      else
        match end_ with
        | None => basename_plain_loop cs'
                    (mkBaseScan start (Some (i + 1)) false extIdx firstNonSlashEnd)
        | Some _ => basename_plain_loop cs' st
        end
  end.

Definition path_basename (path suffix : string) : string :=
  if (0 <? String.length suffix)%nat && (String.length suffix <=? String.length path)%nat
  then
    if String.eqb suffix path then EmptyString
    else
      let st := basename_suffix_loop suffix (chars_backwards path)
                  (mkBaseScan 0 None true (Some (String.length suffix - 1)) None) in
      let end_ :=
        match base_end st with
        | Some e =>
            if Nat.eqb (base_start st) e
            then match base_firstNonSlashEnd st with Some f => f | None => e end
            else e
        | None => String.length path
        end in
      str_slice path (base_start st) end_
  else
    let st := basename_plain_loop (chars_backwards path)
                (mkBaseScan 0 None true None None) in
    match base_end st with
    | None => EmptyString
    | Some e => str_slice path (base_start st) e
    end.

(** Characters that are neither a slash nor a dot. *)
Definition plain_char (c : ascii) : bool :=
  negb (Ascii.eqb c slash) && negb (Ascii.eqb c dot).

Definition plain (l : list ascii) : bool := forallb plain_char l.

(** An identifier that is not empty and has neither dot nor slash. *)
Definition plain_id (fileId : string) : Prop :=
  fileId <> EmptyString /\ plain (list_ascii_of_string fileId) = true.

(** [crypto.randomBytes(16).toString('hex')]: 32 hexadecimal digits. *)
Definition hex_digit (c : ascii) : bool :=
  let n := nat_of_ascii c in
  (((48 <=? n) && (n <=? 57)) || ((97 <=? n) && (n <=? 102)))%nat.

Definition generated_id (fileId : string) : Prop :=
  String.length fileId = 32
  /\ forallb hex_digit (list_ascii_of_string fileId) = true.

(** ** JavaScript objects used as dictionaries *)

Section Dict.
Context {V : Type}.

Definition dict := list (string * V).

(** [d[k]] *)
Fixpoint dict_get (k : string) (d : dict) : option V :=
  match d with
  | [] => None
  | (k', v) :: d' => if String.eqb k k' then Some v else dict_get k d'
  end.

(** Truthiness of [d[k]] for object values. *)
Definition dict_has (k : string) (d : dict) : bool :=
  match dict_get k d with Some _ => true | None => false end.

(** [d[k] = v]: an existing key keeps its place, a new one goes last. *)
Fixpoint dict_set (k : string) (v : V) (d : dict) : dict :=
  match d with
  | [] => [(k, v)]
  | (k', v') :: d' =>
      if String.eqb k k' then (k, v) :: d' else (k', v') :: dict_set k v d'
  end.

(** [delete d[k]] *)
Definition dict_delete (k : string) (d : dict) : dict :=
  filter (fun e => negb (String.eqb k (fst e))) d.

Definition dict_keys (d : dict) : list string := map fst d.

End Dict.
Arguments dict V : clear implicits.

(** ** Stores *)

Record FileRecord := mkFileRecord {
  originalName : string;
  filename : string;
  size : nat;
  uploadTime : Z;
  expiryTime : Z;
  downloaded : bool;
  sessionId : string
}.

Record Session := mkSession {
  created : Z;
  files : list string
}.

(** [fileDatabase], [userSessions], and the content of [UPLOAD_DIR]: a file
    of that directory is identified by its name below it. *)
Record State := mkState {
  fileDatabase : dict FileRecord;
  userSessions : dict Session;
  uploads : dict Buffer
}.

Definition FILE_EXPIRY : Z := 4 * 60 * 60 * 1000.
Definition SESSION_MAX_AGE : Z := 24 * 60 * 60 * 1000.

(** What the file system refuses: [fs.unlinkSync] and [fs.writeFileSync]
    throw on the names it marks. *)
Record FsFaults := mkFsFaults {
  unlink_fails : string -> bool;
  write_fails : string -> bool
}.

Definition no_faults : FsFaults := mkFsFaults (fun _ => false) (fun _ => false).

Definition existsSync (p : string) (disk : dict Buffer) : bool := dict_has p disk.

(** [None]: the call throws and the directory is as before. *)
Definition unlinkSync (io : FsFaults) (p : string) (disk : dict Buffer)
  : option (dict Buffer) :=
  if existsSync p disk && negb (unlink_fails io p)
  then Some (dict_delete p disk) else None.

Definition writeFileSync (io : FsFaults) (p : string) (data : Buffer)
  (disk : dict Buffer) : option (dict Buffer) :=
  if write_fails io p then None else Some (dict_set p data disk).

(** JavaScript truthiness of a string. *)
Definition truthy (s : string) : bool := negb (String.eqb s EmptyString).

Definition MIME_TYPES : dict string :=
  [ (".html", "text/html"); (".css", "text/css"); (".js", "text/javascript");
    (".json", "application/json"); (".png", "image/png"); (".jpg", "image/jpeg");
    (".jpeg", "image/jpeg"); (".gif", "image/gif"); (".svg", "image/svg+xml");
    (".ico", "image/x-icon"); (".txt", "text/plain"); (".pdf", "application/pdf");
    (".zip", "application/zip"); (".mp4", "video/mp4"); (".mp3", "audio/mpeg") ].

Definition getContentType (filePath : string) : string :=
  let ext := toLowerCase (path_extname filePath) in
  match dict_get ext MIME_TYPES with
  | Some t => t
  | None => "application/octet-stream"
  end.

(** ** Replies *)

Record FileInfo := mkFileInfo {
  info_id : string;
  info_originalName : string;
  info_size : nat;
  info_uploadTime : Z;
  info_expiryTime : Z;
  info_downloadLink : string
}.

Inductive Body :=
| JsonError (error : string)
| JsonMessage (message : string)
| JsonFiles (entries : list FileInfo)
| JsonUploaded (message fileId downloadLink : string) (expiry : Z)
| FileStream (contentDisposition contentType : string) (data : Buffer)
| Uncaught (error : string).

Record Reply := mkReply {
  status : nat;
  body : Body
}.

Definition sendResponse (statusCode : nat) (data : Body) : Reply :=
  mkReply statusCode data.

(** The listener throws [error] outside every [try]: no status line and no
    body are written (status 0 stands for that), and the exception reaches
    the process.  The stores are as the statements before the throw left
    them. *)
Definition throws (error : string) : Reply := mkReply 0 (Uncaught error).

Definition downloadLink (host name : string) : string :=
  String.append "http://" (String.append host (String.append "/download/" name)).

(** ** Sessions *)

(** [createSession], with the identifier [generateSessionId] returned and the
    clock reading. *)
Definition createSession (newId : string) (now : Z) (st : State) : State :=
  mkState (fileDatabase st)
          (dict_set newId (mkSession now []) (userSessions st))
          (uploads st).

(** The head of the request listener: the session of the request, the
    [Set-Cookie] value when one is issued, and the state.  [token] is what
    [getSessionId] read from the cookie header. *)
Definition ensure_session (token : option string) (freshId : string) (now : Z)
  (st : State) : string * option string * State :=
  match token with
  | Some sid =>
      if truthy sid && dict_has sid (userSessions st)
      then (sid, None, st)
      else (freshId, Some freshId, createSession freshId now st)
  | None => (freshId, Some freshId, createSession freshId now st)
  end.

(** [files.filter(id => id !== fileId)] *)
Definition without (fileId : string) (ids : list string) : list string :=
  filter (fun id => negb (String.eqb id fileId)) ids.

(** The guarded detachment both the sweep and the download completion
    perform: [if (sid && userSessions[sid]) userSessions[sid].files = ...]. *)
Definition detach (sid fileId : string) (sessions : dict Session) : dict Session :=
  if truthy sid then
    match dict_get sid sessions with
    | Some s => dict_set sid (mkSession (created s) (without fileId (files s))) sessions
    | None => sessions
    end
  else sessions.

(** ** GET /api/files *)

(** [.filter(id => fileDatabase[id]).map(id => ...)] over the session's
    list, as one pass. *)
Fixpoint sessionFiles (host : string) (db : dict FileRecord) (ids : list string)
  : list FileInfo :=
  match ids with
  | [] => []
  | fileId :: ids' =>
      match dict_get fileId db with
      | Some metadata =>
          mkFileInfo fileId (originalName metadata) (size metadata)
            (uploadTime metadata) (expiryTime metadata)
            (downloadLink host (filename metadata))
          :: sessionFiles host db ids'
      | None => sessionFiles host db ids'
      end
  end.

Definition api_files (host : string) (s : Session) (st : State) : Reply :=
  sendResponse 200 (JsonFiles (sessionFiles host (fileDatabase st) (files s))).

(** ** POST /api/upload: the [end] callback *)

(** [sessionId] is the session the listener fixed when the request arrived,
    [buffer] is [Buffer.concat(chunks)], [fileId] what [generateUniqueId]
    returns and [now] the clock reading. *)
Definition upload_end (io : FsFaults) (sessionId : string)
  (contentTypeHeader : option string) (host : string) (buffer : Buffer)
  (fileId : string) (now : Z) (st : State) : Reply * State :=
  let contentType :=
    match contentTypeHeader with Some c => c | None => EmptyString end in
  match boundaryMatch contentType with
  | None =>
      (sendResponse 400 (JsonError "Invalid content type or missing boundary"), st)
  | Some boundary =>
      let r := parseMultipartFormData buffer boundary in
      (* [!fileName || !fileContent]: a string is falsy when null or empty,
         a Buffer (an object) only when null, whatever its length. *)
      match fileName r, fileContent r with
      | Some name, Some content =>
          if truthy name then
            let fileExtension := path_extname name in
            let uniqueFilename := String.append fileId fileExtension in
            match writeFileSync io uniqueFilename content (uploads st) with
            | None => (sendResponse 500 (JsonError "File upload failed"), st)
            | Some disk =>
                let metadata :=
                  mkFileRecord name uniqueFilename (List.length content) now
                    (now + FILE_EXPIRY) false sessionId in
                let db := dict_set fileId metadata (fileDatabase st) in
                match dict_get sessionId (userSessions st) with
                | None =>
                    (* [userSessions[sessionId]] is undefined: the push throws
                       and the [catch] answers. *)
                    (sendResponse 500 (JsonError "File upload failed"),
                     mkState db (userSessions st) disk)
                | Some s =>
                    let sessions :=
                      dict_set sessionId
                        (mkSession (created s) (files s ++ [fileId]))
                        (userSessions st) in
                    (sendResponse 200
                       (JsonUploaded "File uploaded successfully" fileId
                          (downloadLink host uniqueFilename)
                          (expiryTime metadata)),
                     mkState db sessions disk)
                end
            end
          else (sendResponse 400 (JsonError "No file uploaded or invalid file data"), st)
      | _, _ =>
          (sendResponse 400 (JsonError "No file uploaded or invalid file data"), st)
      end
  end.

(** ** POST /api/reset-session *)

(** One round of the [forEach] over the session's file list. *)
Definition reset_file (io : FsFaults) (st : State) (fileId : string) : State :=
  match dict_get fileId (fileDatabase st) with
  | Some metadata =>
      let filePath := filename metadata in
      let unlinked :=
        if existsSync filePath (uploads st)
        then unlinkSync io filePath (uploads st)
        else Some (uploads st) in
      match unlinked with
      | Some disk =>
          mkState (dict_delete fileId (fileDatabase st)) (userSessions st) disk
      | None => st
      end
  | None => st
  end.

Definition reset_session (io : FsFaults) (sessionId newSessionId : string)
  (now : Z) (st : State) : Reply * State :=
  let st1 :=
    match dict_get sessionId (userSessions st) with
    | Some s =>
        let st' := fold_left (reset_file io) (files s) st in
        mkState (fileDatabase st') (dict_delete sessionId (userSessions st'))
                (uploads st')
    | None => st
    end in
  (sendResponse 200 (JsonMessage "Session reset successfully"),
   createSession newSessionId now st1).

(** ** GET /download/<name> *)

Definition file_id_of (name : string) : string :=
  path_basename name (path_extname name).

Definition content_disposition (name : string) : string :=
  String.append "attachment; filename=" (quoted name).

(** The characters [res.setHeader] accepts in a header value: the tab and
    the characters U+0020 to U+007E and U+0080 to U+00FF.  In the UTF-8 view
    of a string these are the byte 09, the bytes 20 to 7E, and the two-byte
    sequences that begin with C2 or C3.  Every other byte stands for a
    control character, for a character above U+00FF or for an ill-formed
    sequence, which [toString] turns into U+FFFD. *)
Definition header_byte (c : ascii) : bool :=
  (Nat.eqb (nat_of_ascii c) 9
   || ((32 <=? nat_of_ascii c) && (nat_of_ascii c <=? 126)))%nat.

Definition latin1_lead (c : ascii) : bool :=
  (Nat.eqb (nat_of_ascii c) 194 || Nat.eqb (nat_of_ascii c) 195)%nat.

Definition continuation (c : ascii) : bool :=
  ((128 <=? nat_of_ascii c) && (nat_of_ascii c <=? 191))%nat.

(** [checkInvalidHeaderChar], the test [res.setHeader] makes on the value:
    [true] when the value holds a character it refuses. *)
Fixpoint checkInvalidHeaderChar (value : string) : bool :=
  match value with
  | EmptyString => false
  | String c rest =>
      if header_byte c then checkInvalidHeaderChar rest
      else if latin1_lead c then
        match rest with
        | String d rest' =>
            if continuation d then checkInvalidHeaderChar rest' else true
        | EmptyString => true
        end
      else true
  end.

(** The characters a request path carries as they are: the URL parser
    neither encodes them nor takes them for the end of the path or of a
    segment.  They are the letters, the digits and the marks
    - . _ ~ ! $ & ' ( ) * + , ; = : @ *)
Definition path_char (c : ascii) : bool :=
  let n := nat_of_ascii c in
  (((48 <=? n) && (n <=? 57)) || ((65 <=? n) && (n <=? 90))
   || ((97 <=? n) && (n <=? 122))
   || existsb (Nat.eqb n) [45; 46; 95; 126; 33; 36; 38; 39; 40; 41; 42; 43; 44;
                           59; 61; 58; 64])%nat.

(** A name that a request can ask for as it stands: the path of the link
    /download/name is read back by [new URL] as written, and
    [pathname.substring] returns [name].  The segments . and .. are
    resolved by the parser and never arrive. *)
Definition url_segment (name : string) : bool :=
  forallb path_char (list_ascii_of_string name)
  && negb (String.eqb name ".") && negb (String.eqb name "..").

(** The handler up to the registration of the [finish] callback.  [name] is
    [pathname.substring] after /download/: one segment of the request path,
    which [path.join] puts below [UPLOAD_DIR] as it is.  The call of
    [res.setHeader] for the content disposition stands outside every [try]
    and comes before the flag is set. *)
Definition download (name : string) (st : State) : Reply * State :=
  let fileId := file_id_of name in
  match dict_get name (uploads st), dict_get fileId (fileDatabase st) with
  | Some data, Some metadata =>
      if checkInvalidHeaderChar (content_disposition (originalName metadata))
      then (throws "ERR_INVALID_CHAR", st)
      else
        (mkReply 200
           (FileStream (content_disposition (originalName metadata))
                       (getContentType name) data),
         mkState
           (dict_set fileId
              (mkFileRecord (originalName metadata) (filename metadata)
                 (size metadata) (uploadTime metadata) (expiryTime metadata)
                 true (sessionId metadata))
              (fileDatabase st))
           (userSessions st) (uploads st))
  | _, _ => (sendResponse 404 (JsonError "File not found or expired"), st)
  end.

(** The [finish] callback of the response. *)
Definition download_finish (io : FsFaults) (name : string) (st : State) : State :=
  let fileId := file_id_of name in
  match unlinkSync io name (uploads st) with
  | None => st
  | Some disk =>
      match dict_get fileId (fileDatabase st) with
      | None =>
          (* reading [.sessionId] of undefined throws: caught, after the unlink *)
          mkState (fileDatabase st) (userSessions st) disk
      | Some metadata =>
          mkState (dict_delete fileId (fileDatabase st))
                  (detach (sessionId metadata) fileId (userSessions st))
                  disk
      end
  end.

(** ** The sweep *)

(** One round of the first [forEach]: an entry of the snapshot
    [Object.entries(fileDatabase)]. *)
Definition sweep_file (io : FsFaults) (now : Z) (st : State)
  (entry : string * FileRecord) : State :=
  let '(fileId, metadata) := entry in
  if (now >? expiryTime metadata)%Z then
    let filePath := filename metadata in
    let unlinked :=
      if existsSync filePath (uploads st)
      then unlinkSync io filePath (uploads st)
      else Some (uploads st) in
    match unlinked with
    | Some disk =>
        mkState (dict_delete fileId (fileDatabase st))
                (detach (sessionId metadata) fileId (userSessions st))
                disk
    | None => st
    end
  else st.

Definition sweep_files (io : FsFaults) (now : Z) (st : State) : State :=
  fold_left (sweep_file io now) (fileDatabase st) st.

Definition stale (now : Z) (s : Session) : bool :=
  (now - created s >? SESSION_MAX_AGE)%Z
  && Nat.eqb (List.length (files s)) 0.

(** One round of the second [forEach]: an entry of
    [Object.entries(userSessions)]. *)
Definition sweep_session (now : Z) (st : State) (entry : string * Session) : State :=
  let '(sid, s) := entry in
  if stale now s
  then mkState (fileDatabase st) (dict_delete sid (userSessions st)) (uploads st)
  else st.

Definition sweep_sessions (now : Z) (st : State) : State :=
  fold_left (sweep_session now) (userSessions st) st.

Definition sweep (io : FsFaults) (now : Z) (st : State) : State :=
  sweep_sessions now (sweep_files io now st).

(** ** Events *)

Inductive Route :=
| GetFiles
| PostUpload
| PostResetSession (io : FsFaults) (newSessionId : string)
| GetDownload (name : string).

Inductive Event :=
| Request (token : option string) (freshId : string) (now : Z) (host : string)
          (route : Route)
| UploadEnd (io : FsFaults) (sessionId : string) (contentType : option string)
            (host : string) (buffer : Buffer) (fileId : string) (now : Z)
| DownloadFinish (io : FsFaults) (name : string)
| Sweep (io : FsFaults) (now : Z).

(** What a callback leaves on the response: the [Set-Cookie] value the
    listener set, if any, and the reply.  The cookie travels with the
    reply; when the reply is [throws], nothing is sent. *)
Record Outcome := mkOutcome {
  cookie : option string;
  reply : option Reply
}.

Definition handle_request (token : option string) (freshId : string) (now : Z)
  (host : string) (route : Route) (st : State) : Outcome * State :=
  let '(sid, issued, st1) := ensure_session token freshId now st in
  match route with
  | GetFiles =>
      match dict_get sid (userSessions st1) with
      | Some s => (mkOutcome issued (Some (api_files host s st1)), st1)
      | None =>
          (* not taken: the session was looked up or created just above
             (see [ensure_session_known]) *)
          (mkOutcome issued None, st1)
      end
  | PostUpload => (mkOutcome issued None, st1)
  | PostResetSession io newSessionId =>
      let '(r, st2) := reset_session io sid newSessionId now st1 in
      (mkOutcome (Some newSessionId) (Some r), st2)
  | GetDownload name =>
      let '(r, st2) := download name st1 in
      (mkOutcome issued (Some r), st2)
  end.

Definition run (ev : Event) (st : State) : Outcome * State :=
  match ev with
  | Request token freshId now host route =>
      handle_request token freshId now host route st
  | UploadEnd io sid contentType host buffer fileId now =>
      let '(r, st') := upload_end io sid contentType host buffer fileId now st in
      (mkOutcome None (Some r), st')
  | DownloadFinish io name => (mkOutcome None None, download_finish io name st)
  | Sweep io now => (mkOutcome None None, sweep io now st)
  end.

(** The values the identifier generators may return: a session identifier is
    not the empty string, and a file identifier is not one in use (the random
    source is taken to be collision free for file identifiers). *)
Definition admissible (ev : Event) (st : State) : Prop :=
  match ev with
  | Request _ freshId _ _ route =>
      freshId <> EmptyString /\
      match route with
      | PostResetSession _ newSessionId => newSessionId <> EmptyString
      | _ => True
      end
  | UploadEnd _ _ _ _ _ fileId _ => dict_get fileId (fileDatabase st) = None
  | _ => True
  end.

Inductive reachable : State -> Prop :=
| reachable_start disk : reachable (mkState [] [] disk)
| reachable_step ev st :
    reachable st -> admissible ev st -> reachable (snd (run ev st)).

(** ** Well-formed multipart bodies *)

(** [pat] occurs in [buf] at offset [k]. *)
Definition occurs_at (pat buf : Buffer) (k : nat) : bool :=
  starts_with pat (skipn k buf).

(** The first occurrence of [pat] in [buf] is at offset [n]. *)
Definition first_at (pat buf : Buffer) (n : nat) : Prop :=
  occurs_at pat buf n = true /\
  forall k, k < n -> occurs_at pat buf k = false.

(** The delimiter does not occur in [part], nor across its end: the first
    delimiter met from the start of [part] is the one that closes it. *)
Definition delimiter_free (delimiter part : Buffer) : Prop :=
  first_at delimiter (part ++ delimiter) (length part).

(** The blank line that ends [head] is the first one. *)
Definition header_block (head : Buffer) : Prop :=
  first_at headerEndBuffer (head ++ headerEndBuffer) (length head).

(** A part as it stands between two delimiters: the header block (from the
    line break after the delimiter), the blank line, the payload and the
    line break before the next delimiter. *)
Definition file_part (head content : Buffer) : Buffer :=
  head ++ headerEndBuffer ++ content ++ crlfBuffer.

(** [delimiter p1 delimiter p2 ... delimiter tail] *)
Fixpoint chain (delimiter : Buffer) (parts : list Buffer) (tail : Buffer) : Buffer :=
  match parts with
  | [] => delimiter ++ tail
  | p :: ps => delimiter ++ p ++ chain delimiter ps tail
  end.

Definition multipart_body (delimiter preamble : Buffer) (parts : list Buffer)
  (epilogue : Buffer) : Buffer :=
  preamble ++ chain delimiter parts epilogue.

(** Boolean form of [first_at], for concrete buffers. *)
Definition first_atb (pat buf : Buffer) (n : nat) : bool :=
  match find_first pat buf with
  | Some k => Nat.eqb k n
  | None => false
  end.

(** The first part that [examine_part] accepts. *)
Fixpoint first_accepted (parts : list Buffer) : option (string * Buffer) :=
  match parts with
  | [] => None
  | p :: ps =>
      match examine_part p with
      | Some r => Some r
      | None => first_accepted ps
      end
  end.

Definition result_of (r : option (string * Buffer)) : ParseResult :=
  match r with
  | Some (name, content) => mkParseResult (Some name) (Some content)
  | None => mkParseResult None None
  end.

(** Unbounded reading of the offsets loop from [pos]. *)
Definition positions_from (buffer boundaryBuffer : Buffer) (pos : nat) : list nat :=
  positions_loop (S (length buffer)) buffer boundaryBuffer pos.

(** The content-type header is absent, or the text boundary= occurs nowhere
    in it, in any letter case.  (A header can lack a boundary parameter and
    still hold that text, inside the name of another parameter.) *)
Definition lacks_boundary (contentType : option string) : Prop :=
  match contentType with
  | None => True
  | Some c => str_includes "boundary=" (toLowerCase c) = false
  end.

(** What one part offers to the loop. *)
Definition has_marker (part : Buffer) : bool := includes part filenameMarker.

Definition header_end (part : Buffer) : option nat := indexOf part headerEndBuffer 0.

Definition declared_name (part : Buffer) : option string :=
  match header_end part with
  | Some h => filenameMatch (toString (slice part 0 h))
  | None => None
  end.

(** ** Sample requests and states *)

Definition sample_boundary : string := "XX".
Definition sample_delimiter : Buffer := Buffer_from "--XX".
Definition sample_content_type : string := "multipart/form-data; boundary=XX".

Definition disposition_line (field : string) (file : option string) : Buffer :=
  Buffer_from
    (String.append "Content-Disposition: form-data; name="
       (String.append (quoted field)
          (match file with
           | Some f => String.append "; filename=" (quoted f)
           | None => EmptyString
           end))).

(** A text field named note with value hi. *)
Definition sample_field : Buffer :=
  crlfBuffer ++ disposition_line "note" None ++ headerEndBuffer ++ Buffer_from "hi" ++ crlfBuffer.

Definition sample_head : Buffer :=
  crlfBuffer ++ disposition_line "file" (Some "a.txt") ++ crlfBuffer
  ++ Buffer_from "Content-Type: application/octet-stream".

(** Six bytes, none of them text. *)
Definition sample_content : Buffer := [xff; x00; xfe; x0d; x0a; xff].

Definition sample_body : Buffer :=
  multipart_body sample_delimiter []
    [sample_field; file_part sample_head sample_content]
    (Buffer_from "--" ++ crlfBuffer).

(** The same upload under a name in another script: the UTF-8 bytes of
    U+6587, then .txt *)
Definition wide_name : string :=
  string_of_list_byte [xe6; x96; x87; x2e; x74; x78; x74].

Definition wide_head : Buffer :=
  crlfBuffer ++ disposition_line "file" (Some wide_name) ++ crlfBuffer
  ++ Buffer_from "Content-Type: application/octet-stream".

Definition wide_body : Buffer :=
  multipart_body sample_delimiter []
    [sample_field; file_part wide_head sample_content]
    (Buffer_from "--" ++ crlfBuffer).

Definition empty_body : Buffer :=
  multipart_body sample_delimiter []
    [sample_field; file_part sample_head []]
    (Buffer_from "--" ++ crlfBuffer).

Definition sample_id : string := "0123456789abcdef0123456789abcdef".

Definition sample_state : State :=
  mkState [] [("s1", mkSession 0 [])] [].

(** Two file parts: the first names no file (an empty file input), the second
    carries b.txt. *)
Definition unnamed_part : Buffer :=
  file_part (crlfBuffer ++ disposition_line "first" (Some EmptyString)) [].

Definition named_part : Buffer :=
  file_part (crlfBuffer ++ disposition_line "second" (Some "b.txt")) (Buffer_from "hello").

Definition two_files_body : Buffer :=
  multipart_body sample_delimiter [] [unnamed_part; named_part]
    (Buffer_from "--" ++ crlfBuffer).

(** A file system that refuses every unlink. *)
Definition unlink_refused : FsFaults := mkFsFaults (fun _ => true) (fun _ => false).

(** One session owning one stored file whose expiry time is 100. *)
Definition stored_record : FileRecord :=
  mkFileRecord "a.txt" "f1.txt" 3 0 100 false "s1".

Definition stored_state : State :=
  mkState [("f1", stored_record)]
          [("s1", mkSession 0 ["f1"])]
          [("f1.txt", [x61; x62; x63])].

(** ** States that differ in [downloaded] flags only *)

Definition forget (m : FileRecord) : FileRecord :=
  mkFileRecord (originalName m) (filename m) (size m) (uploadTime m)
    (expiryTime m) false (sessionId m).

Definition forget_db (db : dict FileRecord) : dict FileRecord :=
  map (fun e => (fst e, forget (snd e))) db.

(** The two states hold the same sessions, the same stored bytes and the
    same records in the same order, up to the value of [downloaded]. *)
Definition same_but_flags (st1 st2 : State) : Prop :=
  forget_db (fileDatabase st1) = forget_db (fileDatabase st2)
  /\ userSessions st1 = userSessions st2
  /\ uploads st1 = uploads st2.

(** [stored_state] after its file was served once. *)
Definition served_state : State :=
  mkState [("f1", mkFileRecord "a.txt" "f1.txt" 3 0 100 true "s1")]
          [("s1", mkSession 0 ["f1"])]
          [("f1.txt", [x61; x62; x63])].

(** A run from the empty stores: two sessions are created, and each
    uploads one file. *)
Definition id_a : string := "aaaaaaaaaaaaaaaaaaaaaaaaaaaaaaaa".
Definition id_b : string := "bbbbbbbbbbbbbbbbbbbbbbbbbbbbbbbb".

Definition two_sessions_events : list Event :=
  [ Request None "sA" 0 "h" PostUpload;
    Request None "sB" 5 "h" PostUpload;
    UploadEnd no_faults "sA" (Some sample_content_type) "h" sample_body id_a 10;
    UploadEnd no_faults "sB" (Some sample_content_type) "h" sample_body id_b 20 ].

Definition run_all (events : list Event) (st : State) : State :=
  fold_left (fun st ev => snd (run ev st)) events st.

Definition two_sessions_state : State :=
  run_all two_sessions_events (mkState [] [] []).

Fixpoint admissible_all (events : list Event) (st : State) : Prop :=
  match events with
  | [] => True
  | ev :: events' => admissible ev st /\ admissible_all events' (snd (run ev st))
  end.

(** * Properties *)

(** ** Occurrences in buffers *)

Lemma byte_eqb_refl (b : byte) : Byte.eqb b b = true.
Proof. apply Byte.byte_dec_lb. reflexivity. Qed.

Lemma starts_with_iff (pat buf : Buffer) :
  starts_with pat buf = true <-> exists rest, buf = pat ++ rest.
Proof.
  revert buf. induction pat as [|p pat IH]; intros buf; simpl.
  - split; [intros _; exists buf; reflexivity | reflexivity].
  - destruct buf as [|b buf].
    + split; [discriminate | intros [rest H]; discriminate].
    + rewrite andb_true_iff, IH. split.
      * intros [Hb [rest ->]]. apply Byte.byte_dec_bl in Hb. subst.
        exists rest. reflexivity.
      * intros [rest H]. injection H as -> ->. split.
        -- apply byte_eqb_refl.
        -- exists rest. reflexivity.
Qed.

Lemma starts_with_app (pat rest : Buffer) : starts_with pat (pat ++ rest) = true.
Proof. apply starts_with_iff. exists rest. reflexivity. Qed.

Lemma starts_with_longer (pat x rest : Buffer) :
  length pat <= length x -> starts_with pat (x ++ rest) = starts_with pat x.
Proof.
  revert x. induction pat as [|p pat IH]; intros x Hlen; simpl.
  - destruct (x ++ rest); destruct x; reflexivity.
  - destruct x as [|b x]; simpl in *; [lia|].
    rewrite IH by lia. reflexivity.
Qed.

Lemma starts_with_prefix (a b buf : Buffer) :
  starts_with (a ++ b) buf = true -> starts_with a buf = true.
Proof.
  rewrite !starts_with_iff. intros [rest ->]. exists (b ++ rest).
  rewrite app_assoc. reflexivity.
Qed.

Lemma find_first_first_at (pat buf : Buffer) (n : nat) :
  find_first pat buf = Some n <-> first_at pat buf n.
Proof.
  unfold first_at, occurs_at. revert n.
  induction buf as [|b buf IH]; intros n.
  - simpl. destruct (starts_with pat []) eqn:E.
    + split.
      * intros H. injection H as <-. split; [exact E | intros k Hk; lia].
      * intros [_ Hk]. destruct n; [reflexivity|].
        specialize (Hk 0 (Nat.lt_0_succ _)). simpl in Hk. congruence.
    + split; [discriminate|]. intros [H _].
      rewrite skipn_nil in H. congruence.
  - simpl find_first. destruct (starts_with pat (b :: buf)) eqn:E.
    + split.
      * intros H. injection H as <-. split; [exact E | intros k Hk; lia].
      * intros [_ Hk]. destruct n; [reflexivity|].
        specialize (Hk 0 (Nat.lt_0_succ _)). simpl in Hk. congruence.
    + destruct n as [|n].
      * split.
        -- destruct (find_first pat buf); discriminate.
        -- intros [H _]. simpl in H. congruence.
      * specialize (IH n). split.
        -- intros H. destruct (find_first pat buf) as [m|] eqn:F; [|discriminate].
           injection H as <-. destruct IH as [IH _].
           destruct (IH eq_refl) as [H1 H2]. split; [exact H1|].
           intros [|k] Hk; [exact E|]. apply H2. lia.
        -- intros [H1 H2]. destruct IH as [_ IH].
           rewrite IH; [reflexivity|]. split; [exact H1|].
           intros k Hk. apply (H2 (S k)). lia.
Qed.

Lemma first_atb_sound (pat buf : Buffer) (n : nat) :
  first_atb pat buf n = true -> first_at pat buf n.
Proof.
  unfold first_atb. destruct (find_first pat buf) as [k|] eqn:E; [|discriminate].
  intros H. apply Nat.eqb_eq in H. subst. apply find_first_first_at. exact E.
Qed.

Lemma find_first_occurs (pat buf : Buffer) (k : nat) :
  occurs_at pat buf k = true -> exists n, find_first pat buf = Some n.
Proof.
  unfold occurs_at. revert k. induction buf as [|b buf IH]; intros k H.
  - rewrite skipn_nil in H. simpl. rewrite H. eauto.
  - simpl find_first. destruct (starts_with pat (b :: buf)) eqn:E; [eauto|].
    destruct k as [|k]; [simpl in H; congruence|].
    simpl in H. destruct (IH k H) as [n ->]. simpl. eauto.
Qed.

Lemma occurs_at_app (pat buf more : Buffer) (k : nat) :
  occurs_at pat buf k = true -> occurs_at pat (buf ++ more) k = true.
Proof.
  unfold occurs_at. rewrite !starts_with_iff. intros [rest H].
  exists (rest ++ skipn (k - length buf) more).
  rewrite skipn_app, H, <- app_assoc. reflexivity.
Qed.

(** Below the closing occurrence, what follows it changes nothing. *)
Lemma occurs_at_tail (pat p rest : Buffer) (k : nat) :
  k <= length p ->
  occurs_at pat (p ++ pat ++ rest) k = occurs_at pat (p ++ pat) k.
Proof.
  intros Hk. unfold occurs_at.
  rewrite app_assoc, (skipn_app k (p ++ pat) rest).
  replace (k - length (p ++ pat)) with 0 by (rewrite length_app; lia).
  simpl skipn at 2. apply starts_with_longer.
  rewrite length_skipn, length_app. lia.
Qed.

Lemma first_at_tail (pat p rest : Buffer) :
  first_at pat (p ++ pat) (length p) ->
  first_at pat (p ++ pat ++ rest) (length p).
Proof.
  intros [H1 H2]. split.
  - rewrite occurs_at_tail by lia. exact H1.
  - intros k Hk. rewrite occurs_at_tail by lia. apply H2. exact Hk.
Qed.

Lemma find_first_closing (pat p rest : Buffer) :
  first_at pat (p ++ pat) (length p) ->
  find_first pat (p ++ pat ++ rest) = Some (length p).
Proof. intros H. apply find_first_first_at, first_at_tail, H. Qed.

Lemma skipn_app_exact {A : Type} (l1 l2 : list A) :
  skipn (length l1) (l1 ++ l2) = l2.
Proof.
  rewrite skipn_app, skipn_all, Nat.sub_diag. reflexivity.
Qed.

Lemma skipn_app_plus {A : Type} (l1 l2 : list A) (n : nat) :
  skipn (length l1 + n) (l1 ++ l2) = skipn n l2.
Proof.
  rewrite skipn_app, skipn_all2 by lia.
  replace (length l1 + n - length l1) with n by lia. reflexivity.
Qed.

Lemma firstn_app_exact {A : Type} (l1 l2 : list A) :
  firstn (length l1) (l1 ++ l2) = l1.
Proof.
  rewrite firstn_app, firstn_all, Nat.sub_diag. simpl. apply app_nil_r.
Qed.

Lemma slice_middle {A : Type} (l1 l2 l3 : list A) :
  slice (l1 ++ l2 ++ l3) (length l1) (length l1 + length l2) = l2.
Proof.
  unfold slice. rewrite skipn_app_exact.
  replace (length l1 + length l2 - length l1) with (length l2) by lia.
  apply firstn_app_exact.
Qed.

(** ** The offsets loop *)

Lemma indexOf_beyond (buffer pat : Buffer) (pos : nat) :
  pat <> [] -> length buffer <= pos -> indexOf buffer pat pos = None.
Proof.
  intros Hpat Hpos. unfold indexOf. rewrite skipn_all2 by exact Hpos.
  destruct pat; [congruence | reflexivity].
Qed.

Lemma indexOf_bounds (buffer pat : Buffer) (pos i : nat) :
  pat <> [] ->
  indexOf buffer pat pos = Some i ->
  pos <= i /\ i + length pat <= length buffer.
Proof.
  intros Hpat.
  assert (Hlen : 0 < length pat) by (destruct pat; simpl; [congruence|lia]).
  unfold indexOf. destruct (find_first pat (skipn pos buffer)) as [n|] eqn:E;
    [|discriminate].
  intros H. injection H as <-. split; [lia|].
  apply find_first_first_at in E. destruct E as [E _].
  unfold occurs_at in E. apply starts_with_iff in E. destruct E as [rest E].
  apply (f_equal (@length byte)) in E.
  rewrite !length_skipn, length_app in E. lia.
Qed.

(** The loop never stops for lack of fuel: more fuel gives the same list. *)
Lemma positions_loop_fuel (buffer pat : Buffer) :
  pat <> [] ->
  forall f1 f2 pos,
    length buffer < pos + f1 -> length buffer < pos + f2 ->
    positions_loop f1 buffer pat pos = positions_loop f2 buffer pat pos.
Proof.
  intros Hpat. assert (Hlen : 0 < length pat) by (destruct pat; simpl; [congruence|lia]).
  induction f1 as [|f1 IH]; intros f2 pos H1 H2.
  - destruct f2; simpl; [reflexivity|].
    rewrite indexOf_beyond by (auto; lia). reflexivity.
  - destruct f2 as [|f2]; simpl.
    + rewrite indexOf_beyond by (auto; lia). reflexivity.
    + destruct (indexOf buffer pat pos) as [i|] eqn:E; [|reflexivity].
      apply indexOf_bounds in E; [|exact Hpat]. f_equal. apply IH; lia.
Qed.

Lemma boundaryPositions_fuel (buffer pat : Buffer) (extra : nat) :
  pat <> [] ->
  positions_loop (S (length buffer) + extra) buffer pat 0
  = boundaryPositions buffer pat.
Proof.
  intros Hpat. unfold boundaryPositions. apply positions_loop_fuel; [exact Hpat| |]; lia.
Qed.

Lemma positions_from_eq (buffer pat : Buffer) (pos : nat) :
  pat <> [] ->
  positions_from buffer pat pos =
  match indexOf buffer pat pos with
  | None => []
  | Some index => index :: positions_from buffer pat (index + length pat)
  end.
Proof.
  intros Hpat. unfold positions_from.
  change (positions_loop (S (length buffer)) buffer pat pos) with
    (match indexOf buffer pat pos with
     | None => []
     | Some index =>
         index :: positions_loop (length buffer) buffer pat (index + length pat)
     end).
  destruct (indexOf buffer pat pos) as [i|] eqn:E; [|reflexivity].
  apply indexOf_bounds in E; [|exact Hpat]. f_equal.
  assert (0 < length pat) by (destruct pat; simpl; [congruence|lia]).
  apply positions_loop_fuel; [exact Hpat| |]; lia.
Qed.

(** ** The part loop *)

Lemma process_parts_first_accepted (buffer : Buffer) (blen : nat)
  (positions : list nat) :
  process_parts buffer blen positions
  = result_of (first_accepted (parts_of buffer blen positions)).
Proof.
  induction positions as [|p0 ps IH]; [reflexivity|].
  destruct ps as [|p1 ps]; [reflexivity|].
  change (process_parts buffer blen (p0 :: p1 :: ps)) with
    (match examine_part (slice buffer (p0 + blen) p1) with
     | Some (name, content) => mkParseResult (Some name) (Some content)
     | None => process_parts buffer blen (p1 :: ps)
     end).
  change (parts_of buffer blen (p0 :: p1 :: ps)) with
    (slice buffer (p0 + blen) p1 :: parts_of buffer blen (p1 :: ps)).
  simpl first_accepted.
  destruct (examine_part (slice buffer (p0 + blen) p1)) as [[name content]|];
    [reflexivity | exact IH].
Qed.

Lemma first_accepted_app (pre : list Buffer) (p : Buffer) (post : list Buffer)
  (r : string * Buffer) :
  Forall (fun q => examine_part q = None) pre ->
  examine_part p = Some r ->
  first_accepted (pre ++ p :: post) = Some r.
Proof.
  intros Hpre Hp. induction Hpre as [|q pre Hq _ IH]; simpl.
  - rewrite Hp. reflexivity.
  - rewrite Hq. exact IH.
Qed.

Lemma first_accepted_none (parts : list Buffer) :
  Forall (fun q => examine_part q = None) parts ->
  first_accepted parts = None.
Proof.
  induction 1 as [|q parts Hq _ IH]; simpl; [reflexivity|].
  rewrite Hq. exact IH.
Qed.

Lemma chain_starts (delimiter : Buffer) (parts : list Buffer) (tail : Buffer) :
  exists rest, chain delimiter parts tail = delimiter ++ rest.
Proof. destruct parts; simpl; eauto. Qed.

Lemma indexOf_at_delimiter (delimiter done rest : Buffer) :
  indexOf (done ++ delimiter ++ rest) delimiter (length done) = Some (length done).
Proof.
  unfold indexOf. rewrite skipn_app_exact.
  assert (H : find_first delimiter (delimiter ++ rest) = Some 0).
  { apply find_first_first_at. split.
    - apply starts_with_app.
    - intros k Hk. lia. }
  rewrite H. simpl. f_equal. lia.
Qed.

Lemma indexOf_closing (delimiter done p rest : Buffer) :
  delimiter_free delimiter p ->
  indexOf (done ++ p ++ delimiter ++ rest) delimiter (length done)
  = Some (length done + length p).
Proof.
  intros Hp. unfold indexOf. rewrite skipn_app_exact.
  rewrite (find_first_closing _ _ _ Hp). reflexivity.
Qed.

Lemma parts_of_chain (delimiter : Buffer) (parts : list Buffer) (tail : Buffer) :
  delimiter <> [] ->
  Forall (delimiter_free delimiter) parts ->
  forall done,
  exists more,
    parts_of (done ++ chain delimiter parts tail) (length delimiter)
      (positions_from (done ++ chain delimiter parts tail) delimiter (length done))
    = parts ++ more.
Proof.
  intros Hd Hparts. induction Hparts as [|p ps Hp _ IH]; intros done.
  - eexists. reflexivity.
  - simpl chain.
    destruct (chain_starts delimiter ps tail) as [rest Hrest].
    set (buffer := done ++ delimiter ++ p ++ chain delimiter ps tail).
    rewrite (positions_from_eq buffer delimiter (length done) Hd).
    assert (Hfirst : indexOf buffer delimiter (length done) = Some (length done))
      by (unfold buffer; apply indexOf_at_delimiter).
    rewrite Hfirst.
    rewrite (positions_from_eq buffer delimiter _ Hd).
    assert (Hidx : indexOf buffer delimiter (length done + length delimiter)
                   = Some (length (done ++ delimiter ++ p))).
    { unfold buffer. rewrite Hrest.
      replace (done ++ delimiter ++ p ++ delimiter ++ rest)
        with ((done ++ delimiter) ++ p ++ delimiter ++ rest)
        by (rewrite <- app_assoc; reflexivity).
      rewrite <- length_app, (indexOf_closing _ _ _ _ Hp).
      f_equal. rewrite !length_app. lia. }
    rewrite Hidx.
    specialize (IH (done ++ delimiter ++ p)).
    replace ((done ++ delimiter ++ p) ++ chain delimiter ps tail) with buffer in IH
      by (unfold buffer; rewrite <- !app_assoc; reflexivity).
    rewrite (positions_from_eq buffer delimiter _ Hd) in IH.
    destruct (indexOf buffer delimiter (length (done ++ delimiter ++ p)))
      as [i|] eqn:Ei.
    + assert (i = length (done ++ delimiter ++ p)).
      { unfold buffer in Ei. rewrite Hrest in Ei.
        replace (done ++ delimiter ++ p ++ delimiter ++ rest)
          with ((done ++ delimiter ++ p) ++ delimiter ++ rest) in Ei
          by (rewrite <- !app_assoc; reflexivity).
        rewrite indexOf_at_delimiter in Ei. congruence. }
      subst i. destruct IH as [more IH].
      exists more.
      change (parts_of buffer (length delimiter)
                (length done :: length (done ++ delimiter ++ p) :: ?r))
        with (slice buffer (length done + length delimiter)
                (length (done ++ delimiter ++ p))
              :: parts_of buffer (length delimiter)
                   (length (done ++ delimiter ++ p) :: r)).
      rewrite IH. simpl. f_equal.
      unfold buffer.
      replace (done ++ delimiter ++ p ++ chain delimiter ps tail)
        with ((done ++ delimiter) ++ p ++ chain delimiter ps tail)
        by (rewrite <- app_assoc; reflexivity).
      replace (length (done ++ delimiter ++ p))
        with (length (done ++ delimiter) + length p)
        by (rewrite !length_app; lia).
      rewrite <- length_app. apply slice_middle.
    + exfalso. unfold buffer in Ei. rewrite Hrest in Ei.
      replace (done ++ delimiter ++ p ++ delimiter ++ rest)
        with ((done ++ delimiter ++ p) ++ delimiter ++ rest) in Ei
        by (rewrite <- !app_assoc; reflexivity).
      rewrite indexOf_at_delimiter in Ei. discriminate.
Qed.

Lemma parts_of_multipart (delimiter preamble : Buffer) (parts : list Buffer)
  (epilogue : Buffer) :
  delimiter <> [] ->
  delimiter_free delimiter preamble ->
  Forall (delimiter_free delimiter) parts ->
  exists more,
    parts_of (multipart_body delimiter preamble parts epilogue) (length delimiter)
      (boundaryPositions (multipart_body delimiter preamble parts epilogue) delimiter)
    = parts ++ more.
Proof.
  intros Hd Hpre Hparts. unfold multipart_body.
  destruct (parts_of_chain delimiter parts epilogue Hd Hparts preamble) as [more H].
  exists more. rewrite <- H. f_equal.
  change (boundaryPositions ?b ?d) with (positions_from b d 0).
  rewrite (positions_from_eq _ delimiter 0 Hd).
  rewrite (positions_from_eq _ delimiter (length preamble) Hd).
  destruct (chain_starts delimiter parts epilogue) as [rest ->].
  rewrite indexOf_at_delimiter.
  pose proof (indexOf_closing delimiter [] preamble rest Hpre) as H0.
  simpl in H0. rewrite H0. reflexivity.
Qed.

(** ** Header text and header bytes *)

Lemma toString_cons (b : byte) (h : Buffer) :
  toString (b :: h) = String (ascii_of_byte b) (toString h).
Proof. reflexivity. Qed.

Lemma ascii_byte_eqb (a : ascii) (b : byte) :
  Ascii.eqb a (ascii_of_byte b) = Byte.eqb (byte_of_ascii a) b.
Proof.
  destruct (Ascii.eqb_spec a (ascii_of_byte b)) as [->|Hne].
  - rewrite byte_of_ascii_of_byte. symmetry. apply byte_eqb_refl.
  - destruct (Byte.eqb (byte_of_ascii a) b) eqn:E; [|reflexivity].
    apply Byte.byte_dec_bl in E. subst b.
    rewrite ascii_of_byte_of_ascii in Hne. congruence.
Qed.

Lemma str_starts_with_bytes (lit : string) (h : Buffer) :
  str_starts_with false lit (toString h) = starts_with (Buffer_from lit) h.
Proof.
  revert h. induction lit as [|a lit IH]; intros h; [reflexivity|].
  destruct h as [|b h]; [reflexivity|].
  rewrite toString_cons.
  change (Buffer_from (String a lit)) with (byte_of_ascii a :: Buffer_from lit).
  simpl. rewrite IH, ascii_byte_eqb. reflexivity.
Qed.

Lemma filenameMatch_eq (s : string) :
  filenameMatch s =
  match (if str_starts_with false filename_open s
         then quoted_run (str_drop 10 s) else None) with
  | Some name => Some name
  | None =>
      match s with
      | EmptyString => None
      | String _ s' => filenameMatch s'
      end
  end.
Proof. destruct s; reflexivity. Qed.

Lemma filenameMatch_marker (h : Buffer) (name : string) :
  filenameMatch (toString h) = Some name ->
  exists k, occurs_at filenameMarker h k = true.
Proof.
  revert name. induction h as [|b h IH]; intros name H.
  - discriminate.
  - rewrite filenameMatch_eq in H.
    destruct (str_starts_with false filename_open (toString (b :: h))) eqn:E.
    + exists 0. unfold occurs_at. simpl skipn.
      rewrite str_starts_with_bytes in E.
      apply (starts_with_prefix filenameMarker [byte_of_ascii dquote]).
      exact E.
    + rewrite toString_cons in H.
      destruct (IH name H) as [k Hk]. exists (S k). exact Hk.
Qed.

Lemma quoted_run_truthy (s name : string) :
  quoted_run s = Some name -> truthy name = true.
Proof.
  unfold quoted_run. destruct (span_not dquote s) as [run rest].
  destruct run as [|c run]; [discriminate|].
  destruct rest; [discriminate|].
  intros H. injection H as <-. reflexivity.
Qed.

Lemma filenameMatch_truthy (s name : string) :
  filenameMatch s = Some name -> truthy name = true.
Proof.
  induction s as [|a s IH]; rewrite filenameMatch_eq.
  - destruct (str_starts_with false filename_open EmptyString); [|discriminate].
    destruct (quoted_run (str_drop 10 EmptyString)) eqn:E; [|discriminate].
    intros H. injection H as <-. eapply quoted_run_truthy, E.
  - destruct (str_starts_with false filename_open (String a s)); [|exact IH].
    destruct (quoted_run (str_drop 10 (String a s))) eqn:E; [|exact IH].
    intros H. injection H as <-. eapply quoted_run_truthy, E.
Qed.

(** ** One well-formed file part *)

Lemma file_part_length (head content : Buffer) :
  length (file_part head content) = length head + 4 + length content + 2.
Proof. unfold file_part. rewrite !length_app. simpl. lia. Qed.

Lemma examine_file_part (head content : Buffer) (name : string) :
  header_block head ->
  filenameMatch (toString head) = Some name ->
  examine_part (file_part head content) = Some (name, content).
Proof.
  intros Hhead Hname. unfold examine_part.
  assert (Hinc : includes (file_part head content) filenameMarker = true).
  { destruct (filenameMatch_marker _ _ Hname) as [k Hk].
    apply (occurs_at_app _ _ (headerEndBuffer ++ content ++ crlfBuffer)) in Hk.
    destruct (find_first_occurs _ _ _ Hk) as [n Hn].
    unfold includes, indexOf. simpl skipn. unfold file_part. rewrite Hn.
    reflexivity. }
  rewrite Hinc.
  assert (Hend : indexOf (file_part head content) headerEndBuffer 0
                 = Some (length head)).
  { unfold indexOf, file_part.
    change (skipn 0 ?l) with l.
    rewrite (find_first_closing headerEndBuffer head (content ++ crlfBuffer) Hhead).
    reflexivity. }
  rewrite Hend.
  assert (Hslice : slice (file_part head content) 0 (length head) = head).
  { unfold slice, file_part. simpl skipn. rewrite Nat.sub_0_r.
    apply firstn_app_exact. }
  rewrite Hslice, Hname. f_equal. f_equal.
  rewrite file_part_length. unfold slice, file_part.
  change (length headerEndBuffer) with 4.
  replace (length head + 4) with (length (head ++ headerEndBuffer))
    by (rewrite length_app; reflexivity).
  rewrite app_assoc, skipn_app_exact.
  replace (length (head ++ headerEndBuffer) + length content + 2 - 2
           - length (head ++ headerEndBuffer)) with (length content) by lia.
  apply firstn_app_exact.
Qed.

Lemma examine_part_no_marker (part : Buffer) :
  includes part filenameMarker = false -> examine_part part = None.
Proof. intros H. unfold examine_part. rewrite H. reflexivity. Qed.

Lemma delimiter_nonempty (boundary : string) :
  Buffer_from (String.append "--" boundary) <> [].
Proof. discriminate. Qed.

(** The extractor on a well-formed body: the payload of the first
    file-bearing part, byte for byte. *)
Lemma parse_well_formed (boundary : string) (preamble : Buffer)
  (fields : list Buffer) (head content epilogue : Buffer) (name : string) :
  let delimiter := Buffer_from (String.append "--" boundary) in
  delimiter_free delimiter preamble ->
  Forall (delimiter_free delimiter) fields ->
  Forall (fun f => includes f filenameMarker = false) fields ->
  delimiter_free delimiter (file_part head content) ->
  header_block head ->
  filenameMatch (toString head) = Some name ->
  parseMultipartFormData
    (multipart_body delimiter preamble (fields ++ [file_part head content]) epilogue)
    boundary
  = mkParseResult (Some name) (Some content).
Proof.
  intros delimiter Hpre Hfields Hplain Hfile Hhead Hname.
  unfold parseMultipartFormData. fold delimiter.
  rewrite process_parts_first_accepted.
  destruct (parts_of_multipart delimiter preamble
              (fields ++ [file_part head content]) epilogue) as [more Hparts].
  - apply delimiter_nonempty.
  - exact Hpre.
  - apply Forall_app. split; [exact Hfields|]. constructor; [exact Hfile|constructor].
  - rewrite Hparts, <- app_assoc. simpl app.
    rewrite (first_accepted_app fields _ more (name, content)).
    + reflexivity.
    + eapply Forall_impl; [|exact Hplain]. intros f Hf.
      apply examine_part_no_marker, Hf.
    + apply examine_file_part; assumption.
Qed.

(** ** Dictionaries *)

Section DictFacts.
Context {V : Type}.
Implicit Types (d : dict V) (k : string) (v : V).

Lemma dict_get_set_same k v d : dict_get k (dict_set k v d) = Some v.
Proof.
  induction d as [|[k' v'] d IH]; simpl.
  - rewrite String.eqb_refl. reflexivity.
  - destruct (String.eqb k k') eqn:E; simpl.
    + rewrite String.eqb_refl. reflexivity.
    + rewrite E. exact IH.
Qed.

Lemma dict_get_set_other k k' v d :
  k <> k' -> dict_get k (dict_set k' v d) = dict_get k d.
Proof.
  intros Hne. induction d as [|[k0 v0] d IH]; simpl.
  - apply String.eqb_neq in Hne. rewrite Hne. reflexivity.
  - destruct (String.eqb k' k0) eqn:E; simpl.
    + apply String.eqb_eq in E. subst k0.
      apply String.eqb_neq in Hne. rewrite Hne. reflexivity.
    + destruct (String.eqb k k0); [reflexivity | exact IH].
Qed.

Lemma dict_get_delete_same k d : dict_get k (dict_delete k d) = None.
Proof.
  induction d as [|[k' v'] d IH]; simpl; [reflexivity|].
  destruct (String.eqb k k') eqn:E; simpl; [exact IH|].
  rewrite E. exact IH.
Qed.

Lemma dict_get_delete_other k k' d :
  k <> k' -> dict_get k (dict_delete k' d) = dict_get k d.
Proof.
  intros Hne. induction d as [|[k0 v0] d IH]; simpl; [reflexivity|].
  destruct (String.eqb k' k0) eqn:E; simpl.
  - apply String.eqb_eq in E. subst k0.
    apply String.eqb_neq in Hne. rewrite Hne. exact IH.
  - destruct (String.eqb k k0); [reflexivity | exact IH].
Qed.

Lemma dict_get_delete_none k k' d :
  dict_get k d = None -> dict_get k (dict_delete k' d) = None.
Proof.
  intros H. destruct (String.eqb_spec k k') as [->|Hne].
  - apply dict_get_delete_same.
  - rewrite dict_get_delete_other by exact Hne. exact H.
Qed.

Lemma dict_get_In k v d : dict_get k d = Some v -> In (k, v) d.
Proof.
  induction d as [|[k' v'] d IH]; simpl; [discriminate|].
  destruct (String.eqb_spec k k') as [->|Hne].
  - intros H. injection H as ->. left. reflexivity.
  - intros H. right. apply IH, H.
Qed.

Lemma dict_get_None_keys k d : dict_get k d = None -> ~ In k (dict_keys d).
Proof.
  induction d as [|[k' v'] d IH]; simpl; [tauto|].
  destruct (String.eqb_spec k k') as [->|Hne]; [discriminate|].
  intros H [Heq|Hin]; [congruence | exact (IH H Hin)].
Qed.

Lemma dict_In_get k v d :
  NoDup (dict_keys d) -> In (k, v) d -> dict_get k d = Some v.
Proof.
  induction d as [|[k' v'] d IH]; simpl; [tauto|].
  intros Hnd [Heq|Hin].
  - injection Heq as -> ->. rewrite String.eqb_refl. reflexivity.
  - inversion Hnd as [|? ? Hnotin Hnd']; subst.
    destruct (String.eqb_spec k k') as [->|Hne].
    + exfalso. apply Hnotin. apply (in_map fst) in Hin. exact Hin.
    + apply IH; assumption.
Qed.

Lemma dict_keys_set_present k v d :
  dict_get k d <> None -> dict_keys (dict_set k v d) = dict_keys d.
Proof.
  unfold dict_keys. induction d as [|[k' v'] d IH]; simpl; [congruence|].
  destruct (String.eqb_spec k k') as [->|Hne]; simpl; [reflexivity|].
  intros H. f_equal. apply IH, H.
Qed.

Lemma dict_keys_set_absent k v d :
  dict_get k d = None -> dict_keys (dict_set k v d) = dict_keys d ++ [k].
Proof.
  unfold dict_keys. induction d as [|[k' v'] d IH]; simpl; [reflexivity|].
  destruct (String.eqb_spec k k') as [->|Hne]; simpl; [discriminate|].
  intros H. f_equal. apply IH, H.
Qed.

Lemma dict_set_NoDup k v d : NoDup (dict_keys d) -> NoDup (dict_keys (dict_set k v d)).
Proof.
  intros Hnd. destruct (dict_get k d) eqn:E.
  - rewrite dict_keys_set_present by congruence. exact Hnd.
  - rewrite dict_keys_set_absent by exact E.
    apply NoDup_app; [exact Hnd| constructor; [simpl; tauto | constructor] |].
    intros x Hx [<-|[]]. exact (dict_get_None_keys _ _ E Hx).
Qed.

Lemma dict_delete_NoDup k d : NoDup (dict_keys d) -> NoDup (dict_keys (dict_delete k d)).
Proof.
  unfold dict_keys, dict_delete.
  induction d as [|[k' v'] d IH]; simpl; intros Hnd; [constructor|].
  inversion Hnd as [|? ? Hnotin Hnd']; subst.
  destruct (negb (String.eqb k k')); simpl; [|apply IH, Hnd'].
  constructor; [|apply IH, Hnd'].
  intros Hin. apply Hnotin. apply in_map_iff in Hin.
  destruct Hin as [[k0 v0] [Hk Hin]]. apply filter_In in Hin.
  apply in_map_iff. exists (k0, v0). tauto.
Qed.

End DictFacts.

(** ** The boundary parameter *)

Lemma str_starts_with_fold (lit s : string) :
  str_starts_with true lit s = str_starts_with false lit (toLowerCase s).
Proof.
  revert s. induction lit as [|a lit IH]; intros s; [reflexivity|].
  destruct s as [|b s]; [reflexivity|]. simpl. rewrite IH. reflexivity.
Qed.

Lemma boundaryMatch_eq (s : string) :
  boundaryMatch s =
  match (if str_starts_with true "boundary=" s then
           match str_drop 9 s with
           | String q rest' =>
               if Ascii.eqb q dquote then
                 match quoted_run rest' with
                 | Some b => Some b
                 | None => unquoted_run (str_drop 9 s)
                 end
               else unquoted_run (str_drop 9 s)
           | EmptyString => None
           end
         else None) with
  | Some b => Some b
  | None =>
      match s with
      | EmptyString => None
      | String _ s' => boundaryMatch s'
      end
  end.
Proof. destruct s; reflexivity. Qed.

Lemma str_includes_eq (lit s : string) :
  str_includes lit s =
  str_starts_with false lit s
  || match s with
     | EmptyString => false
     | String _ s' => str_includes lit s'
     end.
Proof. destruct s; reflexivity. Qed.

Lemma boundaryMatch_includes (s b : string) :
  boundaryMatch s = Some b ->
  str_includes "boundary=" (toLowerCase s) = true.
Proof.
  induction s as [|a s IH]; rewrite boundaryMatch_eq, str_includes_eq;
    rewrite <- str_starts_with_fold.
  - simpl. discriminate.
  - destruct (str_starts_with true "boundary=" (String a s)); [reflexivity|].
    intros H. simpl orb. apply IH, H.
Qed.

Lemma boundaryMatch_lacking (c : string) :
  str_includes "boundary=" (toLowerCase c) = false -> boundaryMatch c = None.
Proof.
  intros H. destruct (boundaryMatch c) as [b|] eqn:E; [|reflexivity].
  apply boundaryMatch_includes in E. congruence.
Qed.

(** C5. Missing boundary: when the content-type header of an upload is absent
    or holds the text boundary= nowhere (in any letter case), the [end]
    callback answers 400 with the message naming the missing boundary,
    whatever the body, the file system and the stores are, and it changes
    nothing.  The condition is on the text of the header, not on its
    parameters: a header without a boundary parameter can hold the text
    inside the name of another parameter, and is then accepted. *)
Theorem missing_boundary_is_client_error (io : FsFaults) (sid : string)
  (contentType : option string) (host : string) (buffer : Buffer)
  (fileId : string) (now : Z) (st : State) :
  lacks_boundary contentType ->
  upload_end io sid contentType host buffer fileId now st
  = (sendResponse 400 (JsonError "Invalid content type or missing boundary"), st).
Proof.
  intros H. unfold upload_end.
  destruct contentType as [c|]; simpl in H.
  - rewrite (boundaryMatch_lacking c H). reflexivity.
  - reflexivity.
Qed.

(** ** Storage keys resolve to their file identifier *)

Definition slashes (l : list ascii) : bool := forallb (Ascii.eqb slash) l.

(** The characters of [l], placed from index [off] on, last first. *)
Definition indexed_back (off : nat) (l : list ascii) : list (nat * ascii) :=
  rev (combine (seq off (length l)) l).

Lemma indexed_back_cons (off : nat) (c : ascii) (l : list ascii) :
  indexed_back off (c :: l) = indexed_back (S off) l ++ [(off, c)].
Proof. reflexivity. Qed.

Lemma indexed_back_app (off : nat) (l1 l2 : list ascii) :
  indexed_back off (l1 ++ l2)
  = indexed_back (off + length l1) l2 ++ indexed_back off l1.
Proof.
  revert off. induction l1 as [|c l1 IH]; intros off.
  - simpl. rewrite Nat.add_0_r, app_nil_r. reflexivity.
  - simpl app. rewrite !indexed_back_cons, IH, app_assoc. simpl length.
    replace (S off + length l1) with (off + S (length l1)) by lia. reflexivity.
Qed.

Lemma indexed_back_snoc (off : nat) (l : list ascii) (c : ascii) :
  indexed_back off (l ++ [c]) = (off + length l, c) :: indexed_back off l.
Proof. rewrite indexed_back_app. reflexivity. Qed.

Lemma chars_backwards_indexed (s : string) :
  chars_backwards s = indexed_back 0 (list_ascii_of_string s).
Proof. reflexivity. Qed.

(** Strings and their lists of characters *)

Lemma list_ascii_append (a b : string) :
  list_ascii_of_string (String.append a b)
  = list_ascii_of_string a ++ list_ascii_of_string b.
Proof. induction a as [|c a IH]; simpl; [reflexivity | rewrite IH; reflexivity]. Qed.

Lemma length_list_ascii (s : string) :
  length (list_ascii_of_string s) = String.length s.
Proof. induction s as [|c s IH]; simpl; [reflexivity | rewrite IH; reflexivity]. Qed.

Lemma substring_list (s : string) (b n : nat) :
  list_ascii_of_string (substring b n s)
  = firstn n (skipn b (list_ascii_of_string s)).
Proof.
  revert b n. induction s as [|c s IH]; intros b n.
  - destruct b, n; reflexivity.
  - destruct b as [|b].
    + destruct n as [|n]; [reflexivity|]. simpl. rewrite IH. reflexivity.
    + simpl. apply IH.
Qed.

Lemma str_slice_list (s : string) (b e : nat) :
  str_slice s b e
  = string_of_list_ascii (slice (list_ascii_of_string s) b e).
Proof.
  unfold str_slice, slice. rewrite <- substring_list.
  symmetry. apply string_of_list_ascii_of_string.
Qed.

Lemma get_list (s : string) (i : nat) :
  String.get i s = nth_error (list_ascii_of_string s) i.
Proof.
  revert i. induction s as [|c s IH]; intros [|i]; simpl; try reflexivity. apply IH.
Qed.

(** *** The scan of [extname] *)

Lemma plain_char_not (c : ascii) :
  plain_char c = true -> Ascii.eqb c slash = false /\ Ascii.eqb c dot = false.
Proof.
  unfold plain_char. rewrite andb_true_iff, !negb_true_iff. tauto.
Qed.

Definition end_after (end_ : option nat) (i : nat) : option nat :=
  match end_ with None => Some (i + 1) | Some _ => end_ end.

Definition matched_after (end_ : option nat) (matchedSlash : bool) : bool :=
  match end_ with None => false | Some _ => matchedSlash end.

Lemma ext_step_plain (i : nat) (c : ascii) (cs : list (nat * ascii))
  (sd : option nat) (sp : nat) (e : option nat) (m : bool) (pre : Z) :
  plain_char c = true ->
  extname_loop ((i, c) :: cs) (mkExtScan sd sp e m pre)
  = extname_loop cs
      (mkExtScan sd sp (end_after e i) (matched_after e m)
         (match sd with Some _ => (-1)%Z | None => pre end)).
Proof.
  intros H. apply plain_char_not in H. destruct H as [Hs Hd].
  simpl. rewrite Hs, Hd. destruct e, sd; reflexivity.
Qed.

Lemma ext_step_dot (i : nat) (cs : list (nat * ascii))
  (sd : option nat) (sp : nat) (e : option nat) (m : bool) (pre : Z) :
  extname_loop ((i, dot) :: cs) (mkExtScan sd sp e m pre)
  = extname_loop cs
      (mkExtScan (match sd with Some _ => sd | None => Some i end) sp
         (end_after e i) (matched_after e m)
         (match sd with Some _ => 1%Z | None => pre end)).
Proof. simpl. destruct e, sd; reflexivity. Qed.

Lemma ext_step_slash (i : nat) (cs : list (nat * ascii))
  (sd : option nat) (sp : nat) (e : option nat) (m : bool) (pre : Z) :
  extname_loop ((i, slash) :: cs) (mkExtScan sd sp e m pre)
  = if m then extname_loop cs (mkExtScan sd sp e m pre)
    else mkExtScan sd (i + 1) e m pre.
Proof. simpl. destruct m; reflexivity. Qed.

(** What the scan has fixed once the characters from index [off] on,
    [seen], are behind it. *)
Inductive scanned (off : nat) (seen : list ascii) : ExtScan -> Prop :=
| scanned_slashes sp pre :
    slashes seen = true ->
    scanned off seen (mkExtScan None sp None true pre)
| scanned_run sp pre run sl :
    seen = run ++ sl -> plain run = true ->
    scanned off seen (mkExtScan None sp (Some (off + length run)) false pre)
| scanned_dot sp pre m mid run sl :
    seen = mid ++ dot :: run ++ sl -> plain run = true ->
    scanned off seen
      (mkExtScan (Some (off + length mid)) sp
         (Some (off + length mid + 1 + length run)) m pre).

(** The extension the scan ends with, if any: a dot and a run of characters
    that are neither dots nor slashes. *)
Definition ends_with_extension (path : list ascii) (st : ExtScan) : Prop :=
  ext_startDot st = None
  \/ exists pre run post,
       path = pre ++ dot :: run ++ post /\ plain run = true
       /\ ext_startDot st = Some (length pre)
       /\ ext_end st = Some (length pre + 1 + length run).

Lemma char_cases (c : ascii) :
  c = slash \/ c = dot \/ plain_char c = true.
Proof.
  unfold plain_char.
  destruct (Ascii.eqb_spec c slash) as [->|Hs]; [tauto|].
  destruct (Ascii.eqb_spec c dot) as [->|Hd]; [tauto|].
  right. right. reflexivity.
Qed.

Lemma extname_loop_scanned (rest seen : list ascii) (st : ExtScan) :
  scanned (length rest) seen st ->
  ends_with_extension (rest ++ seen) (extname_loop (indexed_back 0 rest) st).
Proof.
  revert seen st. induction rest as [|c rest IH] using rev_ind; intros seen st H.
  - simpl. destruct H as [sp pre Hsl|sp pre run sl Hseen Hrun
                         |sp pre m mid run sl Hseen Hrun].
    + left. reflexivity.
    + left. reflexivity.
    + right. exists mid, run, sl. simpl. repeat split; assumption.
  - rewrite indexed_back_snoc, <- app_assoc. simpl Nat.add. simpl app.
    rewrite length_app in H. simpl in H.
    destruct H as [sp pre Hsl|sp pre run sl Hseen Hrun
                  |sp pre m mid run sl Hseen Hrun].
    + destruct (char_cases c) as [->|[->|Hc]].
      * rewrite ext_step_slash. apply IH. constructor. simpl. exact Hsl.
      * rewrite ext_step_dot. simpl.
        replace (Some (length rest)) with (Some (length rest + length (@nil ascii)))
          by (simpl; f_equal; lia).
        replace (Some (length rest + 1))
          with (Some (length rest + length (@nil ascii) + 1 + length (@nil ascii)))
          by (simpl; f_equal; lia).
        apply IH. apply (scanned_dot _ _ sp pre false [] [] seen); reflexivity.
      * rewrite ext_step_plain by exact Hc. simpl.
        replace (Some (length rest + 1)) with (Some (length rest + length [c]))
          by reflexivity.
        apply IH. apply (scanned_run _ _ sp pre [c] seen); [reflexivity|].
        simpl. rewrite Hc. reflexivity.
    + destruct (char_cases c) as [->|[->|Hc]].
      * rewrite ext_step_slash. left. reflexivity.
      * rewrite ext_step_dot. simpl.
        replace (Some (length rest)) with (Some (length rest + length (@nil ascii)))
          by (simpl; f_equal; lia).
        replace (Some (length rest + 1 + length run))
          with (Some (length rest + length (@nil ascii) + 1 + length run))
          by (simpl; f_equal; lia).
        apply IH. apply (scanned_dot _ _ sp pre false [] run sl); [|exact Hrun].
        rewrite Hseen. reflexivity.
      * rewrite ext_step_plain by exact Hc. simpl.
        replace (Some (length rest + 1 + length run))
          with (Some (length rest + length (c :: run)))
          by (simpl; f_equal; lia).
        apply IH. apply (scanned_run _ _ sp pre (c :: run) sl).
        -- rewrite Hseen. reflexivity.
        -- simpl. rewrite Hc. exact Hrun.
    + assert (Hkeep : forall sp' m' pre',
                ends_with_extension (rest ++ c :: seen)
                  (extname_loop (indexed_back 0 rest)
                     (mkExtScan (Some (length rest + 1 + length mid)) sp'
                        (Some (length rest + 1 + length mid + 1 + length run))
                        m' pre'))).
      { intros sp' m' pre'.
        replace (Some (length rest + 1 + length mid))
          with (Some (length rest + length (c :: mid)))
          by (simpl; f_equal; lia).
        replace (Some (length rest + 1 + length mid + 1 + length run))
          with (Some (length rest + length (c :: mid) + 1 + length run))
          by (simpl; f_equal; lia).
        apply IH. apply (scanned_dot _ _ sp' pre' m' (c :: mid) run sl);
          [|exact Hrun]. rewrite Hseen. reflexivity. }
      destruct (char_cases c) as [->|[->|Hc]].
      * rewrite ext_step_slash. destruct m; [apply Hkeep|].
        right. exists (rest ++ slash :: mid), run, sl. simpl.
        rewrite Hseen, length_app. simpl. repeat split.
        -- rewrite <- app_assoc. reflexivity.
        -- exact Hrun.
        -- f_equal. lia.
        -- f_equal. lia.
      * rewrite ext_step_dot. simpl. apply Hkeep.
      * rewrite ext_step_plain by exact Hc. simpl. apply Hkeep.
Qed.

Lemma extname_shape (name : string) :
  path_extname name = EmptyString
  \/ exists run, path_extname name = String dot (string_of_list_ascii run)
                 /\ plain run = true.
Proof.
  unfold path_extname. rewrite chars_backwards_indexed.
  pose proof (extname_loop_scanned (list_ascii_of_string name) []
                (mkExtScan None 0 None true 0%Z)
                (scanned_slashes _ [] 0 0%Z eq_refl)) as H.
  destruct H as [H|[pre [run [post [Hpath [Hrun [Hsd He]]]]]]].
  - rewrite H. left. reflexivity.
  - rewrite Hsd, He. destruct (_ || _); [left; reflexivity|].
    right. exists run. split; [|exact Hrun].
    rewrite str_slice_list. rewrite app_nil_r in Hpath. rewrite Hpath.
    replace (length pre + 1 + length run) with (length pre + length (dot :: run))
      by (simpl; lia).
    change (pre ++ dot :: run ++ post) with (pre ++ (dot :: run) ++ post).
    rewrite slice_middle. reflexivity.
Qed.

(** A run of plain characters met by the scan, whatever comes after. *)
Lemma extname_scan_plain (l : list ascii) :
  plain l = true ->
  forall off cs sd sp e m pre,
    extname_loop (indexed_back off l ++ cs) (mkExtScan sd sp e m pre)
    = extname_loop cs
        (match l with
         | [] => mkExtScan sd sp e m pre
         | _ :: _ =>
             mkExtScan sd sp
               (match e with None => Some (off + length l) | Some _ => e end)
               (matched_after e m)
               (match sd with Some _ => (-1)%Z | None => pre end)
         end).
Proof.
  induction l as [|c l IH] using rev_ind; intros Hl off cs sd sp e m pre;
    [reflexivity|].
  unfold plain in Hl. rewrite forallb_app in Hl. apply andb_true_iff in Hl.
  destruct Hl as [Hl Hc]. simpl in Hc. rewrite andb_true_r in Hc.
  rewrite indexed_back_snoc. simpl app. rewrite ext_step_plain by exact Hc.
  rewrite (IH Hl). rewrite length_app. simpl length.
  destruct l as [|c0 l]; simpl app.
  - simpl. destruct e; simpl; [reflexivity|]. do 3 f_equal. lia.
  - destruct e, sd; simpl; try reflexivity; do 3 f_equal; lia.
Qed.

Lemma nonempty_cons {A : Type} (l : list A) :
  l <> [] -> exists x l', l = x :: l'.
Proof. destruct l as [|x l']; [congruence | eauto]. Qed.

Lemma extname_of_key (F run : list ascii) :
  F <> [] -> plain F = true -> plain run = true ->
  path_extname (string_of_list_ascii (F ++ dot :: run))
  = String dot (string_of_list_ascii run).
Proof.
  intros HF HpF Hrun. unfold path_extname.
  rewrite chars_backwards_indexed, list_ascii_of_string_of_list_ascii.
  rewrite indexed_back_app, indexed_back_cons, <- !app_assoc.
  simpl app. simpl Nat.add.
  rewrite (extname_scan_plain run Hrun).
  assert (Hscan := extname_scan_plain F HpF 0 []).
  rewrite app_nil_r in Hscan.
  assert (Hfinal :
    extname_loop ((length F, dot) :: indexed_back 0 F)
      match run with
      | [] => mkExtScan None 0 None true 0%Z
      | _ :: _ =>
          mkExtScan None 0 (Some (S (length F) + length run))
            (matched_after None true) 0%Z
      end
    = mkExtScan (Some (length F)) 0 (Some (length F + 1 + length run)) false (-1)%Z).
  { destruct (nonempty_cons F HF) as [x [F' HF']].
    destruct run as [|r run']; rewrite ext_step_dot, Hscan; rewrite HF' at 1;
      simpl; do 2 f_equal; lia. }
  rewrite Hfinal. cbn [ext_startDot ext_end ext_preDotState]. simpl orb. cbv iota.
  rewrite str_slice_list, list_ascii_of_string_of_list_ascii.
  replace (length F + 1 + length run) with (length F + length (dot :: run))
    by (simpl; lia).
  rewrite <- (app_nil_r (dot :: run)) at 1. rewrite slice_middle. reflexivity.
Qed.

Lemma extname_of_plain (F : list ascii) :
  plain F = true -> path_extname (string_of_list_ascii F) = EmptyString.
Proof.
  intros HpF. unfold path_extname.
  rewrite chars_backwards_indexed, list_ascii_of_string_of_list_ascii.
  assert (Hscan := extname_scan_plain F HpF 0 []).
  rewrite app_nil_r in Hscan. rewrite Hscan. destruct F; reflexivity.
Qed.

(** *** The scans of [basename] *)

Definition first_after (first : option nat) (i : nat) : option nat :=
  match first with None => Some (i + 1) | Some _ => first end.

Lemma base_step_match (suffix : string) (i : nat) (c : ascii)
  (cs : list (nat * ascii)) (start : nat) (e : option nat) (m : bool) (k : nat)
  (first : option nat) :
  Ascii.eqb c slash = false ->
  char_at suffix k = Some c ->
  basename_suffix_loop suffix ((i, c) :: cs) (mkBaseScan start e m (Some k) first)
  = basename_suffix_loop suffix cs
      (match k with
       | O => mkBaseScan start (Some i) (matched_after first m) None
                (first_after first i)
       | S k' => mkBaseScan start e (matched_after first m) (Some k')
                   (first_after first i)
       end).
Proof.
  intros Hs Hk. simpl. rewrite Hs, Hk. simpl. rewrite Ascii.eqb_refl.
  destruct first, k; reflexivity.
Qed.

Lemma base_step_rest (suffix : string) (i : nat) (c : ascii)
  (cs : list (nat * ascii)) (start : nat) (e : option nat) (m : bool)
  (first : option nat) :
  Ascii.eqb c slash = false ->
  basename_suffix_loop suffix ((i, c) :: cs) (mkBaseScan start e m None first)
  = basename_suffix_loop suffix cs
      (mkBaseScan start e (matched_after first m) None (first_after first i)).
Proof. intros Hs. simpl. rewrite Hs. destruct first; reflexivity. Qed.

Definition no_slash (l : list ascii) : bool :=
  forallb (fun c => negb (Ascii.eqb c slash)) l.

Lemma plain_no_slash (l : list ascii) : plain l = true -> no_slash l = true.
Proof.
  unfold plain, no_slash. rewrite !forallb_forall. intros H c Hc.
  specialize (H c Hc). apply plain_char_not in H. destruct H as [-> _]. reflexivity.
Qed.

Lemma no_slash_snoc (l : list ascii) (c : ascii) :
  no_slash (l ++ [c]) = true -> no_slash l = true /\ Ascii.eqb c slash = false.
Proof.
  unfold no_slash. rewrite forallb_app, andb_true_iff. simpl.
  rewrite andb_true_r, negb_true_iff. tauto.
Qed.

(** The scan over the characters [x] that the suffix starts with, the rest
    of the suffix, [q], being matched already. *)
Lemma base_scan_suffix (suffix : string) (x : list ascii) :
  forall q off cs start e m first,
    list_ascii_of_string suffix = x ++ q ->
    x <> [] -> no_slash x = true ->
    basename_suffix_loop suffix (indexed_back off x ++ cs)
      (mkBaseScan start e m (Some (length x - 1)) first)
    = basename_suffix_loop suffix cs
        (mkBaseScan start (Some off) (matched_after first m) None
           (first_after first (off + length x - 1))).
Proof.
  induction x as [|c x IH] using rev_ind; intros q off cs start e m first Hsuf Hne Hx;
    [congruence|].
  apply no_slash_snoc in Hx. destruct Hx as [Hx Hc].
  rewrite indexed_back_snoc. simpl app.
  rewrite length_app. simpl length.
  replace (length x + 1 - 1) with (length x) by lia.
  assert (Hk : char_at suffix (length x) = Some c).
  { unfold char_at. rewrite get_list, Hsuf, <- app_assoc.
    rewrite nth_error_app2 by lia. rewrite Nat.sub_diag. reflexivity. }
  rewrite (base_step_match suffix _ c _ start e m (length x) first Hc Hk).
  destruct x as [|c0 x].
  - simpl. rewrite Nat.add_0_r. do 2 f_equal. destruct first; [reflexivity|].
    simpl. f_equal. lia.
  - cbn [length]. cbv iota beta.
    specialize (IH (c :: q) off cs start e (matched_after first m)
                  (first_after first (off + S (length x)))).
    cbn [length] in IH.
    replace (S (length x) - 1) with (length x) in IH by lia.
    rewrite IH.
    + do 2 f_equal.
      * destruct first; reflexivity.
      * destruct first; simpl; [reflexivity|]. f_equal. lia.
    + rewrite Hsuf, <- app_assoc. reflexivity.
    + discriminate.
    + exact Hx.
Qed.

Lemma base_scan_rest (suffix : string) (l : list ascii) :
  no_slash l = true ->
  forall off cs start e m f,
    basename_suffix_loop suffix (indexed_back off l ++ cs)
      (mkBaseScan start e m None (Some f))
    = basename_suffix_loop suffix cs (mkBaseScan start e m None (Some f)).
Proof.
  induction l as [|c l IH] using rev_ind; intros Hl off cs start e m f;
    [reflexivity|].
  apply no_slash_snoc in Hl. destruct Hl as [Hl Hc].
  rewrite indexed_back_snoc. simpl app.
  rewrite base_step_rest by exact Hc. simpl. apply IH, Hl.
Qed.

Lemma base_scan_plain (l : list ascii) :
  no_slash l = true ->
  forall off cs start e m x f,
    basename_plain_loop (indexed_back off l ++ cs) (mkBaseScan start e m x f)
    = basename_plain_loop cs
        (match l, e with
         | _ :: _, None => mkBaseScan start (Some (off + length l)) false x f
         | _, _ => mkBaseScan start e m x f
         end).
Proof.
  induction l as [|c l IH] using rev_ind; intros Hl off cs start e m x f.
  - simpl. destruct e; reflexivity.
  - apply no_slash_snoc in Hl. destruct Hl as [Hl Hc].
    rewrite indexed_back_snoc. simpl app.
    assert (Hstep : basename_plain_loop
                      ((off + length l, c) :: indexed_back off l ++ cs)
                      (mkBaseScan start e m x f)
                    = basename_plain_loop (indexed_back off l ++ cs)
                        (match e with
                         | None => mkBaseScan start (Some (off + length l + 1))
                                     false x f
                         | Some _ => mkBaseScan start e m x f
                         end)).
    { simpl. rewrite Hc. destruct e; reflexivity. }
    rewrite Hstep.
    assert (Hnn : exists a b, l ++ [c] = a :: b) by (destruct l; simpl; eauto).
    destruct Hnn as [a [b Hab]].
    rewrite length_app. simpl length. rewrite Hab.
    destruct e as [e0|]; rewrite (IH Hl).
    + destruct l; reflexivity.
    + destruct l; simpl; do 3 f_equal; lia.
Qed.

Lemma length_string_of_list (l : list ascii) :
  String.length (string_of_list_ascii l) = length l.
Proof. induction l as [|c l IH]; simpl; [reflexivity | rewrite IH; reflexivity]. Qed.

Lemma string_of_list_app (l1 l2 : list ascii) :
  string_of_list_ascii (l1 ++ l2)
  = String.append (string_of_list_ascii l1) (string_of_list_ascii l2).
Proof. induction l1 as [|c l1 IH]; simpl; [reflexivity | rewrite IH; reflexivity]. Qed.

Lemma basename_of_key (F run : list ascii) :
  F <> [] -> plain F = true -> plain run = true ->
  path_basename (string_of_list_ascii (F ++ dot :: run))
    (String dot (string_of_list_ascii run))
  = string_of_list_ascii F.
Proof.
  intros HF HpF Hrun. unfold path_basename.
  change (String dot (string_of_list_ascii run))
    with (string_of_list_ascii (dot :: run)).
  rewrite !length_string_of_list, length_app.
  assert (H1 : (0 <? length (dot :: run))%nat = true) by reflexivity.
  assert (H2 : (length (dot :: run) <=? length F + length (dot :: run))%nat = true)
    by (apply Nat.leb_le; lia).
  rewrite H1, H2. simpl andb. cbv iota.
  assert (H3 : String.eqb (string_of_list_ascii (dot :: run))
                 (string_of_list_ascii (F ++ dot :: run)) = false).
  { apply String.eqb_neq. intros Heq.
    apply (f_equal String.length) in Heq.
    rewrite !length_string_of_list, length_app in Heq.
    destruct F; [congruence | simpl in Heq; lia]. }
  rewrite H3, chars_backwards_indexed, list_ascii_of_string_of_list_ascii.
  rewrite indexed_back_app. simpl Nat.add.
  rewrite (base_scan_suffix (string_of_list_ascii (dot :: run)) (dot :: run) []).
  - assert (Hrest := base_scan_rest (string_of_list_ascii (dot :: run)) F
                       (plain_no_slash F HpF) 0 []).
    rewrite app_nil_r in Hrest. simpl first_after. rewrite Hrest.
    cbn [base_end base_start base_firstNonSlashEnd basename_suffix_loop].
    destruct F as [|x F']; [congruence|].
    cbn [length Nat.eqb]. rewrite str_slice_list, list_ascii_of_string_of_list_ascii.
    unfold slice. cbn [skipn]. rewrite Nat.sub_0_r.
    change (S (length F')) with (length (x :: F')).
    rewrite firstn_app_exact. reflexivity.
  - rewrite list_ascii_of_string_of_list_ascii, app_nil_r. reflexivity.
  - discriminate.
  - simpl. apply plain_no_slash, Hrun.
Qed.

Lemma basename_of_plain (F : list ascii) :
  plain F = true ->
  path_basename (string_of_list_ascii F) EmptyString = string_of_list_ascii F.
Proof.
  intros HpF. unfold path_basename. simpl andb. cbv iota.
  rewrite chars_backwards_indexed, list_ascii_of_string_of_list_ascii.
  assert (Hscan := base_scan_plain F (plain_no_slash F HpF) 0 []).
  rewrite app_nil_r in Hscan. rewrite Hscan.
  destruct F as [|x F']; [reflexivity|].
  cbn [basename_plain_loop base_end base_start].
  rewrite str_slice_list, list_ascii_of_string_of_list_ascii.
  unfold slice. cbn [skipn]. rewrite Nat.sub_0_r. simpl Nat.add.
  apply f_equal, (firstn_all (x :: F')).
Qed.

Lemma append_empty (s : string) : String.append s EmptyString = s.
Proof. induction s as [|c s IH]; simpl; [reflexivity | rewrite IH; reflexivity]. Qed.

Lemma storage_key_resolves (fileId name : string) :
  plain_id fileId ->
  file_id_of (String.append fileId (path_extname name)) = fileId.
Proof.
  intros [Hne Hplain]. unfold file_id_of.
  assert (HF : list_ascii_of_string fileId <> []).
  { intros H. apply Hne. rewrite <- (string_of_list_ascii_of_string fileId), H.
    reflexivity. }
  destruct (extname_shape name) as [->|[run [-> Hrun]]].
  - rewrite append_empty. rewrite <- (string_of_list_ascii_of_string fileId).
    rewrite extname_of_plain by exact Hplain. apply basename_of_plain, Hplain.
  - change (String dot (string_of_list_ascii run))
      with (string_of_list_ascii (dot :: run)).
    rewrite <- (string_of_list_ascii_of_string fileId) at 1 2.
    rewrite <- string_of_list_app.
    rewrite extname_of_key by assumption.
    rewrite basename_of_key by assumption.
    apply string_of_list_ascii_of_string.
Qed.

Lemma hex_digit_plain (c : ascii) : hex_digit c = true -> plain_char c = true.
Proof.
  destruct c as [[] [] [] [] [] [] [] []]; intros H;
    first [reflexivity | discriminate H].
Qed.

Lemma generated_id_plain (fileId : string) :
  generated_id fileId -> plain_id fileId.
Proof.
  intros [Hlen Hhex]. split.
  - intros ->. discriminate.
  - unfold plain. rewrite forallb_forall in *. intros c Hc.
    apply hex_digit_plain, Hhex, Hc.
Qed.

(** ** Upload, then download *)

Lemma upload_end_accepts (io : FsFaults) (sid : string) (s : Session)
  (ct boundary host : string) (buffer content : Buffer) (name fileId : string)
  (now : Z) (st : State) :
  boundaryMatch ct = Some boundary ->
  parseMultipartFormData buffer boundary = mkParseResult (Some name) (Some content) ->
  truthy name = true ->
  write_fails io (String.append fileId (path_extname name)) = false ->
  dict_get sid (userSessions st) = Some s ->
  upload_end io sid (Some ct) host buffer fileId now st
  = (sendResponse 200
       (JsonUploaded "File uploaded successfully" fileId
          (downloadLink host (String.append fileId (path_extname name)))
          (now + FILE_EXPIRY)),
     mkState
       (dict_set fileId
          (mkFileRecord name (String.append fileId (path_extname name))
             (length content) now (now + FILE_EXPIRY) false sid)
          (fileDatabase st))
       (dict_set sid (mkSession (created s) (files s ++ [fileId])) (userSessions st))
       (dict_set (String.append fileId (path_extname name)) content (uploads st))).
Proof.
  intros Hb Hparse Hname Hwrite Hs. unfold upload_end.
  rewrite Hb, Hparse. cbn [fileName fileContent]. rewrite Hname.
  unfold writeFileSync. rewrite Hwrite, Hs. reflexivity.
Qed.

Lemma checkInvalidHeaderChar_eq (value : string) :
  checkInvalidHeaderChar value =
  match value with
  | EmptyString => false
  | String c rest =>
      if header_byte c then checkInvalidHeaderChar rest
      else if latin1_lead c then
        match rest with
        | String d rest' =>
            if continuation d then checkInvalidHeaderChar rest' else true
        | EmptyString => true
        end
      else true
  end.
Proof. destruct value; reflexivity. Qed.

Lemma checkInvalidHeaderChar_closing (n : nat) :
  forall value,
    String.length value <= n ->
    checkInvalidHeaderChar (String.append value (String dquote EmptyString))
    = checkInvalidHeaderChar value.
Proof.
  induction n as [|n IH]; intros value Hlen.
  - destruct value; [reflexivity | simpl in Hlen; lia].
  - destruct value as [|c rest]; [reflexivity|].
    change (String.append (String c rest) (String dquote EmptyString))
      with (String c (String.append rest (String dquote EmptyString))).
    rewrite (checkInvalidHeaderChar_eq (String c rest)).
    rewrite (checkInvalidHeaderChar_eq (String c _)).
    simpl in Hlen.
    destruct (header_byte c); [apply IH; lia|].
    destruct (latin1_lead c); [|reflexivity].
    destruct rest as [|d rest']; [reflexivity|].
    change (String.append (String d rest') (String dquote EmptyString))
      with (String d (String.append rest' (String dquote EmptyString))).
    cbv beta iota.
    destruct (continuation d); [|reflexivity].
    apply IH. simpl in Hlen. lia.
Qed.

(** The fixed text around the name passes the test of [res.setHeader]: the
    value is refused exactly when the name holds a refused character. *)
Lemma header_value_of_name (name : string) :
  checkInvalidHeaderChar (content_disposition name) = checkInvalidHeaderChar name.
Proof.
  unfold content_disposition, quoted.
  change (checkInvalidHeaderChar
            (String.append name (String dquote EmptyString))
          = checkInvalidHeaderChar name).
  apply (checkInvalidHeaderChar_closing (String.length name)). lia.
Qed.

(** The three answers of the download handler. *)
Lemma download_eq (name : string) (st : State) :
  download name st =
  match dict_get name (uploads st), dict_get (file_id_of name) (fileDatabase st) with
  | Some data, Some metadata =>
      if checkInvalidHeaderChar (originalName metadata)
      then (throws "ERR_INVALID_CHAR", st)
      else
        (mkReply 200
           (FileStream (content_disposition (originalName metadata))
                       (getContentType name) data),
         mkState
           (dict_set (file_id_of name)
              (mkFileRecord (originalName metadata) (filename metadata)
                 (size metadata) (uploadTime metadata) (expiryTime metadata)
                 true (sessionId metadata))
              (fileDatabase st))
           (userSessions st) (uploads st))
  | _, _ => (sendResponse 404 (JsonError "File not found or expired"), st)
  end.
Proof.
  unfold download.
  destruct (dict_get name (uploads st)); [|reflexivity].
  destruct (dict_get (file_id_of name) (fileDatabase st)); [|reflexivity].
  rewrite header_value_of_name. reflexivity.
Qed.

(** A download that is served found the bytes and the record, and a name the
    header accepts. *)
Lemma download_served (name : string) (st : State) :
  status (fst (download name st)) = 200 ->
  exists data m,
    dict_get name (uploads st) = Some data
    /\ dict_get (file_id_of name) (fileDatabase st) = Some m
    /\ checkInvalidHeaderChar (originalName m) = false.
Proof.
  rewrite download_eq.
  destruct (dict_get name (uploads st)) as [data|]; [|discriminate].
  destruct (dict_get (file_id_of name) (fileDatabase st)) as [m|]; [|discriminate].
  destruct (checkInvalidHeaderChar (originalName m)) eqn:E; [discriminate|].
  intros _. exists data, m. split; [reflexivity|]. split; [reflexivity | exact E].
Qed.

(** C1. The round trip fails on a name the response header cannot carry.
    [wide_body] is a well-formed body (its header block ends at the first
    blank line, the delimiter does not occur inside the part) whose file
    part declares a name in another script (U+6587, then .txt) and carries
    six bytes that are not text.  The extractor returns the six bytes and the upload answers 200
    and stores them, under a key that any request path can carry; the
    request for the returned link then throws at [res.setHeader], outside
    every [try]: no byte is served, and the stores stay as the upload left
    them. *)
Theorem wide_name_download_throws :
  header_block wide_head
  /\ delimiter_free sample_delimiter (file_part wide_head sample_content)
  /\ parseMultipartFormData wide_body sample_boundary
     = mkParseResult (Some wide_name) (Some sample_content)
  /\ fst (upload_end no_faults "s1" (Some sample_content_type) "h" wide_body
            sample_id 1000 sample_state)
     = sendResponse 200
         (JsonUploaded "File uploaded successfully" sample_id
            (downloadLink "h" (String.append sample_id ".txt"))
            (1000 + FILE_EXPIRY))
  /\ dict_get (String.append sample_id ".txt")
       (uploads (snd (upload_end no_faults "s1" (Some sample_content_type) "h"
                        wide_body sample_id 1000 sample_state)))
     = Some sample_content
  /\ url_segment (String.append sample_id ".txt") = true
  /\ download (String.append sample_id ".txt")
       (snd (upload_end no_faults "s1" (Some sample_content_type) "h" wide_body
               sample_id 1000 sample_state))
     = (throws "ERR_INVALID_CHAR",
        snd (upload_end no_faults "s1" (Some sample_content_type) "h" wide_body
               sample_id 1000 sample_state)).
Proof.
  split; [apply first_atb_sound; vm_compute; reflexivity|].
  split; [apply first_atb_sound; vm_compute; reflexivity|].
  vm_compute. repeat split.
Qed.

(** C4. Zero-byte payloads: when the first file-bearing part of a well-formed
    body declares a file name and carries no byte, the extractor returns the
    empty payload (not the absence of a file), the upload answers 200, and
    the record it creates has size 0 and stores the empty content. *)
Theorem zero_byte_upload_accepted (io : FsFaults) (sid : string) (s : Session)
  (ct boundary host : string) (preamble : Buffer) (fields : list Buffer)
  (head epilogue : Buffer) (name fileId : string) (now : Z) (st : State) :
  let delimiter := Buffer_from (String.append "--" boundary) in
  let buffer :=
    multipart_body delimiter preamble (fields ++ [file_part head []]) epilogue in
  let key := String.append fileId (path_extname name) in
  boundaryMatch ct = Some boundary ->
  delimiter_free delimiter preamble ->
  Forall (delimiter_free delimiter) fields ->
  Forall (fun f => includes f filenameMarker = false) fields ->
  delimiter_free delimiter (file_part head []) ->
  header_block head ->
  filenameMatch (toString head) = Some name ->
  write_fails io key = false ->
  dict_get sid (userSessions st) = Some s ->
  parseMultipartFormData buffer boundary = mkParseResult (Some name) (Some [])
  /\ status (fst (upload_end io sid (Some ct) host buffer fileId now st)) = 200
  /\ (exists r,
        dict_get fileId
          (fileDatabase (snd (upload_end io sid (Some ct) host buffer fileId now st)))
        = Some r /\ size r = 0 /\ originalName r = name /\ filename r = key)
  /\ dict_get key (uploads (snd (upload_end io sid (Some ct) host buffer fileId now st)))
     = Some [].
Proof.
  intros delimiter buffer key Hb Hpre Hfields Hplain Hfile Hhead Hname Hwrite Hs.
  assert (Hparse : parseMultipartFormData buffer boundary
                   = mkParseResult (Some name) (Some []))
    by (apply parse_well_formed; assumption).
  split; [exact Hparse|].
  rewrite (upload_end_accepts io sid s ct boundary host buffer [] name fileId
             now st Hb Hparse (filenameMatch_truthy _ _ Hname) Hwrite Hs).
  split; [reflexivity|]. simpl snd. simpl fileDatabase. simpl uploads. split.
  - eexists. rewrite dict_get_set_same. repeat split.
  - apply dict_get_set_same.
Qed.

(** ** Download completion *)

Lemma unlinkSync_removes (io : FsFaults) (p : string) (disk disk' : dict Buffer) :
  unlinkSync io p disk = Some disk' -> dict_get p disk' = None.
Proof.
  unfold unlinkSync. destruct (existsSync p disk && negb (unlink_fails io p));
    [|discriminate].
  intros H. injection H as <-. apply dict_get_delete_same.
Qed.

Lemma unlinkSync_ok (io : FsFaults) (p : string) (disk : dict Buffer) (data : Buffer) :
  dict_get p disk = Some data -> unlink_fails io p = false ->
  unlinkSync io p disk = Some (dict_delete p disk).
Proof.
  intros Hp Hio. unfold unlinkSync, existsSync, dict_has. rewrite Hp, Hio.
  reflexivity.
Qed.

Lemma in_without (fileId x : string) (ids : list string) :
  In x (without fileId ids) <-> In x ids /\ x <> fileId.
Proof.
  unfold without. rewrite filter_In, negb_true_iff, String.eqb_neq. tauto.
Qed.

Lemma detach_not_in (sid fileId : string) (sessions : dict Session) (s : Session) :
  truthy sid = true ->
  dict_get sid (detach sid fileId sessions) = Some s ->
  ~ In fileId (files s).
Proof.
  intros Hsid. unfold detach. rewrite Hsid.
  destruct (dict_get sid sessions) as [s0|] eqn:E.
  - rewrite dict_get_set_same. intros H. injection H as <-. simpl.
    rewrite in_without. tauto.
  - congruence.
Qed.

Lemma download_finish_eq (io : FsFaults) (name : string) (st : State) :
  download_finish io name st =
  if existsSync name (uploads st) && negb (unlink_fails io name) then
    match dict_get (file_id_of name) (fileDatabase st) with
    | Some m =>
        mkState (dict_delete (file_id_of name) (fileDatabase st))
                (detach (sessionId m) (file_id_of name) (userSessions st))
                (dict_delete name (uploads st))
    | None => mkState (fileDatabase st) (userSessions st)
                      (dict_delete name (uploads st))
    end
  else st.
Proof.
  unfold download_finish, unlinkSync.
  destruct (existsSync name (uploads st) && negb (unlink_fails io name));
    reflexivity.
Qed.




(** ** Which part is honoured *)

Lemma examine_part_cases (part : Buffer) :
  examine_part part =
  if has_marker part then
    match header_end part, declared_name part with
    | Some h, Some name =>
        Some (name, slice part (h + length headerEndBuffer) (length part - 2))
    | _, _ => None
    end
  else None.
Proof.
  unfold examine_part, has_marker, declared_name, header_end.
  destruct (includes part filenameMarker); [|reflexivity].
  destruct (indexOf part headerEndBuffer 0) as [h|]; [|reflexivity].
  destruct (filenameMatch (toString (slice part 0 h))); reflexivity.
Qed.

(** C6, as the code has it. The extractor honours the first part that
    contains the filename= marker, has a header block ended by a blank line,
    and whose header block declares a non-empty quoted file name; every part
    before it that lacks one of the three (a part without the blank line
    among them) is skipped, and the parts after it are not looked at. *)
Theorem first_accepted_part_only (buffer : Buffer) (boundary : string)
  (pre : list Buffer) (p : Buffer) (post : list Buffer) (h : nat) (name : string) :
  let delimiter := Buffer_from (String.append "--" boundary) in
  parts_of buffer (length delimiter) (boundaryPositions buffer delimiter)
  = pre ++ p :: post ->
  Forall (fun q => has_marker q = false \/ header_end q = None
                   \/ declared_name q = None) pre ->
  has_marker p = true ->
  header_end p = Some h ->
  declared_name p = Some name ->
  parseMultipartFormData buffer boundary
  = mkParseResult (Some name) (Some (slice p (h + 4) (length p - 2))).
Proof.
  intros delimiter Hparts Hpre Hm Hh Hn.
  unfold parseMultipartFormData. fold delimiter.
  rewrite process_parts_first_accepted, Hparts.
  rewrite (first_accepted_app pre p post
             (name, slice p (h + 4) (length p - 2))).
  - reflexivity.
  - eapply Forall_impl; [|exact Hpre]. intros q Hq.
    rewrite examine_part_cases.
    destruct Hq as [Hq|[Hq|Hq]]; rewrite Hq; [reflexivity| |].
    + destruct (has_marker q); reflexivity.
    + destruct (has_marker q); [|reflexivity].
      destruct (header_end q); reflexivity.
  - rewrite examine_part_cases, Hm, Hh, Hn. reflexivity.
Qed.

(** C6, as stated, fails: in [two_files_body] the first part contains the
    marker and its header block ends with a blank line, yet the extractor
    passes over it (it declares an empty name) and returns the second part. *)
Lemma marked_part_with_blank_line_skipped :
  parts_of two_files_body (length sample_delimiter)
    (boundaryPositions two_files_body sample_delimiter)
  = [unnamed_part; named_part]
  /\ has_marker unnamed_part = true
  /\ header_end unnamed_part = Some 59
  /\ parseMultipartFormData two_files_body sample_boundary
     = mkParseResult (Some "b.txt") (Some (Buffer_from "hello")).
Proof. vm_compute. repeat split. Qed.

(** ** Identifier collisions *)

(** C7, as the code has it. The record of an upload is assigned under its
    file identifier without any test for an existing entry: when the
    identifier is already in the store the upload still answers 200, and the
    store then holds the new record in place of the old one. *)
Theorem upload_replaces_record (io : FsFaults) (sid : string) (s : Session)
  (ct boundary host : string) (buffer content : Buffer) (name fileId : string)
  (now : Z) (st : State) (old : FileRecord) :
  dict_get fileId (fileDatabase st) = Some old ->
  boundaryMatch ct = Some boundary ->
  parseMultipartFormData buffer boundary = mkParseResult (Some name) (Some content) ->
  truthy name = true ->
  write_fails io (String.append fileId (path_extname name)) = false ->
  dict_get sid (userSessions st) = Some s ->
  status (fst (upload_end io sid (Some ct) host buffer fileId now st)) = 200
  /\ dict_get fileId
       (fileDatabase (snd (upload_end io sid (Some ct) host buffer fileId now st)))
     = Some (mkFileRecord name (String.append fileId (path_extname name))
               (length content) now (now + FILE_EXPIRY) false sid)
  /\ dict_get (String.append fileId (path_extname name))
       (uploads (snd (upload_end io sid (Some ct) host buffer fileId now st)))
     = Some content.
Proof.
  intros _ Hb Hparse Hname Hwrite Hs.
  rewrite (upload_end_accepts io sid s ct boundary host buffer content name fileId
             now st Hb Hparse Hname Hwrite Hs).
  simpl. rewrite !dict_get_set_same. repeat split.
Qed.

(** C7, as stated, fails: a second upload under the identifier of
    [stored_state]'s file answers 200 and replaces the record. *)
Lemma colliding_upload_overwrites :
  dict_get "f1" (fileDatabase stored_state) = Some stored_record
  /\ status (fst (upload_end no_faults "s1" (Some sample_content_type) "h"
                    sample_body "f1" 50 stored_state)) = 200
  /\ dict_get "f1"
       (fileDatabase (snd (upload_end no_faults "s1" (Some sample_content_type) "h"
                             sample_body "f1" 50 stored_state)))
     = Some (mkFileRecord "a.txt" "f1.txt" 6 50 (50 + FILE_EXPIRY) false "s1")
  /\ dict_get "f1.txt"
       (uploads (snd (upload_end no_faults "s1" (Some sample_content_type) "h"
                        sample_body "f1" 50 stored_state)))
     = Some sample_content.
Proof. vm_compute. repeat split. Qed.

(** ** Removal, one record at a time *)

(** The [if (fs.existsSync(p)) fs.unlinkSync(p)] of the sweep and of the
    session reset goes through: the file is absent, or its unlink is not
    refused. *)
Definition unlink_goes_through (io : FsFaults) (p : string) (disk : dict Buffer)
  : bool :=
  negb (existsSync p disk) || negb (unlink_fails io p).

Lemma dict_delete_absent {V : Type} (k : string) (d : dict V) :
  dict_get k d = None -> dict_delete k d = d.
Proof.
  induction d as [|[k' v'] d IH]; simpl; [reflexivity|].
  destruct (String.eqb k k') eqn:E; [discriminate|].
  intros H. simpl. f_equal. apply IH, H.
Qed.

Lemma guarded_unlink (io : FsFaults) (p : string) (disk : dict Buffer) :
  (if existsSync p disk then unlinkSync io p disk else Some disk)
  = if unlink_goes_through io p disk then Some (dict_delete p disk) else None.
Proof.
  unfold unlink_goes_through, unlinkSync, existsSync, dict_has.
  destruct (dict_get p disk) eqn:E; simpl.
  - destruct (unlink_fails io p); reflexivity.
  - rewrite dict_delete_absent by exact E. reflexivity.
Qed.

Lemma sweep_file_eq (io : FsFaults) (now : Z) (st : State) (fileId : string)
  (m : FileRecord) :
  sweep_file io now st (fileId, m) =
  if (now >? expiryTime m)%Z && unlink_goes_through io (filename m) (uploads st)
  then mkState (dict_delete fileId (fileDatabase st))
               (detach (sessionId m) fileId (userSessions st))
               (dict_delete (filename m) (uploads st))
  else st.
Proof.
  unfold sweep_file. rewrite guarded_unlink.
  destruct (now >? expiryTime m)%Z; [|reflexivity].
  destruct (unlink_goes_through io (filename m) (uploads st)); reflexivity.
Qed.

Lemma reset_file_eq (io : FsFaults) (st : State) (fileId : string) :
  reset_file io st fileId =
  match dict_get fileId (fileDatabase st) with
  | Some m =>
      if unlink_goes_through io (filename m) (uploads st)
      then mkState (dict_delete fileId (fileDatabase st)) (userSessions st)
                   (dict_delete (filename m) (uploads st))
      else st
  | None => st
  end.
Proof.
  unfold reset_file. destruct (dict_get fileId (fileDatabase st)) as [m|];
    [|reflexivity].
  rewrite guarded_unlink.
  destruct (unlink_goes_through io (filename m) (uploads st)); reflexivity.
Qed.

Definition sweep_entries (io : FsFaults) (now : Z)
  (entries : list (string * FileRecord)) (st : State) : State :=
  fold_left (sweep_file io now) entries st.

Lemma sweep_file_get_none (io : FsFaults) (now : Z) (st : State)
  (e : string * FileRecord) (k : string) :
  dict_get k (fileDatabase st) = None ->
  dict_get k (fileDatabase (sweep_file io now st e)) = None.
Proof.
  destruct e as [fileId m]. rewrite sweep_file_eq.
  destruct (_ && _); [|tauto]. simpl. apply dict_get_delete_none.
Qed.

Lemma sweep_entries_get_none (io : FsFaults) (now : Z)
  (entries : list (string * FileRecord)) (st : State) (k : string) :
  dict_get k (fileDatabase st) = None ->
  dict_get k (fileDatabase (sweep_entries io now entries st)) = None.
Proof.
  revert st. induction entries as [|e es IH]; intros st H; [exact H|].
  simpl. apply IH, sweep_file_get_none, H.
Qed.

(** A record whose unlink goes through is removed by the sweep wherever it
    stands among the entries, whatever happens to the other entries. *)
Lemma sweep_entries_removes (io : FsFaults) (now : Z)
  (entries : list (string * FileRecord)) (st : State) (k : string) (m : FileRecord) :
  In (k, m) entries ->
  (now > expiryTime m)%Z ->
  unlink_fails io (filename m) = false ->
  dict_get k (fileDatabase (sweep_entries io now entries st)) = None.
Proof.
  intros Hin Hexp Hio. revert st.
  induction entries as [|e es IH]; intros st; [destruct Hin|].
  simpl. destruct Hin as [->|Hin]; [|apply IH, Hin].
  apply sweep_entries_get_none. rewrite sweep_file_eq.
  assert (Hgt : (now >? expiryTime m)%Z = true) by (apply Z.gtb_lt; lia).
  unfold unlink_goes_through. rewrite Hgt, Hio, orb_true_r. simpl.
  apply dict_get_delete_same.
Qed.

(** C8, as the code has it. In the three removal paths the unlink comes
    first and shares its [try] block with the removal of the record: when the
    unlink throws, the error is swallowed and the state is left as it was,
    record included; when it goes through, the record is removed and the
    bytes are gone.  In the sweep a refused unlink does not stop the rounds
    for the other entries, and the reset destroys the session whatever the
    unlinks did. *)
Theorem removal_follows_unlink (io : FsFaults) (now : Z) (st : State)
  (fileId : string) (m : FileRecord) :
  dict_get fileId (fileDatabase st) = Some m ->
  (now > expiryTime m)%Z ->
  (* the sweep *)
  (unlink_goes_through io (filename m) (uploads st) = false ->
     sweep_file io now st (fileId, m) = st)
  /\ (unlink_goes_through io (filename m) (uploads st) = true ->
        dict_get fileId (fileDatabase (sweep_file io now st (fileId, m))) = None
        /\ dict_get (filename m) (uploads (sweep_file io now st (fileId, m))) = None)
  /\ (unlink_fails io (filename m) = false ->
        dict_get fileId (fileDatabase (sweep_files io now st)) = None)
  (* the session reset *)
  /\ (unlink_goes_through io (filename m) (uploads st) = false ->
        reset_file io st fileId = st)
  /\ (unlink_goes_through io (filename m) (uploads st) = true ->
        dict_get fileId (fileDatabase (reset_file io st fileId)) = None
        /\ dict_get (filename m) (uploads (reset_file io st fileId)) = None)
  /\ (forall sid newId, sid <> newId ->
        dict_get sid (userSessions (snd (reset_session io sid newId now st))) = None)
  (* the end of a download *)
  /\ (file_id_of (filename m) = fileId ->
      unlinkSync io (filename m) (uploads st) = None ->
        download_finish io (filename m) st = st)
  /\ (file_id_of (filename m) = fileId ->
      unlinkSync io (filename m) (uploads st) <> None ->
        dict_get fileId (fileDatabase (download_finish io (filename m) st)) = None
        /\ dict_get (filename m) (uploads (download_finish io (filename m) st)) = None).
Proof.
  intros Hm Hexp.
  assert (Hgt : (now >? expiryTime m)%Z = true) by (apply Z.gtb_lt; lia).
  rewrite sweep_file_eq, reset_file_eq, Hm, Hgt. simpl andb.
  split; [intros ->; reflexivity|].
  split; [intros ->; simpl; split; apply dict_get_delete_same|].
  split.
  { intros Hio. apply (sweep_entries_removes io now _ st fileId m);
      [apply dict_get_In, Hm | exact Hexp | exact Hio]. }
  split; [intros ->; reflexivity|].
  split; [intros ->; simpl; split; apply dict_get_delete_same|].
  split.
  { intros sid newId Hne. unfold reset_session, createSession. simpl.
    rewrite dict_get_set_other by exact Hne.
    destruct (dict_get sid (userSessions st)) as [s|] eqn:Es; simpl;
      [apply dict_get_delete_same | exact Es]. }
  split.
  - intros _ H. unfold download_finish. rewrite H. reflexivity.
  - intros Hid H. unfold download_finish.
    destruct (unlinkSync io (filename m) (uploads st)) as [disk|] eqn:E; [|congruence].
    rewrite Hid, Hm. simpl. split.
    + apply dict_get_delete_same.
    + eapply unlinkSync_removes, E.
Qed.

(** C8, as stated, fails: with a file system that refuses the unlink, the
    record of [stored_state]'s expired file is still in the store after the
    sweep, after the end of a download, and after the reset of its session. *)
Lemma refused_unlink_keeps_record :
  dict_get "f1" (fileDatabase (sweep unlink_refused 200 stored_state))
  = Some stored_record
  /\ dict_get "f1" (fileDatabase (download_finish unlink_refused "f1.txt" stored_state))
     = Some stored_record
  /\ dict_get "f1"
       (fileDatabase (snd (reset_session unlink_refused "s1" "s2" 200 stored_state)))
     = Some stored_record.
Proof. vm_compute. repeat split. Qed.

(** ** The sweep: files first, then sessions *)

Definition detached (fileId : string) (s : Session) : Session :=
  mkSession (created s) (without fileId (files s)).

Lemma detach_get (sid sid' fileId : string) (sessions : dict Session) :
  dict_get sid (detach sid' fileId sessions) =
  if truthy sid' && String.eqb sid sid'
  then option_map (detached fileId) (dict_get sid sessions)
  else dict_get sid sessions.
Proof.
  unfold detach. destruct (truthy sid'); simpl; [|reflexivity].
  destruct (String.eqb_spec sid sid') as [->|Hne].
  - destruct (dict_get sid' sessions) as [s|] eqn:E; simpl.
    + apply dict_get_set_same.
    + exact E.
  - destruct (dict_get sid' sessions) as [s|] eqn:E; [|reflexivity].
    apply dict_get_set_other, Hne.
Qed.

Lemma detach_keys (sid fileId : string) (sessions : dict Session) :
  dict_keys (detach sid fileId sessions) = dict_keys sessions.
Proof.
  unfold detach. destruct (truthy sid); [|reflexivity].
  destruct (dict_get sid sessions) as [s|] eqn:E; [|reflexivity].
  apply dict_keys_set_present. congruence.
Qed.

Lemma sweep_file_session_keys (io : FsFaults) (now : Z) (st : State)
  (e : string * FileRecord) :
  dict_keys (userSessions (sweep_file io now st e)) = dict_keys (userSessions st).
Proof.
  destruct e as [fileId m]. rewrite sweep_file_eq.
  destruct (_ && _); [|reflexivity]. apply detach_keys.
Qed.

Lemma sweep_entries_session_keys (io : FsFaults) (now : Z)
  (entries : list (string * FileRecord)) (st : State) :
  dict_keys (userSessions (sweep_entries io now entries st))
  = dict_keys (userSessions st).
Proof.
  revert st. induction entries as [|e es IH]; intros st; [reflexivity|].
  simpl. rewrite IH. apply sweep_file_session_keys.
Qed.

(** What the file sweep leaves of a session: the session itself, with its
    creation time, and a file list that has only lost entries. *)
Definition shrunk (s s' : Session) : Prop :=
  created s' = created s /\ forall x, In x (files s') -> In x (files s).

Lemma sweep_file_session (io : FsFaults) (now : Z) (st : State)
  (e : string * FileRecord) (sid : string) (s : Session) :
  dict_get sid (userSessions st) = Some s ->
  exists s', dict_get sid (userSessions (sweep_file io now st e)) = Some s'
             /\ shrunk s s'.
Proof.
  intros Hs. destruct e as [fileId m]. rewrite sweep_file_eq.
  destruct (_ && _).
  - simpl. rewrite detach_get, Hs.
    destruct (truthy (sessionId m) && String.eqb sid (sessionId m)); simpl.
    + eexists. split; [reflexivity|]. split; [reflexivity|].
      simpl. intros x Hx. apply in_without in Hx. tauto.
    + exists s. split; [reflexivity|]. split; [reflexivity | tauto].
  - exists s. split; [exact Hs|]. split; [reflexivity | tauto].
Qed.

Lemma sweep_entries_session (io : FsFaults) (now : Z)
  (entries : list (string * FileRecord)) (st : State) (sid : string) (s : Session) :
  dict_get sid (userSessions st) = Some s ->
  exists s', dict_get sid (userSessions (sweep_entries io now entries st)) = Some s'
             /\ shrunk s s'.
Proof.
  revert st s. induction entries as [|e es IH]; intros st s Hs.
  - exists s. split; [exact Hs|]. split; [reflexivity | tauto].
  - simpl. destruct (sweep_file_session io now st e sid s Hs) as [s1 [H1 [Hc1 Hf1]]].
    destruct (IH _ _ H1) as [s2 [H2 [Hc2 Hf2]]].
    exists s2. split; [exact H2|]. split; [congruence | auto].
Qed.

(** The session [sid] does not list [fileId]. *)
Definition not_listed (sid fileId : string) (st : State) : Prop :=
  forall s, dict_get sid (userSessions st) = Some s -> ~ In fileId (files s).

Lemma sweep_file_not_listed (io : FsFaults) (now : Z) (st : State)
  (e : string * FileRecord) (sid fileId : string) :
  not_listed sid fileId st -> not_listed sid fileId (sweep_file io now st e).
Proof.
  intros H s Hs Hin.
  destruct (dict_get sid (userSessions st)) as [s0|] eqn:E.
  - destruct (sweep_file_session io now st e sid s0 E) as [s' [Hs' [_ Hsub]]].
    rewrite Hs in Hs'. injection Hs' as <-. exact (H s0 E (Hsub _ Hin)).
  - assert (Hk : ~ In sid (dict_keys (userSessions (sweep_file io now st e)))).
    { rewrite sweep_file_session_keys. apply dict_get_None_keys, E. }
    apply Hk. apply dict_get_In in Hs. apply (in_map fst) in Hs. exact Hs.
Qed.

Lemma sweep_entries_not_listed (io : FsFaults) (now : Z)
  (entries : list (string * FileRecord)) (st : State) (sid fileId : string) :
  not_listed sid fileId st -> not_listed sid fileId (sweep_entries io now entries st).
Proof.
  revert st. induction entries as [|e es IH]; intros st H; [exact H|].
  simpl. apply IH, sweep_file_not_listed, H.
Qed.

Lemma sweep_entries_detaches (io : FsFaults) (now : Z)
  (entries : list (string * FileRecord)) (st : State) (k : string) (m : FileRecord) :
  In (k, m) entries ->
  (now > expiryTime m)%Z ->
  unlink_fails io (filename m) = false ->
  truthy (sessionId m) = true ->
  not_listed (sessionId m) k (sweep_entries io now entries st).
Proof.
  intros Hin Hexp Hio Hsid. revert st.
  induction entries as [|e es IH]; intros st; [destruct Hin|].
  simpl. destruct Hin as [->|Hin]; [|apply IH, Hin].
  apply sweep_entries_not_listed. rewrite sweep_file_eq.
  assert (Hgt : (now >? expiryTime m)%Z = true) by (apply Z.gtb_lt; lia).
  unfold unlink_goes_through. rewrite Hgt, Hio, orb_true_r. simpl.
  intros s Hs. simpl in Hs. eapply detach_not_in; eassumption.
Qed.

Definition sessions_swept (now : Z) (entries : list (string * Session)) (st : State)
  : State :=
  fold_left (sweep_session now) entries st.

Lemma sessions_swept_get (now : Z) (entries : list (string * Session)) (st : State)
  (sid : string) :
  dict_get sid (userSessions (sessions_swept now entries st)) =
  if existsb (fun e => String.eqb sid (fst e) && stale now (snd e)) entries
  then None else dict_get sid (userSessions st).
Proof.
  revert st. induction entries as [|[k s] es IH]; intros st; [reflexivity|].
  simpl. rewrite IH. unfold sweep_session.
  destruct (existsb _ es); [rewrite orb_true_r; reflexivity|].
  rewrite orb_false_r. destruct (stale now s); simpl.
  - destruct (String.eqb_spec sid k) as [->|Hne]; simpl.
    + apply dict_get_delete_same.
    + apply dict_get_delete_other, Hne.
  - rewrite andb_false_r. reflexivity.
Qed.

Lemma existsb_stale_get (now : Z) (entries : dict Session) (sid : string) :
  NoDup (dict_keys entries) ->
  existsb (fun e => String.eqb sid (fst e) && stale now (snd e)) entries
  = match dict_get sid entries with Some s => stale now s | None => false end.
Proof.
  induction entries as [|[k s] es IH]; intros Hnd; [reflexivity|].
  inversion Hnd as [|? ? Hnotin Hnd']; subst. simpl.
  destruct (String.eqb_spec sid k) as [->|Hne]; simpl.
  - destruct (stale now s); [reflexivity|]. simpl.
    apply not_true_is_false. intros H. apply existsb_exists in H.
    destruct H as [[k' s'] [Hin H]]. simpl in H.
    apply andb_true_iff in H. destruct H as [H _].
    apply String.eqb_eq in H. subst k'.
    apply Hnotin. apply (in_map fst) in Hin. exact Hin.
  - apply IH, Hnd'.
Qed.

Lemma sweep_sessions_get (now : Z) (st : State) (sid : string) :
  NoDup (dict_keys (userSessions st)) ->
  dict_get sid (userSessions (sweep_sessions now st)) =
  match dict_get sid (userSessions st) with
  | Some s => if stale now s then None else Some s
  | None => None
  end.
Proof.
  intros Hnd. unfold sweep_sessions.
  change (fold_left (sweep_session now) (userSessions st) st)
    with (sessions_swept now (userSessions st) st).
  rewrite sessions_swept_get, (existsb_stale_get now _ sid Hnd).
  destruct (dict_get sid (userSessions st)) as [s|]; [|reflexivity].
  destruct (stale now s); reflexivity.
Qed.

Lemma sessions_swept_files (now : Z) (entries : list (string * Session)) (st : State) :
  fileDatabase (sessions_swept now entries st) = fileDatabase st
  /\ uploads (sessions_swept now entries st) = uploads st.
Proof.
  revert st. induction entries as [|[k s] es IH]; intros st; [split; reflexivity|].
  change (sessions_swept now ((k, s) :: es) st)
    with (sessions_swept now es (sweep_session now st (k, s))).
  destruct (IH (sweep_session now st (k, s))) as [-> ->].
  unfold sweep_session. destruct (stale now s); split; reflexivity.
Qed.

Lemma sweep_fileDatabase (io : FsFaults) (now : Z) (st : State) :
  fileDatabase (sweep io now st)
  = fileDatabase (sweep_entries io now (fileDatabase st) st).
Proof.
  unfold sweep, sweep_sessions.
  exact (proj1 (sessions_swept_files now _ (sweep_files io now st))).
Qed.

(** A record that has not expired passes one round of the sweep, with its
    place in the list of a session. *)
Lemma sweep_file_spares (io : FsFaults) (now : Z) (st : State)
  (e : string * FileRecord) (k : string) (m : FileRecord) :
  (fst e = k -> (now <= expiryTime (snd e))%Z) ->
  dict_get k (fileDatabase st) = Some m ->
  dict_get k (fileDatabase (sweep_file io now st e)) = Some m
  /\ forall sid s,
       dict_get sid (userSessions st) = Some s -> In k (files s) ->
       exists s', dict_get sid (userSessions (sweep_file io now st e)) = Some s'
                  /\ In k (files s') /\ created s' = created s.
Proof.
  destruct e as [k' m']. cbn [fst snd]. intros Hk Hm. rewrite sweep_file_eq.
  destruct ((now >? expiryTime m')%Z && _) eqn:E.
  - apply andb_prop in E. destruct E as [E _].
    assert (Hne : k <> k').
    { intros <-. specialize (Hk eq_refl). apply Z.gtb_lt in E. lia. }
    cbn [fileDatabase userSessions]. split.
    + rewrite dict_get_delete_other by exact Hne. exact Hm.
    + intros sid s Hs Hin. rewrite detach_get, Hs.
      destruct (truthy (sessionId m') && String.eqb sid (sessionId m')).
      * exists (detached k' s). split; [reflexivity|]. split; [|reflexivity].
        apply in_without. split; assumption.
      * exists s. repeat split; assumption.
  - split; [exact Hm|]. intros sid s Hs Hin. exists s. repeat split; assumption.
Qed.

Lemma sweep_entries_spares (io : FsFaults) (now : Z)
  (entries : list (string * FileRecord)) (k : string) (m : FileRecord) :
  (forall m', In (k, m') entries -> (now <= expiryTime m')%Z) ->
  forall st,
    dict_get k (fileDatabase st) = Some m ->
    dict_get k (fileDatabase (sweep_entries io now entries st)) = Some m
    /\ forall sid s,
         dict_get sid (userSessions st) = Some s -> In k (files s) ->
         exists s', dict_get sid (userSessions (sweep_entries io now entries st))
                    = Some s'
                    /\ In k (files s') /\ created s' = created s.
Proof.
  induction entries as [|e entries IH]; intros Hn st Hm.
  - split; [exact Hm|]. intros sid s Hs Hin. exists s. repeat split; assumption.
  - change (sweep_entries io now (e :: entries) st)
      with (sweep_entries io now entries (sweep_file io now st e)).
    assert (He : fst e = k -> (now <= expiryTime (snd e))%Z).
    { intros <-. apply Hn. left. destruct e; reflexivity. }
    destruct (sweep_file_spares io now st e k m He Hm) as [Hm1 Hs1].
    destruct (IH (fun m' H => Hn m' (or_intror H)) _ Hm1) as [Hm2 Hs2].
    split; [exact Hm2|]. intros sid s Hs Hin.
    destruct (Hs1 sid s Hs Hin) as [s1 [Hs1' [Hin1 Hc1]]].
    destruct (Hs2 sid s1 Hs1' Hin1) as [s2 [Hs2' [Hin2 Hc2]]].
    exists s2. repeat split; [assumption | assumption | congruence].
Qed.

(** What one round of the file sweep does to the list of a session: it
    takes off at most the identifier of the entry, and only when the entry
    has expired and names the session as owner. *)
Lemma sweep_file_loses (io : FsFaults) (now : Z) (st : State)
  (e : string * FileRecord) (sid : string) (s : Session) :
  dict_get sid (userSessions st) = Some s ->
  exists s', dict_get sid (userSessions (sweep_file io now st e)) = Some s'
             /\ created s' = created s
             /\ (forall x, In x (files s') -> In x (files s))
             /\ (forall x, In x (files s) ->
                   In x (files s')
                   \/ (x = fst e /\ (now > expiryTime (snd e))%Z
                       /\ sessionId (snd e) = sid)).
Proof.
  intros Hs. destruct e as [fileId m]. cbn [fst snd]. rewrite sweep_file_eq.
  destruct ((now >? expiryTime m)%Z && _) eqn:E.
  - apply andb_prop in E. destruct E as [E _]. apply Z.gtb_lt in E.
    cbn [userSessions]. rewrite detach_get, Hs.
    destruct (truthy (sessionId m) && String.eqb sid (sessionId m)) eqn:O; simpl.
    + apply andb_prop in O. destruct O as [_ O]. apply String.eqb_eq in O.
      eexists. split; [reflexivity|]. split; [reflexivity|]. simpl. split.
      * intros x Hx. apply in_without in Hx. tauto.
      * intros x Hx. destruct (String.eqb_spec x fileId) as [->|Hne].
        -- right. split; [reflexivity|]. split; [lia | congruence].
        -- left. apply in_without. split; assumption.
    + exists s. split; [reflexivity|]. split; [reflexivity|]. split; tauto.
  - exists s. split; [exact Hs|]. split; [reflexivity|]. split; tauto.
Qed.

Lemma sweep_entries_loses (io : FsFaults) (now : Z)
  (entries : list (string * FileRecord)) (st : State) (sid : string) (s : Session) :
  dict_get sid (userSessions st) = Some s ->
  exists s', dict_get sid (userSessions (sweep_entries io now entries st)) = Some s'
             /\ created s' = created s
             /\ (forall x, In x (files s') -> In x (files s))
             /\ (forall x, In x (files s) ->
                   In x (files s')
                   \/ exists m, In (x, m) entries /\ (now > expiryTime m)%Z
                                /\ sessionId m = sid).
Proof.
  revert st s. induction entries as [|e es IH]; intros st s Hs.
  - exists s. split; [exact Hs|]. split; [reflexivity|]. split; tauto.
  - change (sweep_entries io now (e :: es) st)
      with (sweep_entries io now es (sweep_file io now st e)).
    destruct (sweep_file_loses io now st e sid s Hs) as [s1 [H1 [Hc1 [Hsub1 Hl1]]]].
    destruct (IH _ _ H1) as [s2 [H2 [Hc2 [Hsub2 Hl2]]]].
    exists s2. split; [exact H2|]. split; [congruence|]. split; [auto|].
    intros x Hx. destruct (Hl1 x Hx) as [Hin|[Hx1 [Hexp Hown]]].
    + destruct (Hl2 x Hin) as [Hin2|[m [Hm [Hexp Hown]]]]; [left; exact Hin2|].
      right. exists m. split; [right; exact Hm | split; assumption].
    + right. exists (snd e). split; [|split; assumption].
      left. destruct e as [k m]. simpl in Hx1. subst x. reflexivity.
Qed.

Lemma sweep_entries_absent_session (io : FsFaults) (now : Z)
  (entries : list (string * FileRecord)) (st : State) (sid : string) :
  dict_get sid (userSessions st) = None ->
  dict_get sid (userSessions (sweep_entries io now entries st)) = None.
Proof.
  intros H.
  destruct (dict_get sid (userSessions (sweep_entries io now entries st)))
    as [s|] eqn:E; [|reflexivity].
  exfalso. apply (dict_get_None_keys _ _ H).
  rewrite <- (sweep_entries_session_keys io now entries st).
  apply dict_get_In in E. apply (in_map fst) in E. exact E.
Qed.

(** C9. Sweep order and staleness.  In one cycle the file sweep comes first.
    It removes every record whose expiry time has passed (and whose unlink is
    not refused) and takes it off the list of its owning session; it keeps
    every record that has not expired, it adds and removes no session, it
    leaves the creation time of a session alone, and the list of a session
    loses only identifiers of expired records that name the session as their
    owner.  The session sweep then runs on the sessions as the file sweep
    left them and removes exactly those older than 24 hours whose list is
    then empty: a session is gone after the cycle exactly when its age
    exceeds 24 hours and the file sweep left it no file.  So a session older
    than 24 hours whose files all expire in the cycle is removed in that
    same cycle.  (The keys of a JavaScript object are distinct.) *)
Theorem sweep_files_before_sessions (io : FsFaults) (now : Z) (st : State) :
  NoDup (dict_keys (fileDatabase st)) ->
  NoDup (dict_keys (userSessions st)) ->
  (forall fileId m,
     dict_get fileId (fileDatabase st) = Some m ->
     (now > expiryTime m)%Z ->
     unlink_fails io (filename m) = false ->
     dict_get fileId (fileDatabase (sweep io now st)) = None
     /\ (truthy (sessionId m) = true ->
         not_listed (sessionId m) fileId (sweep_files io now st)))
  /\ (forall fileId m,
        dict_get fileId (fileDatabase st) = Some m ->
        (now <= expiryTime m)%Z ->
        dict_get fileId (fileDatabase (sweep io now st)) = Some m)
  /\ (forall sid,
        dict_get sid (userSessions st) = None ->
        dict_get sid (userSessions (sweep_files io now st)) = None)
  /\ (forall sid s,
        dict_get sid (userSessions st) = Some s ->
        exists s',
          dict_get sid (userSessions (sweep_files io now st)) = Some s'
          /\ created s' = created s
          /\ (forall x, In x (files s') -> In x (files s))
          /\ (forall x, In x (files s) ->
                In x (files s')
                \/ exists m, dict_get x (fileDatabase st) = Some m
                             /\ (now > expiryTime m)%Z /\ sessionId m = sid)
          /\ dict_get sid (userSessions (sweep io now st))
             = if (now - created s >? SESSION_MAX_AGE)%Z
                  && Nat.eqb (length (files s')) 0
               then None else Some s')
  /\ (forall sid,
        dict_get sid (userSessions (sweep io now st)) =
        match dict_get sid (userSessions (sweep_files io now st)) with
        | Some s =>
            if (now - created s >? SESSION_MAX_AGE)%Z
               && Nat.eqb (length (files s)) 0
            then None else Some s
        | None => None
        end)
  /\ (forall sid s,
        dict_get sid (userSessions st) = Some s ->
        truthy sid = true ->
        (now - created s > SESSION_MAX_AGE)%Z ->
        (forall fileId, In fileId (files s) ->
           exists m, dict_get fileId (fileDatabase st) = Some m
                     /\ sessionId m = sid
                     /\ (now > expiryTime m)%Z
                     /\ unlink_fails io (filename m) = false) ->
        dict_get sid (userSessions (sweep io now st)) = None).
Proof.
  intros Hdb Hnd.
  assert (Hnd1 : NoDup (dict_keys (userSessions (sweep_files io now st)))).
  { unfold sweep_files.
    change (fold_left (sweep_file io now) (fileDatabase st) st)
      with (sweep_entries io now (fileDatabase st) st).
    rewrite sweep_entries_session_keys. exact Hnd. }
  assert (Hsessions : forall sid,
            dict_get sid (userSessions (sweep io now st)) =
            match dict_get sid (userSessions (sweep_files io now st)) with
            | Some s => if stale now s then None else Some s
            | None => None
            end).
  { intros sid. unfold sweep. apply sweep_sessions_get, Hnd1. }
  split; [|split; [|split; [|split; [|split]]]].
  - intros fileId m Hm Hexp Hio. split.
    + rewrite sweep_fileDatabase.
      apply (sweep_entries_removes io now _ st fileId m);
        [apply dict_get_In, Hm | exact Hexp | exact Hio].
    + intros Hsid.
      apply (sweep_entries_detaches io now _ st fileId m);
        [apply dict_get_In, Hm | exact Hexp | exact Hio | exact Hsid].
  - intros fileId m Hm Hnow. rewrite sweep_fileDatabase.
    apply (sweep_entries_spares io now _ fileId m); [|exact Hm].
    intros m' Hin. apply (dict_In_get _ _ _ Hdb) in Hin. congruence.
  - intros sid Hs. apply sweep_entries_absent_session, Hs.
  - intros sid s Hs.
    destruct (sweep_entries_loses io now (fileDatabase st) st sid s Hs)
      as [s' [Hs' [Hc [Hsub Hl]]]].
    change (sweep_entries io now (fileDatabase st) st)
      with (sweep_files io now st) in Hs'.
    exists s'. split; [exact Hs'|]. split; [exact Hc|]. split; [exact Hsub|]. split.
    + intros x Hx. destruct (Hl x Hx) as [Hin|[m [Hm [Hexp Hown]]]];
        [left; exact Hin|].
      right. exists m. split; [|split; assumption].
      apply (dict_In_get _ _ _ Hdb), Hm.
    + rewrite Hsessions, Hs'. unfold stale. rewrite Hc. reflexivity.
  - exact Hsessions.
  - intros sid s Hs Hsid Hage Hfiles. rewrite Hsessions.
    destruct (sweep_entries_session io now (fileDatabase st) st sid s Hs)
      as [s' [Hs' [Hcreated Hsub]]].
    change (sweep_entries io now (fileDatabase st) st)
      with (sweep_files io now st) in Hs'.
    rewrite Hs'.
    assert (Hempty : files s' = []).
    { assert (Hnone : forall x, ~ In x (files s')).
      { intros x Hx.
        destruct (Hfiles x (Hsub x Hx)) as [m [Hm [Hown [Hexp Hio]]]].
        subst sid.
        exact (sweep_entries_detaches io now _ st x m (dict_get_In _ _ _ Hm)
                 Hexp Hio Hsid s' Hs' Hx). }
      destruct (files s') as [|x xs]; [reflexivity|].
      exfalso. apply (Hnone x). left. reflexivity. }
    unfold stale. rewrite Hempty, Hcreated.
    assert (Hgt : (now - created s >? SESSION_MAX_AGE)%Z = true)
      by (apply Z.gtb_lt; lia).
    rewrite Hgt. reflexivity.
Qed.

(** ** Ownership: an invariant of the reachable states *)

(** Every identifier a session lists has a record, and that record names the
    session as its owner. *)
Definition owned (st : State) : Prop :=
  forall sid s fileId,
    dict_get sid (userSessions st) = Some s ->
    In fileId (files s) ->
    exists m, dict_get fileId (fileDatabase st) = Some m /\ sessionId m = sid.

Record Inv (st : State) : Prop := mkInv {
  inv_keys : NoDup (dict_keys (fileDatabase st));
  inv_named : dict_get EmptyString (userSessions st) = None;
  inv_owned : owned st
}.

Lemma truthy_neq (s : string) : truthy s = true <-> s <> EmptyString.
Proof.
  unfold truthy. rewrite negb_true_iff, String.eqb_neq. tauto.
Qed.

Lemma inv_session_named (st : State) (sid : string) (s : Session) :
  Inv st -> dict_get sid (userSessions st) = Some s -> truthy sid = true.
Proof.
  intros HI Hs. apply truthy_neq. intros ->.
  rewrite (inv_named st HI) in Hs. discriminate.
Qed.

Lemma ensure_session_known (token : option string) (freshId : string) (now : Z)
  (st : State) :
  let '(sid, _, st1) := ensure_session token freshId now st in
  dict_has sid (userSessions st1) = true.
Proof.
  unfold ensure_session.
  assert (Hnew : dict_has freshId (userSessions (createSession freshId now st)) = true)
    by (unfold dict_has, createSession; simpl; rewrite dict_get_set_same; reflexivity).
  destruct token as [sid|]; [|exact Hnew].
  destruct (truthy sid && dict_has sid (userSessions st)) eqn:E; [|exact Hnew].
  apply andb_true_iff in E. tauto.
Qed.

Lemma createSession_inv (newId : string) (now : Z) (st : State) :
  newId <> EmptyString -> Inv st -> Inv (createSession newId now st).
Proof.
  intros Hne [Hk Hn Ho]. constructor; simpl.
  - exact Hk.
  - rewrite dict_get_set_other by congruence. exact Hn.
  - intros sid s fileId Hs Hin. simpl in Hs.
    destruct (String.eqb_spec sid newId) as [->|Hd].
    + rewrite dict_get_set_same in Hs. injection Hs as <-. destruct Hin.
    + rewrite dict_get_set_other in Hs by exact Hd. exact (Ho _ _ _ Hs Hin).
Qed.

Lemma ensure_session_inv (token : option string) (freshId : string) (now : Z)
  (st : State) :
  freshId <> EmptyString -> Inv st ->
  Inv (snd (ensure_session token freshId now st)).
Proof.
  intros Hne HI. unfold ensure_session.
  destruct token as [sid|]; [|apply createSession_inv; assumption].
  destruct (truthy sid && dict_has sid (userSessions st)); simpl;
    [exact HI | apply createSession_inv; assumption].
Qed.

(** Removing a record and detaching it from the session it names. *)
Lemma remove_inv (st : State) (fileId sid0 : string) (disk : dict Buffer) :
  Inv st ->
  (forall m, dict_get fileId (fileDatabase st) = Some m -> sessionId m = sid0) ->
  Inv (mkState (dict_delete fileId (fileDatabase st))
               (detach sid0 fileId (userSessions st)) disk).
Proof.
  intros [Hk Hn Ho] Hsid. constructor; simpl.
  - apply dict_delete_NoDup, Hk.
  - rewrite detach_get.
    destruct (truthy sid0 && String.eqb EmptyString sid0) eqn:E; [|exact Hn].
    rewrite Hn. reflexivity.
  - intros sid s x Hs Hin. simpl in Hs. rewrite detach_get in Hs.
    assert (Hx : exists s0, dict_get sid (userSessions st) = Some s0
                            /\ In x (files s0) /\ x <> fileId).
    { destruct (truthy sid0 && String.eqb sid sid0) eqn:E.
      - destruct (dict_get sid (userSessions st)) as [s0|] eqn:E0; [|discriminate].
        simpl in Hs. injection Hs as <-. simpl in Hin.
        apply in_without in Hin. exists s0. tauto.
      - exists s. split; [exact Hs|]. split; [exact Hin|]. intros ->.
        destruct (Ho _ _ _ Hs Hin) as [m [Hm Hown]].
        specialize (Hsid m Hm). subst sid0.
        rewrite Hown, String.eqb_refl, andb_true_r in E.
        unfold truthy in E. apply negb_false_iff, String.eqb_eq in E.
        subst sid. rewrite Hn in Hs. discriminate. }
    destruct Hx as [s0 [Hs0 [Hin0 Hne]]].
    destruct (Ho _ _ _ Hs0 Hin0) as [m [Hm Hown]].
    exists m. split; [|exact Hown].
    simpl. rewrite dict_get_delete_other by exact Hne. exact Hm.
Qed.

Lemma inv_disk (st : State) (disk : dict Buffer) :
  Inv st -> Inv (mkState (fileDatabase st) (userSessions st) disk).
Proof. intros [Hk Hn Ho]. constructor; assumption. Qed.

Lemma download_inv (name : string) (st : State) :
  Inv st -> Inv (snd (download name st)).
Proof.
  intros HI. rewrite download_eq.
  destruct (dict_get name (uploads st)) as [data|]; [|exact HI].
  destruct (dict_get (file_id_of name) (fileDatabase st)) as [m|] eqn:Em; [|exact HI].
  destruct (checkInvalidHeaderChar (originalName m)); [exact HI|].
  destruct HI as [Hk Hn Ho]. constructor; simpl.
  - apply dict_set_NoDup, Hk.
  - exact Hn.
  - intros sid s x Hs Hin. destruct (Ho _ _ _ Hs Hin) as [mx [Hmx Hown]]. simpl.
    destruct (String.eqb_spec x (file_id_of name)) as [->|Hne].
    + rewrite dict_get_set_same. eexists. split; [reflexivity|]. simpl. congruence.
    + rewrite dict_get_set_other by exact Hne. eauto.
Qed.

Lemma download_finish_inv (io : FsFaults) (name : string) (st : State) :
  Inv st -> Inv (download_finish io name st).
Proof.
  intros HI. rewrite download_finish_eq.
  destruct (_ && _); [|exact HI].
  destruct (dict_get (file_id_of name) (fileDatabase st)) as [m|] eqn:Em.
  - apply remove_inv; [exact HI|]. intros m' Hm'. congruence.
  - apply inv_disk, HI.
Qed.

Lemma upload_end_inv (io : FsFaults) (sid : string) (ct : option string)
  (host : string) (buffer : Buffer) (fileId : string) (now : Z) (st : State) :
  dict_get fileId (fileDatabase st) = None ->
  Inv st ->
  Inv (snd (upload_end io sid ct host buffer fileId now st)).
Proof.
  intros Hfresh HI. unfold upload_end.
  destruct (boundaryMatch _) as [boundary|]; [|exact HI].
  destruct (fileName _) as [name|]; [|exact HI].
  destruct (fileContent _) as [content|]; [|exact HI].
  destruct (truthy name); [|exact HI].
  destruct (writeFileSync _ _ _ _) as [disk|]; [|exact HI].
  assert (Hother : forall s0 sid0 x, dict_get sid0 (userSessions st) = Some s0 ->
                     In x (files s0) -> x <> fileId).
  { intros s0 sid0 x Hs0 Hin ->.
    destruct (inv_owned st HI _ _ _ Hs0 Hin) as [m [Hm _]]. congruence. }
  destruct (dict_get sid (userSessions st)) as [s|] eqn:Es.
  - destruct HI as [Hk Hn Ho]. constructor; simpl.
    + apply dict_set_NoDup, Hk.
    + rewrite dict_get_set_other; [exact Hn|]. intros <-. congruence.
    + intros sid' s' x Hs' Hin. simpl in Hs'. simpl.
      destruct (String.eqb_spec sid' sid) as [->|Hne].
      * rewrite dict_get_set_same in Hs'. injection Hs' as <-. simpl in Hin.
        apply in_app_or in Hin. destruct Hin as [Hin|[<-|[]]].
        -- rewrite dict_get_set_other by (eapply Hother; eassumption).
           exact (Ho _ _ _ Es Hin).
        -- rewrite dict_get_set_same. eexists. split; reflexivity.
      * rewrite dict_get_set_other in Hs' by exact Hne.
        rewrite dict_get_set_other by (eapply Hother; eassumption).
        exact (Ho _ _ _ Hs' Hin).
  - destruct HI as [Hk Hn Ho]. constructor; simpl.
    + apply dict_set_NoDup, Hk.
    + exact Hn.
    + intros sid' s' x Hs' Hin. simpl in Hs'. simpl.
      rewrite dict_get_set_other by (eapply Hother; eassumption).
      exact (Ho _ _ _ Hs' Hin).
Qed.

(** *** Session reset *)

Lemma reset_file_sessions (io : FsFaults) (st : State) (fileId : string) :
  userSessions (reset_file io st fileId) = userSessions st.
Proof.
  rewrite reset_file_eq. destruct (dict_get fileId (fileDatabase st)); [|reflexivity].
  destruct (unlink_goes_through _ _ _); reflexivity.
Qed.

Lemma reset_file_keys (io : FsFaults) (st : State) (fileId : string) :
  NoDup (dict_keys (fileDatabase st)) ->
  NoDup (dict_keys (fileDatabase (reset_file io st fileId))).
Proof.
  intros H. rewrite reset_file_eq.
  destruct (dict_get fileId (fileDatabase st)); [|exact H].
  destruct (unlink_goes_through _ _ _); [|exact H].
  apply dict_delete_NoDup, H.
Qed.

Lemma reset_file_get_other (io : FsFaults) (st : State) (fileId x : string) :
  x <> fileId ->
  dict_get x (fileDatabase (reset_file io st fileId)) = dict_get x (fileDatabase st).
Proof.
  intros Hne. rewrite reset_file_eq.
  destruct (dict_get fileId (fileDatabase st)); [|reflexivity].
  destruct (unlink_goes_through _ _ _); [|reflexivity].
  apply dict_get_delete_other, Hne.
Qed.

Lemma reset_files_facts (io : FsFaults) (ids : list string) (st : State) :
  NoDup (dict_keys (fileDatabase st)) ->
  userSessions (fold_left (reset_file io) ids st) = userSessions st
  /\ NoDup (dict_keys (fileDatabase (fold_left (reset_file io) ids st)))
  /\ forall x, ~ In x ids ->
       dict_get x (fileDatabase (fold_left (reset_file io) ids st))
       = dict_get x (fileDatabase st).
Proof.
  revert st. induction ids as [|id ids IH]; intros st Hk; simpl.
  - split; [reflexivity|]. split; [exact Hk|]. reflexivity.
  - destruct (IH (reset_file io st id) (reset_file_keys io st id Hk))
      as [Hs [Hk' Hget]].
    split; [rewrite Hs; apply reset_file_sessions|].
    split; [exact Hk'|].
    intros x Hx. rewrite Hget by tauto.
    apply reset_file_get_other. intros ->. tauto.
Qed.

Lemma reset_session_inv (io : FsFaults) (sid newId : string) (now : Z) (st : State) :
  newId <> EmptyString -> Inv st ->
  Inv (snd (reset_session io sid newId now st)).
Proof.
  intros Hne HI. unfold reset_session. simpl snd.
  apply createSession_inv; [exact Hne|].
  destruct (dict_get sid (userSessions st)) as [s|] eqn:Es; [|exact HI].
  destruct HI as [Hk Hn Ho].
  destruct (reset_files_facts io (files s) st Hk) as [Hs [Hk' Hget]].
  constructor; simpl.
  - exact Hk'.
  - rewrite Hs. apply dict_get_delete_none, Hn.
  - intros sid' s' x Hs' Hin. simpl in Hs'. rewrite Hs in Hs'. simpl.
    destruct (String.eqb_spec sid' sid) as [->|Hd].
    + rewrite dict_get_delete_same in Hs'. discriminate.
    + rewrite dict_get_delete_other in Hs' by exact Hd.
      destruct (Ho _ _ _ Hs' Hin) as [m [Hm Hown]].
      exists m. split; [|exact Hown]. rewrite Hget; [exact Hm|].
      intros Hx. destruct (Ho _ _ _ Es Hx) as [m' [Hm' Hown']]. congruence.
Qed.

(** *** The sweep *)

Lemma sweep_file_get_some (io : FsFaults) (now : Z) (st : State)
  (e : string * FileRecord) (k : string) (m : FileRecord) :
  dict_get k (fileDatabase (sweep_file io now st e)) = Some m ->
  dict_get k (fileDatabase st) = Some m.
Proof.
  intros H. destruct (dict_get k (fileDatabase st)) as [m0|] eqn:E.
  - destruct e as [fileId m']. rewrite sweep_file_eq in H.
    destruct (_ && _); [|congruence]. simpl in H.
    destruct (String.eqb_spec k fileId) as [->|Hne].
    + rewrite dict_get_delete_same in H. discriminate.
    + rewrite dict_get_delete_other in H by exact Hne. congruence.
  - rewrite (sweep_file_get_none io now st e k E) in H. discriminate.
Qed.

(** The entries still to be swept agree with the records still present. *)
Definition snapshot_of (entries : list (string * FileRecord)) (st : State) : Prop :=
  forall k m m', In (k, m) entries ->
    dict_get k (fileDatabase st) = Some m' -> m' = m.

Lemma sweep_file_inv (io : FsFaults) (now : Z) (st : State) (k : string)
  (m : FileRecord) :
  (forall m', dict_get k (fileDatabase st) = Some m' -> m' = m) ->
  Inv st -> Inv (sweep_file io now st (k, m)).
Proof.
  intros Hsnap HI. rewrite sweep_file_eq. destruct (_ && _); [|exact HI].
  apply remove_inv; [exact HI|]. intros m' Hm'.
  rewrite (Hsnap m' Hm'). reflexivity.
Qed.

Lemma sweep_entries_inv (io : FsFaults) (now : Z)
  (entries : list (string * FileRecord)) (st : State) :
  snapshot_of entries st -> Inv st -> Inv (sweep_entries io now entries st).
Proof.
  revert st. induction entries as [|[k m] es IH]; intros st Hsnap HI; [exact HI|].
  change (sweep_entries io now ((k, m) :: es) st)
    with (sweep_entries io now es (sweep_file io now st (k, m))).
  apply IH.
  - intros k' m1 m2 Hin Hget.
    apply (Hsnap k' m1 m2); [right; exact Hin|].
    eapply sweep_file_get_some, Hget.
  - apply sweep_file_inv; [|exact HI].
    intros m' Hm'. apply (Hsnap k m m'); [left; reflexivity | exact Hm'].
Qed.

Lemma sessions_swept_inv (now : Z) (entries : list (string * Session)) (st : State) :
  Inv st -> Inv (sessions_swept now entries st).
Proof.
  intros [Hk Hn Ho].
  destruct (sessions_swept_files now entries st) as [Hdb _].
  constructor.
  - rewrite Hdb. exact Hk.
  - rewrite sessions_swept_get. destruct (existsb _ _); [reflexivity | exact Hn].
  - intros sid s x Hs Hin. rewrite sessions_swept_get in Hs. rewrite Hdb.
    destruct (existsb _ _); [discriminate|]. exact (Ho _ _ _ Hs Hin).
Qed.

Lemma sweep_inv (io : FsFaults) (now : Z) (st : State) :
  Inv st -> Inv (sweep io now st).
Proof.
  intros HI. unfold sweep, sweep_sessions.
  change (fold_left (sweep_session now) ?l ?s) with (sessions_swept now l s).
  apply sessions_swept_inv. unfold sweep_files.
  change (fold_left (sweep_file io now) ?l ?s) with (sweep_entries io now l s).
  apply sweep_entries_inv; [|exact HI].
  intros k m m' Hin Hget.
  rewrite (dict_In_get k m _ (inv_keys st HI) Hin) in Hget. congruence.
Qed.

(** *** Every event preserves the invariant *)

Lemma handle_request_inv (token : option string) (freshId : string) (now : Z)
  (host : string) (route : Route) (st : State) :
  admissible (Request token freshId now host route) st ->
  Inv st -> Inv (snd (handle_request token freshId now host route st)).
Proof.
  intros [Hfresh Hroute] HI. unfold handle_request.
  pose proof (ensure_session_inv token freshId now st Hfresh HI) as H1.
  destruct (ensure_session token freshId now st) as [[sid issued] st1].
  simpl in H1. destruct route as [| |io newId|name].
  - destruct (dict_get sid (userSessions st1)); exact H1.
  - exact H1.
  - pose proof (reset_session_inv io sid newId now st1 Hroute H1) as H2.
    destruct (reset_session io sid newId now st1) as [r st2]. exact H2.
  - pose proof (download_inv name st1 H1) as H2.
    destruct (download name st1) as [r st2]. exact H2.
Qed.

Lemma run_inv (ev : Event) (st : State) :
  admissible ev st -> Inv st -> Inv (snd (run ev st)).
Proof.
  intros Hadm HI. destruct ev as [token freshId now host route
                                 |io sid ct host buffer fileId now
                                 |io name
                                 |io now]; simpl.
  - apply handle_request_inv; assumption.
  - pose proof (upload_end_inv io sid ct host buffer fileId now st Hadm HI) as H.
    destruct (upload_end io sid ct host buffer fileId now st) as [r st']. exact H.
  - apply download_finish_inv, HI.
  - apply sweep_inv, HI.
Qed.

Lemma reachable_inv (st : State) : reachable st -> Inv st.
Proof.
  induction 1 as [disk|ev st _ IH Hadm].
  - constructor; simpl; [constructor | reflexivity |].
    intros sid s x Hs. discriminate.
  - apply run_inv; assumption.
Qed.

Lemma sessionFiles_In (host : string) (db : dict FileRecord) (ids : list string)
  (e : FileInfo) :
  In e (sessionFiles host db ids) ->
  In (info_id e) ids /\
  exists m, dict_get (info_id e) db = Some m
            /\ e = mkFileInfo (info_id e) (originalName m) (size m)
                     (uploadTime m) (expiryTime m) (downloadLink host (filename m)).
Proof.
  induction ids as [|id ids IH]; simpl; [tauto|].
  destruct (dict_get id db) as [m|] eqn:E.
  - intros [<-|Hin].
    + simpl. split; [left; reflexivity|]. exists m. split; [exact E | reflexivity].
    + destruct (IH Hin) as [H1 H2]. split; [right; exact H1 | exact H2].
  - intros Hin. destruct (IH Hin) as [H1 H2]. split; [right; exact H1 | exact H2].
Qed.

(** C3. Session isolation: in every state reachable from the empty stores
    (by requests, ends of uploads and of downloads, and sweeps, in any
    order, with file identifiers that are not in use when generated), the
    request GET /api/files presenting the token of a known session [A] is
    answered with a list whose every entry is a record of the store uploaded
    under [A]; no entry was uploaded under another session [B]. *)
Theorem session_listing_isolated (st : State) (A B : string) (sA : Session)
  (freshId host : string) (now : Z) :
  reachable st ->
  dict_get A (userSessions st) = Some sA ->
  A <> B ->
  run (Request (Some A) freshId now host GetFiles) st
  = (mkOutcome None
       (Some (sendResponse 200
                (JsonFiles (sessionFiles host (fileDatabase st) (files sA))))),
     st)
  /\ forall e, In e (sessionFiles host (fileDatabase st) (files sA)) ->
       exists m, dict_get (info_id e) (fileDatabase st) = Some m
                 /\ sessionId m = A /\ sessionId m <> B.
Proof.
  intros Hreach HA Hne. pose proof (reachable_inv st Hreach) as HI.
  split.
  - simpl. unfold handle_request, ensure_session.
    rewrite (inv_session_named st A sA HI HA).
    unfold dict_has. rewrite HA. simpl. rewrite HA. reflexivity.
  - intros e He. apply sessionFiles_In in He. destruct He as [Hin [m [Hm _]]].
    destruct (inv_owned st HI A sA (info_id e) HA Hin) as [m' [Hm' Hown]].
    exists m. split; [exact Hm|]. split; congruence.
Qed.

(** ** The [downloaded] flag is never read *)

Lemma forget_db_get (k : string) (db : dict FileRecord) :
  dict_get k (forget_db db) = option_map forget (dict_get k db).
Proof.
  induction db as [|[k' m] db IH]; simpl; [reflexivity|].
  destruct (String.eqb k k'); [reflexivity | exact IH].
Qed.

Lemma forget_db_set (k : string) (m : FileRecord) (db : dict FileRecord) :
  forget_db (dict_set k m db) = dict_set k (forget m) (forget_db db).
Proof.
  induction db as [|[k' m'] db IH]; simpl; [reflexivity|].
  destruct (String.eqb k k'); simpl; [reflexivity|]. rewrite IH. reflexivity.
Qed.

Lemma forget_db_delete (k : string) (db : dict FileRecord) :
  forget_db (dict_delete k db) = dict_delete k (forget_db db).
Proof.
  induction db as [|[k' m'] db IH]; simpl; [reflexivity|].
  destruct (String.eqb k k'); simpl; [exact IH|]. rewrite IH. reflexivity.
Qed.

(** Two lookups in stores equal up to flags. *)
Inductive same_lookup : option FileRecord -> option FileRecord -> Prop :=
| same_absent : same_lookup None None
| same_present m1 m2 : forget m1 = forget m2 -> same_lookup (Some m1) (Some m2).

Lemma same_db_get (k : string) (db1 db2 : dict FileRecord) :
  forget_db db1 = forget_db db2 ->
  same_lookup (dict_get k db1) (dict_get k db2).
Proof.
  intros H. apply (f_equal (dict_get k)) in H. rewrite !forget_db_get in H.
  destruct (dict_get k db1), (dict_get k db2); simpl in H;
    try discriminate; constructor. congruence.
Qed.

Lemma forget_fields (m1 m2 : FileRecord) :
  forget m1 = forget m2 ->
  originalName m1 = originalName m2 /\ filename m1 = filename m2
  /\ size m1 = size m2 /\ uploadTime m1 = uploadTime m2
  /\ expiryTime m1 = expiryTime m2 /\ sessionId m1 = sessionId m2.
Proof.
  destruct m1, m2. unfold forget. simpl. intros H. injection H. intros.
  repeat split; assumption.
Qed.

Lemma same_db_entries (db1 db2 : dict FileRecord) :
  forget_db db1 = forget_db db2 ->
  Forall2 (fun e1 e2 => fst e1 = fst e2 /\ forget (snd e1) = forget (snd e2))
    db1 db2.
Proof.
  revert db2. induction db1 as [|[k1 m1] db1 IH]; intros [|[k2 m2] db2] H;
    try discriminate; [constructor|].
  change ((k1, forget m1) :: forget_db db1 = (k2, forget m2) :: forget_db db2) in H.
  remember (forget m1) as f1 eqn:E1. remember (forget m2) as f2 eqn:E2.
  injection H as Hk Hm Ht. subst f1 f2. constructor.
  - simpl. split; assumption.
  - apply IH, Ht.
Qed.

Lemma same_sessionFiles (host : string) (db1 db2 : dict FileRecord)
  (ids : list string) :
  forget_db db1 = forget_db db2 ->
  sessionFiles host db1 ids = sessionFiles host db2 ids.
Proof.
  intros H. induction ids as [|id ids IH]; simpl; [reflexivity|].
  destruct (same_db_get id db1 db2 H) as [|m1 m2 Hm]; [exact IH|].
  destruct (forget_fields m1 m2 Hm) as [-> [-> [-> [-> [-> _]]]]].
  rewrite IH. reflexivity.
Qed.

Lemma same_createSession (newId : string) (now : Z) (st1 st2 : State) :
  same_but_flags st1 st2 ->
  same_but_flags (createSession newId now st1) (createSession newId now st2).
Proof.
  intros [Hdb [Hs Hd]]. unfold createSession. repeat split; simpl;
    [exact Hdb | rewrite Hs; reflexivity | exact Hd].
Qed.

Lemma same_ensure_session (token : option string) (freshId : string) (now : Z)
  (st1 st2 : State) :
  same_but_flags st1 st2 ->
  fst (ensure_session token freshId now st1) = fst (ensure_session token freshId now st2)
  /\ same_but_flags (snd (ensure_session token freshId now st1))
                    (snd (ensure_session token freshId now st2)).
Proof.
  intros H. pose proof H as [_ [Hs _]]. unfold ensure_session. rewrite Hs.
  destruct token as [sid|].
  - destruct (truthy sid && dict_has sid (userSessions st2)); simpl.
    + split; [reflexivity | exact H].
    + split; [reflexivity | apply same_createSession, H].
  - simpl. split; [reflexivity | apply same_createSession, H].
Qed.

Lemma same_upload_end (io : FsFaults) (sid : string) (ct : option string)
  (host : string) (buffer : Buffer) (fileId : string) (now : Z) (st1 st2 : State) :
  same_but_flags st1 st2 ->
  fst (upload_end io sid ct host buffer fileId now st1)
  = fst (upload_end io sid ct host buffer fileId now st2)
  /\ same_but_flags (snd (upload_end io sid ct host buffer fileId now st1))
                    (snd (upload_end io sid ct host buffer fileId now st2)).
Proof.
  intros H. pose proof H as [Hdb [Hs Hd]]. unfold upload_end. rewrite Hs, Hd.
  destruct (boundaryMatch _) as [boundary|]; [|split; [reflexivity | exact H]].
  destruct (fileName _) as [name|]; [|split; [reflexivity | exact H]].
  destruct (fileContent _) as [content|]; [|split; [reflexivity | exact H]].
  destruct (truthy name); [|split; [reflexivity | exact H]].
  destruct (writeFileSync _ _ _ _) as [disk|]; [|split; [reflexivity | exact H]].
  destruct (dict_get sid (userSessions st2)) as [s|]; simpl;
    (split; [reflexivity|]); repeat split; simpl; try reflexivity;
    rewrite !forget_db_set, Hdb; reflexivity.
Qed.

Lemma same_reset_file (io : FsFaults) (fileId : string) (st1 st2 : State) :
  same_but_flags st1 st2 ->
  same_but_flags (reset_file io st1 fileId) (reset_file io st2 fileId).
Proof.
  intros H. pose proof H as [Hdb [Hs Hd]]. rewrite !reset_file_eq.
  destruct (same_db_get fileId _ _ Hdb) as [|m1 m2 Hm]; [exact H|].
  destruct (forget_fields m1 m2 Hm) as [_ [-> _]]. rewrite Hd.
  destruct (unlink_goes_through _ _ _); [|exact H].
  split; [|split]; simpl; [|exact Hs|reflexivity].
  rewrite !forget_db_delete, Hdb. reflexivity.
Qed.

Lemma same_reset_files (io : FsFaults) (ids : list string) (st1 st2 : State) :
  same_but_flags st1 st2 ->
  same_but_flags (fold_left (reset_file io) ids st1)
                 (fold_left (reset_file io) ids st2).
Proof.
  revert st1 st2. induction ids as [|id ids IH]; intros st1 st2 H; [exact H|].
  simpl. apply IH, same_reset_file, H.
Qed.

Lemma same_reset_session (io : FsFaults) (sid newId : string) (now : Z)
  (st1 st2 : State) :
  same_but_flags st1 st2 ->
  fst (reset_session io sid newId now st1) = fst (reset_session io sid newId now st2)
  /\ same_but_flags (snd (reset_session io sid newId now st1))
                    (snd (reset_session io sid newId now st2)).
Proof.
  intros H. pose proof H as [Hdb [Hs Hd]]. unfold reset_session.
  split; [reflexivity|]. simpl snd. apply same_createSession. rewrite Hs.
  destruct (dict_get sid (userSessions st2)) as [s|]; [|exact H].
  destruct (same_reset_files io (files s) st1 st2 H) as [Hdb' [Hs' Hd']].
  split; [|split]; simpl; [exact Hdb' | rewrite Hs'; reflexivity | exact Hd'].
Qed.

Lemma same_download (name : string) (st1 st2 : State) :
  same_but_flags st1 st2 ->
  fst (download name st1) = fst (download name st2)
  /\ same_but_flags (snd (download name st1)) (snd (download name st2)).
Proof.
  intros H. pose proof H as [Hdb [Hs Hd]]. rewrite !download_eq. rewrite Hd.
  destruct (dict_get name (uploads st2)) as [data|];
    [|split; [reflexivity | exact H]].
  destruct (same_db_get (file_id_of name) _ _ Hdb) as [|m1 m2 Hm];
    [split; [reflexivity | exact H]|].
  destruct (forget_fields m1 m2 Hm) as [Ho [Hf [Hz [Hu [He Hi]]]]].
  rewrite Ho.
  destruct (checkInvalidHeaderChar (originalName m2));
    [split; [reflexivity | exact H]|].
  simpl. rewrite Hf, Hz, Hu, He, Hi. split; [reflexivity|].
  split; [|split]; simpl; [|exact Hs|reflexivity].
  rewrite !forget_db_set, Hdb. reflexivity.
Qed.

Lemma same_download_finish (io : FsFaults) (name : string) (st1 st2 : State) :
  same_but_flags st1 st2 ->
  same_but_flags (download_finish io name st1) (download_finish io name st2).
Proof.
  intros H. pose proof H as [Hdb [Hs Hd]]. rewrite !download_finish_eq, Hd.
  destruct (_ && _); [|exact H].
  destruct (same_db_get (file_id_of name) _ _ Hdb) as [|m1 m2 Hm].
  - split; [|split]; simpl; [exact Hdb | exact Hs | reflexivity].
  - destruct (forget_fields m1 m2 Hm) as [_ [_ [_ [_ [_ Hi]]]]].
    split; [|split]; simpl.
    + rewrite !forget_db_delete, Hdb. reflexivity.
    + rewrite Hi, Hs. reflexivity.
    + reflexivity.
Qed.

Lemma same_sweep_file (io : FsFaults) (now : Z) (st1 st2 : State) (k : string)
  (m1 m2 : FileRecord) :
  same_but_flags st1 st2 -> forget m1 = forget m2 ->
  same_but_flags (sweep_file io now st1 (k, m1)) (sweep_file io now st2 (k, m2)).
Proof.
  intros H Hm. pose proof H as [Hdb [Hs Hd]]. rewrite !sweep_file_eq.
  destruct (forget_fields m1 m2 Hm) as [_ [Hf [_ [_ [He Hi]]]]].
  rewrite Hf, He, Hi, Hd.
  destruct (_ && _); [|exact H].
  split; [|split]; simpl.
  - rewrite !forget_db_delete, Hdb. reflexivity.
  - rewrite Hs. reflexivity.
  - reflexivity.
Qed.

Lemma same_sweep_entries (io : FsFaults) (now : Z)
  (es1 es2 : list (string * FileRecord)) :
  Forall2 (fun e1 e2 => fst e1 = fst e2 /\ forget (snd e1) = forget (snd e2))
    es1 es2 ->
  forall st1 st2, same_but_flags st1 st2 ->
  same_but_flags (sweep_entries io now es1 st1) (sweep_entries io now es2 st2).
Proof.
  induction 1 as [|[k1 m1] [k2 m2] es1 es2 [Hk Hm] _ IH]; intros st1 st2 H;
    [exact H|].
  simpl in Hk, Hm. subst k2.
  change (sweep_entries io now ((k1, m1) :: es1) st1)
    with (sweep_entries io now es1 (sweep_file io now st1 (k1, m1))).
  change (sweep_entries io now ((k1, m2) :: es2) st2)
    with (sweep_entries io now es2 (sweep_file io now st2 (k1, m2))).
  apply IH, same_sweep_file; assumption.
Qed.

Lemma same_sessions_swept (now : Z) (entries : list (string * Session))
  (st1 st2 : State) :
  same_but_flags st1 st2 ->
  same_but_flags (sessions_swept now entries st1) (sessions_swept now entries st2).
Proof.
  revert st1 st2. induction entries as [|[k s] es IH]; intros st1 st2 H; [exact H|].
  change (sessions_swept now ((k, s) :: es) ?st)
    with (sessions_swept now es (sweep_session now st (k, s))).
  apply IH. destruct H as [Hdb [Hs Hd]]. unfold sweep_session.
  destruct (stale now s); (split; [|split]); simpl; try assumption.
  rewrite Hs. reflexivity.
Qed.

Lemma same_sweep (io : FsFaults) (now : Z) (st1 st2 : State) :
  same_but_flags st1 st2 ->
  same_but_flags (sweep io now st1) (sweep io now st2).
Proof.
  intros H. unfold sweep, sweep_sessions, sweep_files.
  change (fold_left (sweep_file io now) ?l ?s) with (sweep_entries io now l s).
  change (fold_left (sweep_session now) ?l ?s) with (sessions_swept now l s).
  pose proof (same_sweep_entries io now _ _ (same_db_entries _ _ (proj1 H))
                st1 st2 H) as H1.
  destruct H1 as [Hdb1 [Hs1 Hd1]]. rewrite Hs1.
  apply same_sessions_swept. split; [|split]; assumption.
Qed.

(** The two writes of the flag. *)
Lemma upload_writes_flag (io : FsFaults) (sid : string) (ct : option string)
  (host : string) (buffer : Buffer) (fileId : string) (now : Z) (st : State) :
  status (fst (upload_end io sid ct host buffer fileId now st)) = 200 ->
  exists m,
    dict_get fileId
      (fileDatabase (snd (upload_end io sid ct host buffer fileId now st))) = Some m
    /\ downloaded m = false.
Proof.
  unfold upload_end.
  destruct (boundaryMatch _) as [boundary|]; [|discriminate].
  destruct (fileName _) as [name|]; [|discriminate].
  destruct (fileContent _) as [content|]; [|discriminate].
  destruct (truthy name); [|discriminate].
  destruct (writeFileSync _ _ _ _) as [disk|]; [|discriminate].
  destruct (dict_get sid (userSessions st)) as [s|]; [|discriminate].
  intros _. simpl. rewrite dict_get_set_same. eexists. split; reflexivity.
Qed.

Lemma download_writes_flag (name : string) (st : State) :
  status (fst (download name st)) = 200 ->
  exists m,
    dict_get (file_id_of name) (fileDatabase (snd (download name st))) = Some m
    /\ downloaded m = true.
Proof.
  rewrite download_eq.
  destruct (dict_get name (uploads st)) as [data|]; [|discriminate].
  destruct (dict_get (file_id_of name) (fileDatabase st)) as [m|]; [|discriminate].
  destruct (checkInvalidHeaderChar (originalName m)); [discriminate|].
  intros _. simpl. rewrite dict_get_set_same. eexists. split; reflexivity.
Qed.

(** C10. The [downloaded] flag is written and never read.  It is written
    twice: the record an accepted upload stores carries the flag false, and
    the record of a download that is served carries the flag true from the
    moment the handler returns.  It is never read: two states that agree on
    everything but the flags give, for every event (requests for the file
    list, an upload, a download or a session reset, the end of an upload, the
    end of a download, the sweep), the same cookie and reply, and successor
    states that again agree on everything but the flags. *)
Theorem downloaded_flag_never_read (io : FsFaults) (sid : string)
  (ct : option string) (host : string) (buffer : Buffer) (fileId : string)
  (now : Z) (name : string) (st st' : State) (ev : Event) (st1 st2 : State) :
  same_but_flags st1 st2 ->
  (status (fst (upload_end io sid ct host buffer fileId now st)) = 200 ->
   exists m,
     dict_get fileId
       (fileDatabase (snd (upload_end io sid ct host buffer fileId now st)))
     = Some m
     /\ downloaded m = false)
  /\ (status (fst (download name st')) = 200 ->
      exists m,
        dict_get (file_id_of name) (fileDatabase (snd (download name st'))) = Some m
        /\ downloaded m = true)
  /\ fst (run ev st1) = fst (run ev st2)
  /\ same_but_flags (snd (run ev st1)) (snd (run ev st2)).
Proof.
  intros H.
  split; [apply upload_writes_flag|]. split; [apply download_writes_flag|].
  clear io sid ct host buffer fileId now name st st'.
  destruct ev as [token freshId now host route
                           |io sid ct host buffer fileId now
                           |io name
                           |io now]; simpl.
  - unfold handle_request.
    destruct (same_ensure_session token freshId now st1 st2 H) as [He1 He2].
    destruct (ensure_session token freshId now st1) as [[sid1 issued1] st1'].
    destruct (ensure_session token freshId now st2) as [[sid2 issued2] st2'].
    simpl in He1, He2. injection He1 as -> ->.
    pose proof He2 as [Hdb [Hs Hd]].
    destruct route as [| |io newId|name].
    + rewrite Hs. destruct (dict_get sid2 (userSessions st2')) as [s|]; simpl.
      * split; [|exact He2]. unfold api_files.
        rewrite (same_sessionFiles host _ _ (files s) Hdb). reflexivity.
      * split; [reflexivity | exact He2].
    + simpl. split; [reflexivity | exact He2].
    + destruct (same_reset_session io sid2 newId now st1' st2' He2) as [Hr1 Hr2].
      destruct (reset_session io sid2 newId now st1') as [r1 s1].
      destruct (reset_session io sid2 newId now st2') as [r2 s2].
      simpl in *. subst r2. split; [reflexivity | exact Hr2].
    + destruct (same_download name st1' st2' He2) as [Hr1 Hr2].
      destruct (download name st1') as [r1 s1].
      destruct (download name st2') as [r2 s2].
      simpl in *. subst r2. split; [reflexivity | exact Hr2].
  - destruct (same_upload_end io sid ct host buffer fileId now st1 st2 H)
      as [Hr1 Hr2].
    destruct (upload_end io sid ct host buffer fileId now st1) as [r1 s1].
    destruct (upload_end io sid ct host buffer fileId now st2) as [r2 s2].
    simpl in *. subst r2. split; [reflexivity | exact Hr2].
  - split; [reflexivity | apply same_download_finish, H].
  - split; [reflexivity | apply same_sweep, H].
Qed.

(** ** Instances on the sample requests and states *)

Lemma reachable_run_all (events : list Event) (st : State) :
  reachable st -> admissible_all events st -> reachable (run_all events st).
Proof.
  revert st. induction events as [|ev events IH]; intros st Hr Ha; [exact Hr|].
  destruct Ha as [Ha Hrest]. apply (IH (snd (run ev st))); [|exact Hrest].
  apply reachable_step; assumption.
Defined.

Lemma two_sessions_reachable : reachable two_sessions_state.
Proof.
  apply reachable_run_all; [apply reachable_start|].
  simpl. repeat split; try discriminate.
Defined.

Lemma sample_preamble_free : delimiter_free sample_delimiter [].
Proof. apply first_atb_sound. vm_compute. reflexivity. Defined.

Lemma sample_field_free : delimiter_free sample_delimiter sample_field.
Proof. apply first_atb_sound. vm_compute. reflexivity. Defined.

Lemma sample_head_block : header_block sample_head.
Proof. apply first_atb_sound. vm_compute. reflexivity. Defined.

Lemma sample_part_free :
  delimiter_free sample_delimiter (file_part sample_head sample_content).
Proof. apply first_atb_sound. vm_compute. reflexivity. Defined.

Lemma empty_part_free :
  delimiter_free sample_delimiter (file_part sample_head []).
Proof. apply first_atb_sound. vm_compute. reflexivity. Defined.


(** C4 on [empty_body]. *)
Lemma zero_byte_sample :
  parseMultipartFormData empty_body sample_boundary
  = mkParseResult (Some "a.txt") (Some [])
  /\ status (fst (upload_end no_faults "s1" (Some sample_content_type) "h"
                    empty_body sample_id 1000 sample_state)) = 200
  /\ (exists r,
        dict_get sample_id
          (fileDatabase (snd (upload_end no_faults "s1" (Some sample_content_type)
                                "h" empty_body sample_id 1000 sample_state)))
        = Some r /\ size r = 0 /\ originalName r = "a.txt"
        /\ filename r = String.append sample_id ".txt")
  /\ dict_get (String.append sample_id ".txt")
       (uploads (snd (upload_end no_faults "s1" (Some sample_content_type) "h"
                        empty_body sample_id 1000 sample_state)))
     = Some [].
Proof.
  apply (zero_byte_upload_accepted no_faults "s1" (mkSession 0 [])
           sample_content_type sample_boundary "h" [] [sample_field]
           sample_head (Buffer_from "--" ++ crlfBuffer) "a.txt" sample_id 1000
           sample_state).
  - reflexivity.
  - exact sample_preamble_free.
  - constructor; [exact sample_field_free | constructor].
  - constructor; [vm_compute; reflexivity | constructor].
  - exact empty_part_free.
  - exact sample_head_block.
  - vm_compute. reflexivity.
  - reflexivity.
  - reflexivity.
Defined.

(** C5 on a content type without boundary parameter. *)
Lemma missing_boundary_sample :
  upload_end no_faults "s1" (Some "multipart/form-data") "h" sample_body
    sample_id 1000 sample_state
  = (sendResponse 400 (JsonError "Invalid content type or missing boundary"),
     sample_state).
Proof.
  apply (missing_boundary_is_client_error no_faults "s1"
           (Some "multipart/form-data") "h" sample_body sample_id 1000 sample_state).
  reflexivity.
Defined.

(** C5 does not cover every header without a boundary parameter.  The
    pattern of the handler is not anchored at the start of a parameter name:
    in a header whose only parameter is xboundary it finds the text
    boundary= inside that name and reads XX, and the upload is accepted. *)
Lemma boundary_read_inside_other_parameter :
  boundaryMatch "multipart/form-data; xboundary=XX" = Some "XX"
  /\ fst (upload_end no_faults "s1" (Some "multipart/form-data; xboundary=XX") "h"
            sample_body sample_id 1000 sample_state)
     = sendResponse 200
         (JsonUploaded "File uploaded successfully" sample_id
            (downloadLink "h" (String.append sample_id ".txt"))
            (1000 + FILE_EXPIRY)).
Proof. vm_compute. repeat split. Qed.


(** C3 on [two_sessions_state]: the list of session sA against session sB. *)
Lemma isolation_sample :
  run (Request (Some "sA") "x" 30 "h" GetFiles) two_sessions_state
  = (mkOutcome None
       (Some (sendResponse 200
                (JsonFiles (sessionFiles "h" (fileDatabase two_sessions_state)
                              [id_a])))),
     two_sessions_state)
  /\ forall e, In e (sessionFiles "h" (fileDatabase two_sessions_state) [id_a]) ->
       exists m, dict_get (info_id e) (fileDatabase two_sessions_state) = Some m
                 /\ sessionId m = "sA" /\ sessionId m <> "sB".
Proof.
  apply (session_listing_isolated two_sessions_state "sA" "sB"
           (mkSession 0 [id_a]) "x" "h" 30).
  - exact two_sessions_reachable.
  - reflexivity.
  - discriminate.
Defined.

(** C6 on [two_files_body]: the second part is the first accepted one. *)
Lemma first_accepted_sample :
  parseMultipartFormData two_files_body sample_boundary
  = mkParseResult (Some "b.txt")
      (Some (slice named_part (65 + 4) (length named_part - 2))).
Proof.
  apply (first_accepted_part_only two_files_body sample_boundary
           [unnamed_part] named_part [] 65 "b.txt").
  - vm_compute. reflexivity.
  - constructor; [right; right; vm_compute; reflexivity | constructor].
  - vm_compute. reflexivity.
  - vm_compute. reflexivity.
  - vm_compute. reflexivity.
Defined.

(** C7 on [stored_state]: the identifier f1 is generated a second time. *)
Lemma replaced_record_sample :
  status (fst (upload_end no_faults "s1" (Some sample_content_type) "h"
                 sample_body "f1" 50 stored_state)) = 200
  /\ dict_get "f1"
       (fileDatabase (snd (upload_end no_faults "s1" (Some sample_content_type) "h"
                             sample_body "f1" 50 stored_state)))
     = Some (mkFileRecord "a.txt" (String.append "f1" (path_extname "a.txt"))
               (length sample_content) 50 (50 + FILE_EXPIRY) false "s1")
  /\ dict_get (String.append "f1" (path_extname "a.txt"))
       (uploads (snd (upload_end no_faults "s1" (Some sample_content_type) "h"
                        sample_body "f1" 50 stored_state)))
     = Some sample_content.
Proof.
  apply (upload_replaces_record no_faults "s1" (mkSession 0 ["f1"])
           sample_content_type sample_boundary "h" sample_body sample_content
           "a.txt" "f1" 50 stored_state stored_record).
  - reflexivity.
  - reflexivity.
  - vm_compute. reflexivity.
  - reflexivity.
  - reflexivity.
  - reflexivity.
Defined.

(** C8 on [stored_state], with a file system that lets the unlink through: the
    sweep at time 200 removes the record of f1. *)
Lemma removal_sample :
  dict_get "f1" (fileDatabase (sweep_files no_faults 200 stored_state)) = None.
Proof.
  refine (proj1 (proj2 (proj2
            (removal_follows_unlink no_faults 200 stored_state "f1" stored_record
               _ _))) _); reflexivity.
Defined.

(** C9 on [stored_state]: at a time past both the expiry of the file and the
    24 hours of the session, one cycle removes the file and then the session
    it emptied. *)
Lemma same_cycle_sample :
  dict_get "s1" (userSessions (sweep no_faults 100000000 stored_state)) = None.
Proof.
  refine (proj2 (proj2 (proj2 (proj2 (proj2
            (sweep_files_before_sessions no_faults 100000000 stored_state _ _)))))
            "s1" (mkSession 0 ["f1"]) _ _ _ _).
  - constructor; [simpl; tauto | constructor].
  - constructor; [simpl; tauto | constructor].
  - reflexivity.
  - reflexivity.
  - reflexivity.
  - intros fileId [<-|[]]. exists stored_record. repeat split.
Defined.

(** C10 on [stored_state] and [served_state], which differ in the flag of
    f1 only: the upload of [sample_body] stores a record with the flag
    false, the download of f1.txt leaves its record with the flag true, and
    the same download request gets the same answer in both states. *)
Lemma flag_sample :
  (exists m,
     dict_get sample_id
       (fileDatabase
          (snd (upload_end no_faults "s1" (Some sample_content_type) "h"
                  sample_body sample_id 1000 sample_state)))
     = Some m
     /\ downloaded m = false)
  /\ (exists m,
        dict_get (file_id_of "f1.txt")
          (fileDatabase (snd (download "f1.txt" stored_state))) = Some m
        /\ downloaded m = true)
  /\ fst (run (Request (Some "s1") "x" 30 "h" (GetDownload "f1.txt")) stored_state)
     = fst (run (Request (Some "s1") "x" 30 "h" (GetDownload "f1.txt")) served_state)
  /\ same_but_flags
       (snd (run (Request (Some "s1") "x" 30 "h" (GetDownload "f1.txt")) stored_state))
       (snd (run (Request (Some "s1") "x" 30 "h" (GetDownload "f1.txt")) served_state)).
Proof.
  destruct (downloaded_flag_never_read no_faults "s1" (Some sample_content_type)
              "h" sample_body sample_id 1000 "f1.txt" sample_state stored_state
              (Request (Some "s1") "x" 30 "h" (GetDownload "f1.txt"))
              stored_state served_state) as [Hup [Hdown Hsame]].
  - split; [|split]; reflexivity.
  - split; [apply Hup; reflexivity|]. split; [apply Hdown; reflexivity | exact Hsame].
Defined.

(** * Part two: further properties *)

(** ** The listing *)

Lemma sessionFiles_app (host : string) (db : dict FileRecord) (ids1 ids2 : list string) :
  sessionFiles host db (ids1 ++ ids2)
  = sessionFiles host db ids1 ++ sessionFiles host db ids2.
Proof.
  induction ids1 as [|x ids1 IH]; simpl; [reflexivity|].
  destruct (dict_get x db); rewrite IH; reflexivity.
Qed.

Lemma sessionFiles_set_other (host : string) (db : dict FileRecord)
  (fileId : string) (m : FileRecord) (ids : list string) :
  ~ In fileId ids ->
  sessionFiles host (dict_set fileId m db) ids = sessionFiles host db ids.
Proof.
  induction ids as [|x ids IH]; intros Hn; simpl; [reflexivity|].
  rewrite dict_get_set_other by (intros ->; apply Hn; left; reflexivity).
  rewrite IH by (intros H; apply Hn; right; exact H).
  reflexivity.
Qed.

(** Whatever name the extractor returns is a non-empty string. *)
Lemma first_accepted_truthy (parts : list Buffer) (name : string) (content : Buffer) :
  first_accepted parts = Some (name, content) -> truthy name = true.
Proof.
  induction parts as [|p parts IH]; simpl; [discriminate|].
  destruct (examine_part p) as [[n c]|] eqn:E; [|exact IH].
  intros H. injection H as -> ->.
  unfold examine_part in E.
  destruct (includes p filenameMarker); [|discriminate].
  destruct (indexOf p headerEndBuffer 0) as [h|]; [|discriminate].
  destruct (filenameMatch (toString (slice p 0 h))) as [n|] eqn:F; [|discriminate].
  injection E as <- _. exact (filenameMatch_truthy _ _ F).
Qed.

Lemma parse_first_accepted (buffer : Buffer) (boundary : string) :
  parseMultipartFormData buffer boundary
  = result_of
      (first_accepted
         (parts_of buffer (length (Buffer_from (String.append "--" boundary)))
            (boundaryPositions buffer (Buffer_from (String.append "--" boundary))))).
Proof. unfold parseMultipartFormData. apply process_parts_first_accepted. Qed.

Lemma parse_name_truthy (buffer : Buffer) (boundary name : string) :
  fileName (parseMultipartFormData buffer boundary) = Some name ->
  truthy name = true.
Proof.
  rewrite parse_first_accepted.
  destruct (first_accepted _) as [[n c]|] eqn:E; simpl; [|discriminate].
  intros H. injection H as <-. exact (first_accepted_truthy _ _ _ E).
Qed.

(** X2. A successful upload shows last in the listing of its session: the
    entries the session had, followed by the entry of the new file with the
    declared name and the number of bytes of the payload. *)
Theorem upload_listed_last (io : FsFaults) (sid : string) (s : Session)
  (ct boundary host host' : string) (buffer content : Buffer)
  (name fileId : string) (now : Z) (st : State) :
  boundaryMatch ct = Some boundary ->
  parseMultipartFormData buffer boundary = mkParseResult (Some name) (Some content) ->
  write_fails io (String.append fileId (path_extname name)) = false ->
  dict_get sid (userSessions st) = Some s ->
  ~ In fileId (files s) ->
  let st' := snd (upload_end io sid (Some ct) host buffer fileId now st) in
  exists s',
    dict_get sid (userSessions st') = Some s'
    /\ api_files host' s' st'
       = sendResponse 200
           (JsonFiles
              (sessionFiles host' (fileDatabase st) (files s)
               ++ [mkFileInfo fileId name (length content) now (now + FILE_EXPIRY)
                     (downloadLink host'
                        (String.append fileId (path_extname name)))])).
Proof.
  intros Hb Hparse Hwrite Hs Hfresh st'.
  assert (Hname : truthy name = true).
  { apply (parse_name_truthy buffer boundary). rewrite Hparse. reflexivity. }
  subst st'.
  rewrite (upload_end_accepts io sid s ct boundary host buffer content name fileId
             now st Hb Hparse Hname Hwrite Hs).
  cbn [snd userSessions fileDatabase].
  exists (mkSession (created s) (files s ++ [fileId])). split.
  - apply dict_get_set_same.
  - unfold api_files. cbn [files fileDatabase]. do 2 f_equal.
    rewrite sessionFiles_app. f_equal.
    + apply sessionFiles_set_other, Hfresh.
    + simpl. rewrite dict_get_set_same. reflexivity.
Qed.

Lemma upload_listed_last_sample :
  exists s',
    dict_get "s1"
      (userSessions (snd (upload_end no_faults "s1" (Some sample_content_type) "h"
                            sample_body sample_id 1000 sample_state))) = Some s'
    /\ api_files "h" s'
         (snd (upload_end no_faults "s1" (Some sample_content_type) "h"
                 sample_body sample_id 1000 sample_state))
       = sendResponse 200
           (JsonFiles
              (sessionFiles "h" (fileDatabase sample_state) []
               ++ [mkFileInfo sample_id "a.txt" (length sample_content) 1000
                     (1000 + FILE_EXPIRY)
                     (downloadLink "h"
                        (String.append sample_id (path_extname "a.txt")))])).
Proof.
  apply (upload_listed_last no_faults "s1" (mkSession 0 []) sample_content_type
           sample_boundary "h" "h" sample_body sample_content "a.txt" sample_id
           1000 sample_state).
  - reflexivity.
  - vm_compute. reflexivity.
  - reflexivity.
  - reflexivity.
  - simpl. tauto.
Defined.

(** ** Downloads that overlap *)

Lemma dict_set_get_same {V : Type} (k : string) (v : V) (d : dict V) :
  dict_get k d = Some v -> dict_set k v d = d.
Proof.
  induction d as [|[k' v'] d IH]; simpl; [discriminate|].
  destruct (String.eqb k k') eqn:E.
  - intros H. injection H as ->. apply String.eqb_eq in E. subst k'. reflexivity.
  - intros H. rewrite (IH H). reflexivity.
Qed.

Lemma dict_set_set_same {V : Type} (k : string) (v v' : V) (d : dict V) :
  dict_set k v' (dict_set k v d) = dict_set k v' d.
Proof.
  induction d as [|[k0 v0] d IH]; simpl.
  - rewrite String.eqb_refl. reflexivity.
  - destruct (String.eqb k k0) eqn:E; simpl.
    + rewrite String.eqb_refl. reflexivity.
    + rewrite E, IH. reflexivity.
Qed.

(** X3. Until the [finish] callback has run, the file stays available: a
    download changes nothing but the [downloaded] mark of the record, and a
    second download that starts after the first one was answered gets the
    same answer and leaves the stores as the first one left them (the mark
    does not close the file). *)
Theorem download_repeatable_until_finish (name : string) (st : State) :
  status (fst (download name st)) = 200 ->
  same_but_flags st (snd (download name st))
  /\ download name (snd (download name st)) = download name st.
Proof.
  intros Hserved.
  destruct (download_served name st Hserved) as [data [m [Hd [Hm Hok]]]].
  rewrite (download_eq name st), Hd, Hm, Hok.
  cbn [snd uploads fileDatabase userSessions]. split.
  - split; [|split; reflexivity]. cbn [fileDatabase].
    rewrite forget_db_set. symmetry. apply dict_set_get_same.
    rewrite forget_db_get, Hm. reflexivity.
  - rewrite download_eq. cbn [uploads fileDatabase userSessions].
    rewrite Hd, dict_get_set_same.
    cbn [originalName filename size uploadTime expiryTime sessionId].
    rewrite Hok, dict_set_set_same. reflexivity.
Qed.

Lemma download_repeatable_sample :
  same_but_flags stored_state (snd (download "f1.txt" stored_state))
  /\ download "f1.txt" (snd (download "f1.txt" stored_state))
     = download "f1.txt" stored_state.
Proof. apply (download_repeatable_until_finish "f1.txt" stored_state). reflexivity. Defined.



(** ** How an upload can end *)

Definition upload_failed : Reply := sendResponse 500 (JsonError "File upload failed").
Definition no_file_uploaded : Reply :=
  sendResponse 400 (JsonError "No file uploaded or invalid file data").
Definition missing_boundary : Reply :=
  sendResponse 400 (JsonError "Invalid content type or missing boundary").

(** X5. The [end] callback answers 200, 400 or 500.  A 400 leaves the stores
    untouched, and so does the 500 of a failed write.  When the session of
    the request no longer exists the answer is 500 as well, but the bytes
    and the record have been stored (no session lists them).  A 200 comes
    with a record under the new identifier, whose size is the length of the
    stored bytes, and it returns the link to the stored file and the expiry
    time of the record. *)
Theorem upload_outcomes (io : FsFaults) (sid : string) (ct : option string)
  (host : string) (buffer : Buffer) (fileId : string) (now : Z) (st : State) :
  let r := fst (upload_end io sid ct host buffer fileId now st) in
  let st' := snd (upload_end io sid ct host buffer fileId now st) in
  (r = missing_boundary /\ st' = st)
  \/ (r = no_file_uploaded /\ st' = st)
  \/ (r = upload_failed /\ st' = st)
  \/ (r = upload_failed /\ dict_get sid (userSessions st) = None
      /\ userSessions st' = userSessions st
      /\ exists m data,
           dict_get fileId (fileDatabase st') = Some m
           /\ dict_get (filename m) (uploads st') = Some data)
  \/ (status r = 200
      /\ exists m data,
           dict_get fileId (fileDatabase st') = Some m
           /\ dict_get (filename m) (uploads st') = Some data
           /\ size m = length data
           /\ sessionId m = sid
           /\ r = sendResponse 200
                    (JsonUploaded "File uploaded successfully" fileId
                       (downloadLink host (filename m)) (expiryTime m))).
Proof.
  unfold upload_end.
  destruct (boundaryMatch _) as [boundary|]; [|left; split; reflexivity].
  destruct (fileName _) as [name|]; [|right; left; split; reflexivity].
  destruct (fileContent _) as [content|]; [|right; left; split; reflexivity].
  destruct (truthy name); [|right; left; split; reflexivity].
  unfold writeFileSync.
  destruct (write_fails io _); [right; right; left; split; reflexivity|].
  destruct (dict_get sid (userSessions st)) as [s|] eqn:Hs.
  - right; right; right; right. cbn [fst snd status sendResponse].
    split; [reflexivity|].
    eexists; exists content. cbn [fileDatabase uploads].
    rewrite dict_get_set_same. split; [reflexivity|].
    cbn [filename size sessionId expiryTime uploadTime].
    rewrite dict_get_set_same. repeat split.
  - right; right; right; left. cbn [fst snd userSessions fileDatabase uploads].
    split; [reflexivity|]. split; [reflexivity|]. split; [reflexivity|].
    eexists; exists content. rewrite dict_get_set_same. split; [reflexivity|].
    cbn [filename]. apply dict_get_set_same.
Qed.

(** ** What the extractor can return *)

Lemma slice_slice {A : Type} (l : list A) (a b c d : nat) :
  exists s e, slice (slice l a b) c d = slice l s e.
Proof.
  unfold slice. exists (a + c), (a + c + Nat.min (d - c) (b - a - c)).
  rewrite skipn_firstn_comm, firstn_firstn, skipn_skipn.
  f_equal; [lia | f_equal; lia].
Qed.

Lemma span_not_free (c : ascii) (s run rest : string) :
  span_not c s = (run, rest) ->
  forallb (fun a => negb (Ascii.eqb a c)) (list_ascii_of_string run) = true.
Proof.
  revert run rest. induction s as [|a s IH]; simpl; intros run rest H.
  - injection H as <- _. reflexivity.
  - destruct (Ascii.eqb a c) eqn:E.
    + injection H as <- _. reflexivity.
    + destruct (span_not c s) as [run' rest'] eqn:S.
      injection H as <- _. simpl. rewrite E. simpl. exact (IH _ _ eq_refl).
Qed.

(** No double quote in [s]. *)
Definition quote_free (s : string) : bool :=
  forallb (fun a => negb (Ascii.eqb a dquote)) (list_ascii_of_string s).

Lemma quoted_run_quote_free (s name : string) :
  quoted_run s = Some name -> quote_free name = true.
Proof.
  unfold quoted_run. destruct (span_not dquote s) as [run rest] eqn:S.
  destruct run as [|a run]; [discriminate|].
  destruct rest; [discriminate|].
  intros H. injection H as <-. exact (span_not_free _ _ _ _ S).
Qed.

Lemma filenameMatch_quote_free (s name : string) :
  filenameMatch s = Some name -> quote_free name = true.
Proof.
  induction s as [|c s IH]; rewrite filenameMatch_eq.
  - destruct (str_starts_with false filename_open EmptyString); [|discriminate].
    destruct (quoted_run _) eqn:Q; [|discriminate].
    intros H. injection H as <-. exact (quoted_run_quote_free _ _ Q).
  - destruct (str_starts_with false filename_open (String c s)).
    + destruct (quoted_run _) eqn:Q.
      * intros H. injection H as <-. exact (quoted_run_quote_free _ _ Q).
      * exact IH.
    + exact IH.
Qed.

Lemma parts_of_slices (buffer : Buffer) (blen : nat) (positions : list nat) :
  Forall (fun p => exists s e, p = slice buffer s e) (parts_of buffer blen positions).
Proof.
  induction positions as [|p0 [|p1 rest] IH]; simpl; try constructor.
  - exists (p0 + blen), p1. reflexivity.
  - exact IH.
Qed.

Lemma first_accepted_shape (buffer : Buffer) (parts : list Buffer) (name : string)
  (content : Buffer) :
  Forall (fun p => exists s e, p = slice buffer s e) parts ->
  first_accepted parts = Some (name, content) ->
  quote_free name = true /\ exists s e, content = slice buffer s e.
Proof.
  induction 1 as [|p parts [s [e ->]] _ IH]; simpl; [discriminate|].
  rewrite examine_part_cases.
  destruct (has_marker _); [|exact IH].
  destruct (header_end _) as [h|] eqn:Hh; [|exact IH].
  unfold declared_name. rewrite Hh.
  destruct (filenameMatch _) as [n|] eqn:F; [|exact IH].
  intros H. injection H as <- <-. split.
  - exact (filenameMatch_quote_free _ _ F).
  - apply slice_slice.
Qed.

(** X6. The extractor returns both fields or neither.  A returned name is
    not empty and holds no double quote; the returned content is a
    contiguous slice of the request body. *)
Theorem extractor_result_shape (buffer : Buffer) (boundary : string) :
  parseMultipartFormData buffer boundary = mkParseResult None None
  \/ exists name content,
       parseMultipartFormData buffer boundary
       = mkParseResult (Some name) (Some content)
       /\ truthy name = true
       /\ quote_free name = true
       /\ exists s e, content = slice buffer s e.
Proof.
  rewrite parse_first_accepted.
  destruct (first_accepted _) as [[name content]|] eqn:E; [right|left; reflexivity].
  exists name, content. split; [reflexivity|]. split.
  - exact (first_accepted_truthy _ _ _ E).
  - exact (first_accepted_shape buffer _ _ _ (parts_of_slices _ _ _) E).
Qed.

(** ** Bodies without a file *)

Lemma occurs_in_slice (pat buffer : Buffer) (a b k : nat) :
  occurs_at pat (slice buffer a b) k = true ->
  occurs_at pat buffer (a + k) = true.
Proof.
  unfold occurs_at, slice. intros H.
  apply starts_with_iff in H. destruct H as [rest H].
  apply starts_with_iff.
  assert (E : skipn (a + k) buffer
              = skipn k (firstn (b - a) (skipn a buffer) ++ skipn (b - a) (skipn a buffer))).
  { rewrite firstn_skipn, skipn_skipn. f_equal. lia. }
  rewrite E, skipn_app, H, <- app_assoc. eexists. reflexivity.
Qed.

Lemma includes_slice (pat buffer : Buffer) (a b : nat) :
  includes (slice buffer a b) pat = true -> includes buffer pat = true.
Proof.
  unfold includes, indexOf. simpl skipn.
  destruct (find_first pat (slice buffer a b)) as [n|] eqn:E; [|discriminate].
  intros _. apply find_first_first_at in E. destruct E as [E _].
  apply occurs_in_slice in E.
  destruct (find_first_occurs _ _ _ E) as [n' ->]. reflexivity.
Qed.

Lemma first_accepted_no_marker (buffer : Buffer) (parts : list Buffer) :
  includes buffer filenameMarker = false ->
  Forall (fun p => exists s e, p = slice buffer s e) parts ->
  first_accepted parts = None.
Proof.
  intros Hno Hparts. apply first_accepted_none.
  induction Hparts as [|p parts [s [e ->]] _ IH]; constructor; [|exact IH].
  apply examine_part_no_marker.
  destruct (includes (slice buffer s e) filenameMarker) eqn:E; [|reflexivity].
  apply includes_slice in E. congruence.
Qed.

(** X7. A request body in which the text filename= occurs nowhere holds no
    file, however it is delimited: the extractor returns neither field and
    the upload is answered 400 without any change of the stores. *)
Theorem body_without_marker_rejected (io : FsFaults) (sid ct boundary host : string)
  (buffer : Buffer) (fileId : string) (now : Z) (st : State) :
  boundaryMatch ct = Some boundary ->
  includes buffer filenameMarker = false ->
  parseMultipartFormData buffer boundary = mkParseResult None None
  /\ upload_end io sid (Some ct) host buffer fileId now st = (no_file_uploaded, st).
Proof.
  intros Hb Hno.
  assert (Hp : parseMultipartFormData buffer boundary = mkParseResult None None).
  { rewrite parse_first_accepted.
    rewrite (first_accepted_no_marker buffer _ Hno (parts_of_slices _ _ _)).
    reflexivity. }
  split; [exact Hp|]. unfold upload_end. rewrite Hb, Hp. reflexivity.
Qed.

(** A form with one text field and no file. *)
Definition fields_only_body : Buffer :=
  multipart_body sample_delimiter [] [sample_field] (Buffer_from "--" ++ crlfBuffer).

Lemma body_without_marker_sample :
  parseMultipartFormData fields_only_body sample_boundary = mkParseResult None None
  /\ upload_end no_faults "s1" (Some sample_content_type) "h" fields_only_body
       sample_id 1000 sample_state
     = (no_file_uploaded, sample_state).
Proof.
  apply (body_without_marker_rejected no_faults "s1" sample_content_type
           sample_boundary "h" fields_only_body sample_id 1000 sample_state).
  - reflexivity.
  - vm_compute. reflexivity.
Defined.

(** ** After the sweep *)

Lemma download_no_record (name : string) (st : State) :
  dict_get (file_id_of name) (fileDatabase st) = None ->
  download name st = (sendResponse 404 (JsonError "File not found or expired"), st).
Proof.
  intros H. unfold download. rewrite H.
  destruct (dict_get name (uploads st)); reflexivity.
Qed.

(** X8. Expiry without download: once a sweep runs after the expiry time of
    a record (and the file system lets the unlink through), no download
    path that resolves to the record's identifier is served any more, and
    no listing, of any session, shows it. *)
Theorem expired_file_unreachable (io : FsFaults) (now : Z) (st : State)
  (fileId : string) (m : FileRecord) :
  dict_get fileId (fileDatabase st) = Some m ->
  (now > expiryTime m)%Z ->
  unlink_fails io (filename m) = false ->
  let st' := sweep io now st in
  (forall name, file_id_of name = fileId ->
     download name st'
     = (sendResponse 404 (JsonError "File not found or expired"), st'))
  /\ (forall host ids e,
        In e (sessionFiles host (fileDatabase st') ids) -> info_id e <> fileId).
Proof.
  intros Hm Hexp Hio st'.
  assert (Hgone : dict_get fileId (fileDatabase st') = None).
  { subst st'. rewrite sweep_fileDatabase.
    apply (sweep_entries_removes io now _ st fileId m);
      [apply dict_get_In, Hm | exact Hexp | exact Hio]. }
  split.
  - intros name <-. apply download_no_record, Hgone.
  - intros host ids e He Heq.
    destruct (sessionFiles_In _ _ _ _ He) as [_ [m' [Hm' _]]].
    rewrite Heq in Hm'. congruence.
Qed.

Lemma expired_file_sample :
  (forall name, file_id_of name = "f1" ->
     download name (sweep no_faults 200 stored_state)
     = (sendResponse 404 (JsonError "File not found or expired"),
        sweep no_faults 200 stored_state))
  /\ (forall host ids e,
        In e (sessionFiles host (fileDatabase (sweep no_faults 200 stored_state)) ids) ->
        info_id e <> "f1").
Proof.
  apply (expired_file_unreachable no_faults 200 stored_state "f1" stored_record);
    reflexivity.
Defined.

(** X9. The sweep spares what has not expired: a record whose expiry time is
    not yet passed (the comparison is strict, so the expiry instant itself
    is spared) is kept unchanged, it keeps its place in the list of every
    session that lists it, and such a session is not removed, whatever its
    age. *)
Theorem sweep_spares_unexpired (io : FsFaults) (now : Z) (st : State)
  (fileId : string) (m : FileRecord) :
  NoDup (dict_keys (fileDatabase st)) ->
  NoDup (dict_keys (userSessions st)) ->
  dict_get fileId (fileDatabase st) = Some m ->
  (now <= expiryTime m)%Z ->
  dict_get fileId (fileDatabase (sweep io now st)) = Some m
  /\ forall sid s,
       dict_get sid (userSessions st) = Some s -> In fileId (files s) ->
       exists s', dict_get sid (userSessions (sweep io now st)) = Some s'
                  /\ In fileId (files s') /\ created s' = created s.
Proof.
  intros Hdb Hss Hm Hnow.
  assert (Hn : forall m', In (fileId, m') (fileDatabase st) ->
                          (now <= expiryTime m')%Z).
  { intros m' Hin. apply (dict_In_get _ _ _ Hdb) in Hin. congruence. }
  destruct (sweep_entries_spares io now _ fileId m Hn st Hm) as [H1 H2].
  split.
  - rewrite sweep_fileDatabase. exact H1.
  - intros sid s Hs Hin. destruct (H2 sid s Hs Hin) as [s' [Hs' [Hin' Hc]]].
    exists s'. split; [|split; assumption].
    unfold sweep. rewrite sweep_sessions_get.
    + unfold sweep_files. fold (sweep_entries io now (fileDatabase st) st).
      rewrite Hs'. unfold stale.
      destruct (files s') as [|x l]; [destruct Hin'|].
      simpl. rewrite andb_false_r. reflexivity.
    + unfold sweep_files. fold (sweep_entries io now (fileDatabase st) st).
      rewrite sweep_entries_session_keys. exact Hss.
Qed.

Lemma sweep_spares_sample :
  dict_get "f1" (fileDatabase (sweep no_faults 100 stored_state)) = Some stored_record
  /\ forall sid s,
       dict_get sid (userSessions stored_state) = Some s -> In "f1" (files s) ->
       exists s', dict_get sid (userSessions (sweep no_faults 100 stored_state))
                  = Some s'
                  /\ In "f1" (files s') /\ created s' = created s.
Proof.
  apply (sweep_spares_unexpired no_faults 100 stored_state "f1" stored_record).
  - constructor; [simpl; tauto | constructor].
  - constructor; [simpl; tauto | constructor].
  - reflexivity.
  - vm_compute. discriminate.
Defined.

(** ** The session reset *)

Lemma reset_file_get_some (io : FsFaults) (st : State) (fileId x : string)
  (m : FileRecord) :
  dict_get x (fileDatabase (reset_file io st fileId)) = Some m ->
  dict_get x (fileDatabase st) = Some m.
Proof.
  rewrite reset_file_eq.
  destruct (dict_get fileId (fileDatabase st)) as [m0|]; [|exact id].
  destruct (unlink_goes_through io _ _); [|exact id].
  cbn [fileDatabase]. intros H.
  destruct (String.eqb x fileId) eqn:E.
  - apply String.eqb_eq in E. subst x. rewrite dict_get_delete_same in H.
    discriminate.
  - apply String.eqb_neq in E. rewrite dict_get_delete_other in H by exact E.
    exact H.
Qed.

Lemma reset_file_get_none (io : FsFaults) (st : State) (fileId x : string) :
  dict_get x (fileDatabase st) = None ->
  dict_get x (fileDatabase (reset_file io st fileId)) = None.
Proof.
  intros H. destruct (dict_get x (fileDatabase (reset_file io st fileId))) eqn:E;
    [|reflexivity].
  apply reset_file_get_some in E. congruence.
Qed.

Lemma reset_file_disk_none (io : FsFaults) (st : State) (fileId p : string) :
  dict_get p (uploads st) = None ->
  dict_get p (uploads (reset_file io st fileId)) = None.
Proof.
  intros H. rewrite reset_file_eq.
  destruct (dict_get fileId (fileDatabase st)) as [m0|]; [|exact H].
  destruct (unlink_goes_through io _ _); [|exact H].
  cbn [uploads]. apply dict_get_delete_none, H.
Qed.

Lemma reset_files_none (io : FsFaults) (ids : list string) (st : State) :
  (forall x, dict_get x (fileDatabase st) = None ->
     dict_get x (fileDatabase (fold_left (reset_file io) ids st)) = None)
  /\ (forall p, dict_get p (uploads st) = None ->
        dict_get p (uploads (fold_left (reset_file io) ids st)) = None).
Proof.
  revert st. induction ids as [|f ids IH]; intros st; [split; intros; assumption|].
  simpl. destruct (IH (reset_file io st f)) as [IH1 IH2]. split.
  - intros x H. apply IH1, reset_file_get_none, H.
  - intros p H. apply IH2, reset_file_disk_none, H.
Qed.

Lemma reset_files_other (io : FsFaults) (ids : list string) (st : State) (x : string) :
  ~ In x ids ->
  dict_get x (fileDatabase (fold_left (reset_file io) ids st))
  = dict_get x (fileDatabase st).
Proof.
  revert st. induction ids as [|f ids IH]; intros st Hn; [reflexivity|].
  simpl. rewrite IH by (intros H; apply Hn; right; exact H).
  apply reset_file_get_other. intros ->. apply Hn. left. reflexivity.
Qed.

Lemma reset_files_sessions (io : FsFaults) (ids : list string) (st : State) :
  userSessions (fold_left (reset_file io) ids st) = userSessions st.
Proof.
  revert st. induction ids as [|f ids IH]; intros st; [reflexivity|].
  simpl. rewrite IH. apply reset_file_sessions.
Qed.

Lemma reset_files_remove (io : FsFaults) (ids : list string) :
  forall st,
    (forall f m, In f ids -> dict_get f (fileDatabase st) = Some m ->
                 unlink_fails io (filename m) = false) ->
    forall f, In f ids ->
      dict_get f (fileDatabase (fold_left (reset_file io) ids st)) = None
      /\ forall m, dict_get f (fileDatabase st) = Some m ->
           dict_get (filename m) (uploads (fold_left (reset_file io) ids st)) = None.
Proof.
  induction ids as [|x ids IH]; intros st Hio f Hin; [destruct Hin|].
  simpl.
  assert (Hio' : forall f m, In f ids ->
            dict_get f (fileDatabase (reset_file io st x)) = Some m ->
            unlink_fails io (filename m) = false).
  { intros f' m' Hin' Hm'. apply (Hio f' m' (or_intror Hin')).
    exact (reset_file_get_some _ _ _ _ _ Hm'). }
  destruct (reset_files_none io ids (reset_file io st x)) as [Hdb Hdisk].
  destruct (String.eqb f x) eqn:E.
  - apply String.eqb_eq in E. subst f.
    rewrite reset_file_eq in *.
    destruct (dict_get x (fileDatabase st)) as [m|] eqn:Hm.
    + assert (Hgo : unlink_goes_through io (filename m) (uploads st) = true).
      { unfold unlink_goes_through.
        rewrite (Hio x m (or_introl eq_refl) Hm). apply orb_true_r. }
      rewrite Hgo in *. split.
      * apply Hdb. cbn [fileDatabase]. apply dict_get_delete_same.
      * intros m' Hm'. injection Hm' as <-. apply Hdisk. cbn [uploads].
        apply dict_get_delete_same.
    + split; [apply Hdb, Hm | discriminate].
  - apply String.eqb_neq in E.
    destruct Hin as [->|Hin]; [congruence|].
    destruct (IH _ Hio' f Hin) as [H1 H2]. split; [exact H1|].
    intros m Hm. apply H2. rewrite reset_file_get_other by exact E. exact Hm.
Qed.

(** X10. A session reset cascades: when the file system refuses none of the
    unlinks, every file the session lists loses its record and its bytes,
    the session itself is gone and an empty session stands under the new
    identifier; records the session did not list, and all other sessions,
    are as before. *)
Theorem session_reset_cascades (io : FsFaults) (sid newId : string) (now : Z)
  (st : State) (s : Session) :
  dict_get sid (userSessions st) = Some s ->
  (forall f m, In f (files s) -> dict_get f (fileDatabase st) = Some m ->
               unlink_fails io (filename m) = false) ->
  sid <> newId ->
  let st' := snd (reset_session io sid newId now st) in
  (forall f, In f (files s) ->
     dict_get f (fileDatabase st') = None
     /\ forall m, dict_get f (fileDatabase st) = Some m ->
          dict_get (filename m) (uploads st') = None)
  /\ dict_get sid (userSessions st') = None
  /\ dict_get newId (userSessions st') = Some (mkSession now [])
  /\ (forall x, ~ In x (files s) ->
        dict_get x (fileDatabase st') = dict_get x (fileDatabase st))
  /\ (forall sid', sid' <> sid -> sid' <> newId ->
        dict_get sid' (userSessions st') = dict_get sid' (userSessions st)).
Proof.
  intros Hs Hio Hne st'. subst st'. unfold reset_session. rewrite Hs.
  unfold createSession. cbn [snd fileDatabase userSessions uploads].
  rewrite reset_files_sessions.
  split; [|split; [|split; [|split]]].
  - intros f Hin. exact (reset_files_remove io (files s) st Hio f Hin).
  - rewrite dict_get_set_other by exact Hne. apply dict_get_delete_same.
  - apply dict_get_set_same.
  - intros x Hx. apply reset_files_other, Hx.
  - intros sid' H1 H2. rewrite dict_get_set_other by exact H2.
    apply dict_get_delete_other, H1.
Qed.

Lemma session_reset_sample :
  (forall f, In f ["f1"] ->
     dict_get f (fileDatabase (snd (reset_session no_faults "s1" "s2" 50 stored_state)))
     = None
     /\ forall m, dict_get f (fileDatabase stored_state) = Some m ->
          dict_get (filename m)
            (uploads (snd (reset_session no_faults "s1" "s2" 50 stored_state))) = None)
  /\ dict_get "s1" (userSessions (snd (reset_session no_faults "s1" "s2" 50 stored_state)))
     = None
  /\ dict_get "s2" (userSessions (snd (reset_session no_faults "s1" "s2" 50 stored_state)))
     = Some (mkSession 50 [])
  /\ (forall x, ~ In x ["f1"] ->
        dict_get x (fileDatabase (snd (reset_session no_faults "s1" "s2" 50 stored_state)))
        = dict_get x (fileDatabase stored_state))
  /\ (forall sid', sid' <> "s1" -> sid' <> "s2" ->
        dict_get sid' (userSessions (snd (reset_session no_faults "s1" "s2" 50 stored_state)))
        = dict_get sid' (userSessions stored_state)).
Proof.
  apply (session_reset_cascades no_faults "s1" "s2" 50 stored_state
           (mkSession 0 ["f1"])).
  - reflexivity.
  - intros f m _ _. reflexivity.
  - discriminate.
Defined.

(** ** Requests of a client without a session *)

(** The names every object inherits from [Object.prototype].  The stores
    are plain objects, so a lookup under one of these names finds the
    inherited property, which is truthy and is no session: the listener then
    creates no session, and reading the list of files of what it found
    throws.  The embedding keeps own properties only; what is stated about
    the token of a request is stated for tokens that are not such names. *)
Definition inherited (k : string) : bool :=
  existsb (String.eqb k)
    [ "constructor"; "__proto__"; "hasOwnProperty"; "isPrototypeOf";
      "propertyIsEnumerable"; "toLocaleString"; "toString"; "valueOf";
      "__defineGetter__"; "__defineSetter__"; "__lookupGetter__";
      "__lookupSetter__" ].

(** The request names no session: it carries no token, or a token under
    which [userSessions] holds nothing, not even an inherited property. *)
Definition no_session (token : option string) (st : State) : Prop :=
  match token with
  | None => True
  | Some t =>
      inherited t = false
      /\ truthy t && dict_has t (userSessions st) = false
  end.

(** X11. A listing request that names no session (no token, or a token
    that is neither the key of a session nor a name every object inherits)
    is given a new session under the generated identifier, told so by a
    cookie, and sees an empty list, whatever the stores hold. *)
Theorem first_visit_lists_nothing (token : option string) (freshId : string)
  (now : Z) (host : string) (st : State) :
  no_session token st ->
  fst (run (Request token freshId now host GetFiles) st)
  = mkOutcome (Some freshId) (Some (sendResponse 200 (JsonFiles [])))
  /\ dict_get freshId (userSessions (snd (run (Request token freshId now host GetFiles) st)))
     = Some (mkSession now [])
  /\ fileDatabase (snd (run (Request token freshId now host GetFiles) st))
     = fileDatabase st.
Proof.
  intros H. unfold run, handle_request.
  assert (E : ensure_session token freshId now st
              = (freshId, Some freshId, createSession freshId now st)).
  { unfold ensure_session. destruct token as [t|]; [|reflexivity].
    destruct H as [_ H]. rewrite H. reflexivity. }
  rewrite E. unfold createSession. cbn [userSessions].
  rewrite dict_get_set_same. cbn [fst snd userSessions fileDatabase].
  rewrite dict_get_set_same. repeat split.
Qed.

Lemma first_visit_sample :
  fst (run (Request (Some "gone") "s9" 7 "h" GetFiles) stored_state)
  = mkOutcome (Some "s9") (Some (sendResponse 200 (JsonFiles [])))
  /\ dict_get "s9"
       (userSessions (snd (run (Request (Some "gone") "s9" 7 "h" GetFiles) stored_state)))
     = Some (mkSession 7 [])
  /\ fileDatabase (snd (run (Request (Some "gone") "s9" 7 "h" GetFiles) stored_state))
     = fileDatabase stored_state.
Proof.
  apply (first_visit_lists_nothing (Some "gone") "s9" 7 "h" stored_state).
  split; reflexivity.
Defined.

(** ** The content type of a download *)

Lemma extname_of_storage_key (fileId name : string) :
  plain_id fileId ->
  path_extname (String.append fileId (path_extname name)) = path_extname name.
Proof.
  intros [Hne Hplain].
  assert (HF : list_ascii_of_string fileId <> []).
  { intros H. apply Hne. rewrite <- (string_of_list_ascii_of_string fileId), H.
    reflexivity. }
  destruct (extname_shape name) as [->|[run [-> Hrun]]].
  - rewrite append_empty. rewrite <- (string_of_list_ascii_of_string fileId).
    apply extname_of_plain, Hplain.
  - change (String dot (string_of_list_ascii run))
      with (string_of_list_ascii (dot :: run)).
    rewrite <- (string_of_list_ascii_of_string fileId).
    rewrite <- string_of_list_app.
    apply extname_of_key; assumption.
Qed.

(** X12. The stored file keeps the extension of the uploaded name, so a
    download of the storage key is served with the content type that the
    table gives for the original name. *)
Theorem content_type_of_original_name (fileId name : string) :
  plain_id fileId ->
  path_extname (String.append fileId (path_extname name)) = path_extname name
  /\ getContentType (String.append fileId (path_extname name)) = getContentType name.
Proof.
  intros H. split; [exact (extname_of_storage_key fileId name H)|].
  unfold getContentType. rewrite (extname_of_storage_key fileId name H). reflexivity.
Qed.

Lemma content_type_sample :
  path_extname (String.append sample_id (path_extname "photo.JPG")) = path_extname "photo.JPG"
  /\ getContentType (String.append sample_id (path_extname "photo.JPG"))
     = getContentType "photo.JPG".
Proof.
  apply (content_type_of_original_name sample_id "photo.JPG").
  split; [discriminate | reflexivity].
Defined.

(** ** The boundary parameter *)

Lemma str_starts_with_longer (ci : bool) (lit a x : string) :
  String.length lit <= String.length a ->
  str_starts_with ci lit (String.append a x) = str_starts_with ci lit a.
Proof.
  revert a. induction lit as [|c lit IH]; intros a Hlen; [reflexivity|].
  destruct a as [|d a]; simpl in *; [lia|].
  rewrite IH by lia. reflexivity.
Qed.

Lemma toLowerCase_app (a b : string) :
  toLowerCase (String.append a b) = String.append (toLowerCase a) (toLowerCase b).
Proof. induction a as [|c a IH]; simpl; [reflexivity | rewrite IH; reflexivity]. Qed.

Lemma toLowerCase_length (a : string) :
  String.length (toLowerCase a) = String.length a.
Proof. induction a as [|c a IH]; simpl; [reflexivity | rewrite IH; reflexivity]. Qed.

Lemma str_append_assoc (a b c : string) :
  String.append (String.append a b) c = String.append a (String.append b c).
Proof. induction a as [|x a IH]; simpl; [reflexivity | rewrite IH; reflexivity]. Qed.

Lemma str_append_length (a b : string) :
  String.length (String.append a b) = String.length a + String.length b.
Proof. induction a as [|x a IH]; simpl; [reflexivity | rewrite IH; reflexivity]. Qed.

(** The scan passes over a prefix in which the parameter name does not
    start. *)
Lemma boundaryMatch_after (p kw v : string) :
  toLowerCase kw = "boundary=" ->
  str_includes "boundary=" (toLowerCase (String.append p "boundary")) = false ->
  boundaryMatch (String.append p (String.append kw v))
  = boundaryMatch (String.append kw v).
Proof.
  intros Hkw. induction p as [|c p IH]; intros Hfree; [reflexivity|].
  change (String.append (String c p) (String.append kw v))
    with (String c (String.append p (String.append kw v))).
  rewrite boundaryMatch_eq.
  change (String.append (String c p) "boundary")
    with (String c (String.append p "boundary")) in Hfree.
  change (toLowerCase (String c (String.append p "boundary")))
    with (String (lower c) (toLowerCase (String.append p "boundary"))) in Hfree.
  rewrite str_includes_eq in Hfree. apply orb_false_elim in Hfree.
  destruct Hfree as [Hhere Hrest].
  assert (E : str_starts_with true "boundary="
                (String c (String.append p (String.append kw v))) = false).
  { rewrite str_starts_with_fold.
    change (toLowerCase (String c (String.append p (String.append kw v))))
      with (String (lower c) (toLowerCase (String.append p (String.append kw v)))).
    rewrite !toLowerCase_app, Hkw.
    change "boundary=" with (String.append "boundary" "=") at 2.
    rewrite str_append_assoc, <- (str_append_assoc (toLowerCase p)).
    change (String (lower c)
              (String.append (String.append (toLowerCase p) "boundary")
                 (String.append "=" (toLowerCase v))))
      with (String.append
              (String (lower c) (String.append (toLowerCase p) "boundary"))
              (String.append "=" (toLowerCase v))).
    rewrite str_starts_with_longer.
    - rewrite toLowerCase_app in Hhere. exact Hhere.
    - simpl. rewrite str_append_length. simpl. lia. }
  rewrite E. apply IH, Hrest.
Qed.

Lemma span_not_app (c : ascii) (b t : string) :
  forallb (fun a => negb (Ascii.eqb a c)) (list_ascii_of_string b) = true ->
  (t = EmptyString \/ exists t', t = String c t') ->
  span_not c (String.append b t) = (b, t).
Proof.
  intros Hb Ht. induction b as [|a b IH]; simpl in *.
  - destruct Ht as [->|[t' ->]]; simpl; [reflexivity|].
    rewrite Ascii.eqb_refl. reflexivity.
  - apply andb_prop in Hb. destruct Hb as [Ha Hb].
    apply negb_true_iff in Ha. rewrite Ha, (IH Hb). reflexivity.
Qed.

(** No semicolon in [s]. *)
Definition semicolon_free (s : string) : bool :=
  forallb (fun a => negb (Ascii.eqb a semicolon)) (list_ascii_of_string s).

(** [s] does not begin with a double quote. *)
Definition unquoted_start (s : string) : bool :=
  match s with
  | String a _ => negb (Ascii.eqb a dquote)
  | EmptyString => false
  end.

(** X13. The boundary parameter is read in both of its forms, with its name
    in any letter case, at the first place of the header where the name
    starts: a quoted value is the text between the quotes, an unquoted one
    runs to the next semicolon or to the end of the header. *)
Theorem boundary_parameter_forms (p kw b t : string) :
  toLowerCase kw = "boundary=" ->
  str_includes "boundary=" (toLowerCase (String.append p "boundary")) = false ->
  b <> EmptyString ->
  (quote_free b = true ->
     boundaryMatch (String.append p (String.append kw (String.append (quoted b) t)))
     = Some b)
  /\ (semicolon_free b = true -> unquoted_start b = true ->
      t = EmptyString \/ (exists t', t = String semicolon t') ->
        boundaryMatch (String.append p (String.append kw (String.append b t)))
        = Some b).
Proof.
  intros Hkw Hfree Hb.
  assert (Hat : forall v, boundaryMatch (String.append kw v) =
            match v with
            | String q rest' =>
                match (if Ascii.eqb q dquote then
                         match quoted_run rest' with
                         | Some b => Some b
                         | None => unquoted_run v
                         end
                       else unquoted_run v) with
                | Some b => Some b
                | None =>
                    match String.append kw v with
                    | EmptyString => None
                    | String _ s' => boundaryMatch s'
                    end
                end
            | EmptyString =>
                match String.append kw v with
                | EmptyString => None
                | String _ s' => boundaryMatch s'
                end
            end).
  { intros v. rewrite boundaryMatch_eq.
    assert (Hs : str_starts_with true "boundary=" (String.append kw v) = true).
    { rewrite str_starts_with_fold, toLowerCase_app, Hkw. reflexivity. }
    assert (Hd : str_drop 9 (String.append kw v) = v).
    { clear Hs.
      do 9 (destruct kw as [|? kw]; [discriminate Hkw|]).
      destruct kw; [reflexivity | discriminate Hkw]. }
    rewrite Hs, Hd. destruct v; reflexivity. }
  split.
  - intros Hq. rewrite (boundaryMatch_after p kw _ Hkw Hfree), Hat.
    unfold quoted. cbn [String.append]. rewrite Ascii.eqb_refl.
    rewrite str_append_assoc. cbn [String.append].
    unfold quoted_run. rewrite (span_not_app dquote b (String dquote t) Hq).
    + destruct b; [congruence | reflexivity].
    + right. eexists. reflexivity.
  - intros Hsc Hstart Ht. rewrite (boundaryMatch_after p kw _ Hkw Hfree), Hat.
    destruct b as [|a b]; [congruence|].
    cbn [String.append]. simpl in Hstart. apply negb_true_iff in Hstart.
    rewrite Hstart.
    change (String a (String.append b t)) with (String.append (String a b) t).
    unfold unquoted_run. rewrite (span_not_app semicolon (String a b) t Hsc Ht).
    reflexivity.
Qed.

Lemma boundary_forms_sample :
  boundaryMatch
    (String.append "multipart/form-data; "
       (String.append "Boundary=" (String.append (quoted "XX") "; charset=utf-8")))
  = Some "XX"
  /\ boundaryMatch
       (String.append "multipart/form-data; "
          (String.append "Boundary=" (String.append "XX" "; charset=utf-8")))
     = Some "XX".
Proof.
  destruct (boundary_parameter_forms "multipart/form-data; " "Boundary=" "XX"
              "; charset=utf-8") as [H1 H2].
  - reflexivity.
  - reflexivity.
  - discriminate.
  - split.
    + apply H1. reflexivity.
    + apply H2; [reflexivity | reflexivity |].
      right. eexists. reflexivity.
Defined.

(** ** The offsets of the delimiter *)

(** Consecutive offsets are at least [blen] apart. *)
Fixpoint spaced (blen : nat) (positions : list nat) : Prop :=
  match positions with
  | p0 :: ((p1 :: _) as rest) => p0 + blen <= p1 /\ spaced blen rest
  | _ => True
  end.

Lemma occurs_at_skipn (pat buffer : Buffer) (pos n : nat) :
  occurs_at pat (skipn pos buffer) n = occurs_at pat buffer (pos + n).
Proof. unfold occurs_at. rewrite skipn_skipn, Nat.add_comm. reflexivity. Qed.

Lemma occurs_at_inside (pat buffer : Buffer) (k : nat) :
  pat <> [] -> occurs_at pat buffer k = true -> k < length buffer.
Proof.
  intros Hpat H. unfold occurs_at in H.
  destruct (Nat.lt_ge_cases k (length buffer)) as [Hlt|Hge]; [exact Hlt|].
  rewrite skipn_all2 in H by exact Hge.
  destruct pat; [congruence | discriminate H].
Qed.

(** [indexOf] returns the first occurrence at or after [pos]. *)
Lemma indexOf_first (buffer pat : Buffer) (pos i : nat) :
  indexOf buffer pat pos = Some i ->
  pos <= i /\ occurs_at pat buffer i = true
  /\ forall k, pos <= k -> k < i -> occurs_at pat buffer k = false.
Proof.
  unfold indexOf. destruct (find_first pat (skipn pos buffer)) as [n|] eqn:E;
    [|discriminate].
  intros H. injection H as <-. apply find_first_first_at in E.
  destruct E as [Hocc Hmin]. split; [lia|]. split.
  - rewrite <- occurs_at_skipn. exact Hocc.
  - intros k H1 H2. replace k with (pos + (k - pos)) by lia.
    rewrite <- occurs_at_skipn. apply Hmin. lia.
Qed.

Lemma indexOf_none (buffer pat : Buffer) (pos k : nat) :
  indexOf buffer pat pos = None -> pos <= k -> occurs_at pat buffer k = false.
Proof.
  unfold indexOf. destruct (find_first pat (skipn pos buffer)) as [n|] eqn:E;
    [discriminate|].
  intros _ Hk. destruct (occurs_at pat buffer k) eqn:O; [|reflexivity].
  replace k with (pos + (k - pos)) in O by lia.
  rewrite <- occurs_at_skipn in O.
  destruct (find_first_occurs _ _ _ O) as [n H]. congruence.
Qed.

Lemma positions_loop_sound (buffer pat : Buffer) (fuel : nat) :
  pat <> [] ->
  forall pos,
    Forall (fun p => pos <= p /\ occurs_at pat buffer p = true)
      (positions_loop fuel buffer pat pos)
    /\ spaced (length pat) (positions_loop fuel buffer pat pos).
Proof.
  intros Hpat. induction fuel as [|fuel IH]; intros pos; simpl.
  - split; constructor.
  - destruct (indexOf buffer pat pos) as [i|] eqn:E; [|split; constructor].
    destruct (indexOf_first _ _ _ _ E) as [Hle [Hocc _]].
    destruct (IH (i + length pat)) as [IH1 IH2]. split.
    + constructor; [split; assumption|].
      eapply Forall_impl; [|exact IH1]. intros p [Hp Ho]. split; [lia | exact Ho].
    + destruct (positions_loop fuel buffer pat (i + length pat)) as [|p1 rest] eqn:P;
        [exact I|].
      split; [|exact IH2].
      apply Forall_inv in IH1. lia.
Qed.

Lemma positions_loop_complete (buffer pat : Buffer) (fuel : nat) :
  pat <> [] ->
  forall pos k,
    length buffer < pos + fuel ->
    pos <= k -> occurs_at pat buffer k = true ->
    exists p, In p (positions_loop fuel buffer pat pos)
              /\ p <= k /\ k < p + length pat.
Proof.
  intros Hpat. induction fuel as [|fuel IH]; intros pos k Hfuel Hk Hocc.
  - apply occurs_at_inside in Hocc; [lia | exact Hpat].
  - simpl. destruct (indexOf buffer pat pos) as [i|] eqn:E.
    + destruct (indexOf_first _ _ _ _ E) as [Hle [_ Hmin]].
      assert (Hik : i <= k).
      { destruct (Nat.le_gt_cases i k) as [H|H]; [exact H|].
        rewrite (Hmin k Hk H) in Hocc. discriminate. }
      destruct (Nat.lt_ge_cases k (i + length pat)) as [Hin|Hout].
      * exists i. split; [left; reflexivity | lia].
      * assert (Hlen : 0 < length pat) by (destruct pat; [congruence | simpl; lia]).
        destruct (IH (i + length pat) k) as [p [Hp Hpk]]; [lia | exact Hout | exact Hocc |].
        exists p. split; [right; exact Hp | exact Hpk].
    + rewrite (indexOf_none _ _ _ _ E Hk) in Hocc. discriminate.
Qed.

(** X14. The offsets loop ends (more rounds than the length of the buffer
    add nothing) and records the occurrences of the delimiter from the left,
    without overlap: every recorded offset is an occurrence lying inside the
    buffer, consecutive recorded offsets are at least a delimiter apart, and
    an occurrence that is not recorded begins inside a recorded one. *)
Theorem boundary_offsets_greedy (buffer : Buffer) (boundary : string) :
  let delimiter := Buffer_from (String.append "--" boundary) in
  let positions := boundaryPositions buffer delimiter in
  (forall more, positions_loop (S (length buffer) + more) buffer delimiter 0
                = positions)
  /\ Forall (fun p => occurs_at delimiter buffer p = true
                      /\ p + length delimiter <= length buffer) positions
  /\ spaced (length delimiter) positions
  /\ forall k, occurs_at delimiter buffer k = true ->
       exists p, In p positions /\ p <= k /\ k < p + length delimiter.
Proof.
  intros delimiter positions.
  assert (Hpat : delimiter <> []) by apply delimiter_nonempty.
  destruct (positions_loop_sound buffer delimiter (S (length buffer)) Hpat 0)
    as [H1 H2].
  split; [|split; [|split]].
  - intros more. apply boundaryPositions_fuel, Hpat.
  - eapply Forall_impl; [|exact H1]. intros p [_ Ho]. split; [exact Ho|].
    unfold occurs_at in Ho. apply starts_with_iff in Ho. destruct Ho as [rest Ho].
    assert (L : length (skipn p buffer) = length delimiter + length rest).
    { rewrite Ho, length_app. reflexivity. }
    rewrite length_skipn in L.
    assert (0 < length delimiter)
      by (destruct delimiter; [congruence | simpl; lia]).
    lia.
  - exact H2.
  - intros k Hk.
    apply (positions_loop_complete buffer delimiter (S (length buffer)) Hpat 0 k);
      [lia | lia | exact Hk].
Qed.

(** ** Records and stored bytes go together *)

(** The identifiers [generateUniqueId] returns have neither dot nor slash. *)
Definition generated_ids (ev : Event) : Prop :=
  match ev with
  | UploadEnd _ _ _ _ _ fileId _ => plain_id fileId
  | _ => True
  end.

(** The states the server reaches from empty stores and an empty upload
    directory. *)
Inductive reachable_from_empty : State -> Prop :=
| from_empty : reachable_from_empty (mkState [] [] [])
| from_step ev st :
    reachable_from_empty st -> admissible ev st -> generated_ids ev ->
    reachable_from_empty (snd (run ev st)).

(** Every record names a stored file that resolves to the record's
    identifier and has the recorded size, and every stored file has its
    record. *)
Record Stored (st : State) : Prop := mkStored {
  stored_resolves : forall k m,
    dict_get k (fileDatabase st) = Some m -> file_id_of (filename m) = k;
  stored_bytes : forall k m,
    dict_get k (fileDatabase st) = Some m ->
    exists data, dict_get (filename m) (uploads st) = Some data
                 /\ size m = length data;
  stored_owner : forall p data,
    dict_get p (uploads st) = Some data ->
    exists m, dict_get (file_id_of p) (fileDatabase st) = Some m /\ filename m = p
}.

Lemma dict_get_delete_some {V : Type} (k k' : string) (d : dict V) (v : V) :
  dict_get k (dict_delete k' d) = Some v -> k <> k' /\ dict_get k d = Some v.
Proof.
  intros H. destruct (String.eqb k k') eqn:E.
  - apply String.eqb_eq in E. subst k'. rewrite dict_get_delete_same in H.
    discriminate.
  - apply String.eqb_neq in E. rewrite dict_get_delete_other in H by exact E.
    split; assumption.
Qed.

Lemma dict_get_set_some {V : Type} (k k' : string) (d : dict V) (v v' : V) :
  dict_get k (dict_set k' v' d) = Some v ->
  (k = k' /\ v = v') \/ (k <> k' /\ dict_get k d = Some v).
Proof.
  intros H. destruct (String.eqb k k') eqn:E.
  - apply String.eqb_eq in E. subst k'. rewrite dict_get_set_same in H.
    injection H as <-. left. split; reflexivity.
  - apply String.eqb_neq in E. rewrite dict_get_set_other in H by exact E.
    right. split; assumption.
Qed.

Lemma stored_sessions (st st' : State) :
  fileDatabase st' = fileDatabase st -> uploads st' = uploads st ->
  Stored st -> Stored st'.
Proof.
  intros Hdb Hdisk [H1 H2 H3]. constructor; rewrite ?Hdb, ?Hdisk; assumption.
Qed.

Lemma stored_remove (st : State) (k : string) (m : FileRecord)
  (sessions : dict Session) :
  (forall m', dict_get k (fileDatabase st) = Some m' -> m' = m) ->
  file_id_of (filename m) = k ->
  Stored st ->
  Stored (mkState (dict_delete k (fileDatabase st)) sessions
            (dict_delete (filename m) (uploads st))).
Proof.
  intros Hsnap Hk [H1 H2 H3]. constructor; cbn [fileDatabase uploads].
  - intros k' m' H. apply dict_get_delete_some in H. destruct H as [_ H].
    exact (H1 _ _ H).
  - intros k' m' H. apply dict_get_delete_some in H. destruct H as [Hne H].
    destruct (H2 _ _ H) as [data [Hd Hs]]. exists data. split; [|exact Hs].
    rewrite dict_get_delete_other; [exact Hd|].
    intros E. apply Hne. rewrite <- (H1 _ _ H), E. exact Hk.
  - intros p data H. apply dict_get_delete_some in H. destruct H as [Hne H].
    destruct (H3 _ _ H) as [m' [Hm' Hf]]. exists m'. split; [|exact Hf].
    rewrite dict_get_delete_other; [exact Hm'|].
    intros E. rewrite E in Hm'. apply Hsnap in Hm'. subst m'. congruence.
Qed.

Lemma stored_update (st : State) (k : string) (m m' : FileRecord) :
  dict_get k (fileDatabase st) = Some m ->
  filename m' = filename m -> size m' = size m ->
  Stored st ->
  Stored (mkState (dict_set k m' (fileDatabase st)) (userSessions st) (uploads st)).
Proof.
  intros Hm Hf Hsz [H1 H2 H3]. constructor; cbn [fileDatabase uploads].
  - intros k' r H. apply dict_get_set_some in H.
    destruct H as [[-> ->]|[_ H]]; [rewrite Hf; exact (H1 _ _ Hm) | exact (H1 _ _ H)].
  - intros k' r H. apply dict_get_set_some in H.
    destruct H as [[-> ->]|[_ H]]; [rewrite Hf, Hsz; exact (H2 _ _ Hm) | exact (H2 _ _ H)].
  - intros p data H. destruct (H3 _ _ H) as [r [Hr Hrf]].
    destruct (String.eqb (file_id_of p) k) eqn:E.
    + apply String.eqb_eq in E. rewrite E in *. rewrite dict_get_set_same.
      exists m'. split; [reflexivity|]. congruence.
    + apply String.eqb_neq in E. rewrite dict_get_set_other by exact E.
      exists r. split; assumption.
Qed.

Lemma stored_add (st : State) (fileId key : string) (m : FileRecord)
  (content : Buffer) (sessions : dict Session) :
  dict_get fileId (fileDatabase st) = None ->
  file_id_of key = fileId ->
  filename m = key -> size m = length content ->
  Stored st ->
  Stored (mkState (dict_set fileId m (fileDatabase st)) sessions
            (dict_set key content (uploads st))).
Proof.
  intros Hfresh Hkey Hf Hsz [H1 H2 H3]. constructor; cbn [fileDatabase uploads].
  - intros k r H. apply dict_get_set_some in H.
    destruct H as [[-> ->]|[_ H]]; [congruence | exact (H1 _ _ H)].
  - intros k r H. apply dict_get_set_some in H.
    destruct H as [[-> ->]|[Hne H]].
    + exists content. rewrite Hf, dict_get_set_same. split; [reflexivity | exact Hsz].
    + destruct (H2 _ _ H) as [data [Hd Hs]]. exists data. split; [|exact Hs].
      rewrite dict_get_set_other; [exact Hd|].
      intros E. apply Hne. rewrite <- (H1 _ _ H), E. exact Hkey.
  - intros p data H. apply dict_get_set_some in H.
    destruct H as [[-> ->]|[Hne H]].
    + exists m. rewrite Hkey, dict_get_set_same. split; [reflexivity | exact Hf].
    + destruct (H3 _ _ H) as [r [Hr Hrf]]. exists r. split; [|exact Hrf].
      rewrite dict_get_set_other; [exact Hr|].
      intros E. rewrite E in Hr. congruence.
Qed.

Lemma upload_end_stored (io : FsFaults) (sid : string) (ct : option string)
  (host : string) (buffer : Buffer) (fileId : string) (now : Z) (st : State) :
  dict_get fileId (fileDatabase st) = None -> plain_id fileId ->
  Stored st -> Stored (snd (upload_end io sid ct host buffer fileId now st)).
Proof.
  intros Hfresh Hid H. unfold upload_end.
  destruct (boundaryMatch _) as [boundary|]; [|exact H].
  destruct (fileName _) as [name|]; [|exact H].
  destruct (fileContent _) as [content|]; [|exact H].
  destruct (truthy name); [|exact H].
  unfold writeFileSync. destruct (write_fails io _); [exact H|].
  destruct (dict_get sid (userSessions st)); cbn [snd];
    apply stored_add; try assumption; try reflexivity;
    apply storage_key_resolves, Hid.
Qed.

Lemma download_stored (name : string) (st : State) :
  Stored st -> Stored (snd (download name st)).
Proof.
  intros H. rewrite download_eq.
  destruct (dict_get name (uploads st)); [|exact H].
  destruct (dict_get (file_id_of name) (fileDatabase st)) as [m|] eqn:Hm; [|exact H].
  destruct (checkInvalidHeaderChar (originalName m)); [exact H|].
  cbn [snd]. apply (stored_update st _ m); [exact Hm | reflexivity | reflexivity | exact H].
Qed.

Lemma download_finish_stored (io : FsFaults) (name : string) (st : State) :
  Stored st -> Stored (download_finish io name st).
Proof.
  intros H. rewrite download_finish_eq.
  destruct (existsSync name (uploads st) && negb (unlink_fails io name)) eqn:E;
    [|exact H].
  apply andb_prop in E. destruct E as [E _]. unfold existsSync, dict_has in E.
  destruct (dict_get name (uploads st)) as [data|] eqn:Hd; [|discriminate].
  destruct (stored_owner st H _ _ Hd) as [m [Hm Hf]]. rewrite Hm.
  rewrite <- Hf at 3. apply stored_remove; [congruence | congruence | exact H].
Qed.

Lemma reset_file_stored (io : FsFaults) (st : State) (fileId : string) :
  Stored st -> Stored (reset_file io st fileId).
Proof.
  intros H. rewrite reset_file_eq.
  destruct (dict_get fileId (fileDatabase st)) as [m|] eqn:Hm; [|exact H].
  destruct (unlink_goes_through io _ _); [|exact H].
  apply stored_remove; [congruence | exact (stored_resolves st H _ _ Hm) | exact H].
Qed.

Lemma reset_session_stored (io : FsFaults) (sid newId : string) (now : Z)
  (st : State) :
  Stored st -> Stored (snd (reset_session io sid newId now st)).
Proof.
  intros H. unfold reset_session. cbn [snd].
  apply (stored_sessions
           (match dict_get sid (userSessions st) with
            | Some s => fold_left (reset_file io) (files s) st
            | None => st
            end)).
  - destruct (dict_get sid (userSessions st)); reflexivity.
  - destruct (dict_get sid (userSessions st)); reflexivity.
  - destruct (dict_get sid (userSessions st)) as [s|]; [|exact H].
    generalize (files s). intros ids. revert st H.
    induction ids as [|f ids IH]; intros st H; [exact H|].
    simpl. apply IH, reset_file_stored, H.
Qed.

Lemma sweep_entries_stored (io : FsFaults) (now : Z)
  (entries : list (string * FileRecord)) :
  forall st,
    snapshot_of entries st ->
    (forall k m, In (k, m) entries -> file_id_of (filename m) = k) ->
    Stored st -> Stored (sweep_entries io now entries st).
Proof.
  induction entries as [|[k m] entries IH]; intros st Hsnap Hres H; [exact H|].
  change (sweep_entries io now ((k, m) :: entries) st)
    with (sweep_entries io now entries (sweep_file io now st (k, m))).
  apply IH.
  - intros k' m1 m2 Hin Hget. apply sweep_file_get_some in Hget.
    exact (Hsnap k' m1 m2 (or_intror Hin) Hget).
  - intros k' m' Hin. exact (Hres k' m' (or_intror Hin)).
  - rewrite sweep_file_eq. destruct (_ && _); [|exact H].
    apply stored_remove.
    + intros m' Hm'. exact (Hsnap k m m' (or_introl eq_refl) Hm').
    + exact (Hres k m (or_introl eq_refl)).
    + exact H.
Qed.

Lemma sweep_stored (io : FsFaults) (now : Z) (st : State) :
  NoDup (dict_keys (fileDatabase st)) -> Stored st -> Stored (sweep io now st).
Proof.
  intros Hkeys H. unfold sweep, sweep_sessions.
  destruct (sessions_swept_files now (userSessions (sweep_files io now st))
              (sweep_files io now st)) as [Hdb Hdisk].
  apply (stored_sessions (sweep_files io now st)); [exact Hdb | exact Hdisk|].
  apply sweep_entries_stored.
  - intros k m m' Hin Hget. apply (dict_In_get _ _ _ Hkeys) in Hin. congruence.
  - intros k m Hin. apply (dict_In_get _ _ _ Hkeys) in Hin.
    exact (stored_resolves st H _ _ Hin).
  - exact H.
Qed.

Lemma ensure_session_stored (token : option string) (freshId : string) (now : Z)
  (st : State) :
  Stored st -> Stored (snd (ensure_session token freshId now st)).
Proof.
  intros H. unfold ensure_session.
  destruct token as [t|]; [destruct (truthy t && _)|]; try exact H;
    apply (stored_sessions st); try reflexivity; exact H.
Qed.

Lemma run_stored (ev : Event) (st : State) :
  admissible ev st -> generated_ids ev ->
  NoDup (dict_keys (fileDatabase st)) ->
  Stored st -> Stored (snd (run ev st)).
Proof.
  intros Ha Hg Hkeys H.
  destruct ev as [token freshId now host route
                 |io sid contentType host buffer fileId now
                 |io name|io now]; simpl.
  - unfold handle_request.
    pose proof (ensure_session_stored token freshId now st H) as H1.
    destruct (ensure_session token freshId now st) as [[sid issued] st1].
    cbn [snd] in H1. destruct route as [| |io' newId|name].
    + destruct (dict_get sid (userSessions st1)); exact H1.
    + exact H1.
    + pose proof (reset_session_stored io' sid newId now st1 H1) as H2.
      destruct (reset_session io' sid newId now st1). exact H2.
    + pose proof (download_stored name st1 H1) as H2.
      destruct (download name st1). exact H2.
  - pose proof (upload_end_stored io sid contentType host buffer fileId now st
                  Ha Hg H) as H1.
    destruct (upload_end _ _ _ _ _ _ _ _). exact H1.
  - apply download_finish_stored, H.
  - apply sweep_stored; assumption.
Qed.

Lemma from_empty_reachable (st : State) : reachable_from_empty st -> reachable st.
Proof.
  induction 1 as [|ev st _ IH Ha _]; [apply reachable_start|].
  apply reachable_step; assumption.
Qed.

Lemma from_empty_stored (st : State) : reachable_from_empty st -> Stored st.
Proof.
  induction 1 as [|ev st Hr IH Ha Hg].
  - constructor; simpl; intros; discriminate.
  - apply run_stored; try assumption.
    exact (inv_keys st (reachable_inv st (from_empty_reachable st Hr))).
Qed.

(** X15. In every state reached from empty stores the file store and the
    upload directory agree: a record exists exactly when its bytes exist.
    Each record names a stored file of the recorded size, and each stored
    file belongs to the record its name resolves to. *)
Theorem records_and_bytes_agree (st : State) :
  reachable_from_empty st ->
  (forall fileId m,
     dict_get fileId (fileDatabase st) = Some m ->
     file_id_of (filename m) = fileId
     /\ exists data, dict_get (filename m) (uploads st) = Some data
                     /\ size m = length data)
  /\ (forall name data,
        dict_get name (uploads st) = Some data ->
        exists m, dict_get (file_id_of name) (fileDatabase st) = Some m
                  /\ filename m = name).
Proof.
  intros H. apply from_empty_stored in H. destruct H as [H1 H2 H3].
  split.
  - intros fileId m Hm. split; [exact (H1 _ _ Hm) | exact (H2 _ _ Hm)].
  - exact H3.
Qed.

Lemma from_empty_run_all (events : list Event) (st : State) :
  reachable_from_empty st ->
  admissible_all events st ->
  Forall generated_ids events ->
  reachable_from_empty (run_all events st).
Proof.
  revert st. induction events as [|ev events IH]; intros st Hr Ha Hg; [exact Hr|].
  destruct Ha as [Ha Hrest]. apply (IH (snd (run ev st))).
  - apply from_step; [exact Hr | exact Ha | exact (Forall_inv Hg)].
  - exact Hrest.
  - exact (Forall_inv_tail Hg).
Defined.

Lemma two_sessions_from_empty : reachable_from_empty two_sessions_state.
Proof.
  apply from_empty_run_all; [apply from_empty | |].
  - simpl. repeat split; try discriminate.
  - repeat constructor; discriminate.
Defined.

Lemma records_and_bytes_sample :
  (forall fileId m,
     dict_get fileId (fileDatabase two_sessions_state) = Some m ->
     file_id_of (filename m) = fileId
     /\ exists data, dict_get (filename m) (uploads two_sessions_state) = Some data
                     /\ size m = length data)
  /\ (forall name data,
        dict_get name (uploads two_sessions_state) = Some data ->
        exists m, dict_get (file_id_of name) (fileDatabase two_sessions_state) = Some m
                  /\ filename m = name).
Proof. exact (records_and_bytes_agree two_sessions_state two_sessions_from_empty). Defined.

(** X16. The entries of a listing are backed by stored files: in a state
    reached from empty stores, the link of a listed file names stored bytes
    and the listed size is their number.  When that name is one a request
    path carries as it is, a request for it is served those bytes under the
    original name if the name holds only characters that a header value may
    carry; if not, the handler throws at [res.setHeader]. *)
Theorem listed_file_downloadable (st : State) (host : string) (ids : list string)
  (e : FileInfo) :
  reachable_from_empty st ->
  In e (sessionFiles host (fileDatabase st) ids) ->
  exists name data,
    info_downloadLink e = downloadLink host name
    /\ info_size e = length data
    /\ dict_get name (uploads st) = Some data
    /\ (url_segment name = true ->
        fst (download name st)
        = if checkInvalidHeaderChar (info_originalName e)
          then throws "ERR_INVALID_CHAR"
          else mkReply 200
                 (FileStream (content_disposition (info_originalName e))
                             (getContentType name) data)).
Proof.
  intros H He. apply from_empty_stored in H.
  destruct (sessionFiles_In _ _ _ _ He) as [_ [m [Hm Heq]]].
  destruct (stored_bytes st H _ _ Hm) as [data [Hd Hs]].
  exists (filename m), data. rewrite Heq. cbn [info_downloadLink info_size info_originalName].
  split; [reflexivity|]. split; [exact Hs|]. split; [exact Hd|].
  intros _. rewrite download_eq, Hd, (stored_resolves st H _ _ Hm), Hm.
  destruct (checkInvalidHeaderChar (originalName m)); reflexivity.
Qed.

Lemma listed_file_sample :
  exists name data,
    info_downloadLink
      (mkFileInfo id_a "a.txt" 6 10 (10 + FILE_EXPIRY)
         (downloadLink "h" (String.append id_a ".txt")))
    = downloadLink "h" name
    /\ info_size
         (mkFileInfo id_a "a.txt" 6 10 (10 + FILE_EXPIRY)
            (downloadLink "h" (String.append id_a ".txt")))
       = length data
    /\ dict_get name (uploads two_sessions_state) = Some data
    /\ (url_segment name = true ->
        fst (download name two_sessions_state)
        = if checkInvalidHeaderChar
               (info_originalName
                  (mkFileInfo id_a "a.txt" 6 10 (10 + FILE_EXPIRY)
                     (downloadLink "h" (String.append id_a ".txt"))))
          then throws "ERR_INVALID_CHAR"
          else mkReply 200
                 (FileStream
                    (content_disposition
                       (info_originalName
                          (mkFileInfo id_a "a.txt" 6 10 (10 + FILE_EXPIRY)
                             (downloadLink "h" (String.append id_a ".txt")))))
                    (getContentType name) data)).
Proof.
  apply (listed_file_downloadable two_sessions_state "h" [id_a]).
  - exact two_sessions_from_empty.
  - left. vm_compute. reflexivity.
Defined.

(** ** The session cookie: [getSessionId] *)

(** [s.split(sep)] for a separator of one character. *)
Fixpoint split_on (sep : ascii) (s : string) : list string :=
  match s with
  | EmptyString => [EmptyString]
  | String c s' =>
      if Ascii.eqb c sep then EmptyString :: split_on sep s'
      else
        match split_on sep s' with
        | piece :: pieces => String c piece :: pieces
        | [] => [String c EmptyString]
        end
  end.

Definition code (c : ascii) : nat := nat_of_ascii c.

(** The white space and line terminators [trim] removes: the six of ASCII,
    and, by the bytes of their encoding, U+00A0, U+1680, U+2000 to U+200A,
    U+2028, U+2029, U+202F, U+205F, U+3000 and U+FEFF. *)
Definition ascii_space (c : ascii) : bool :=
  (((9 <=? code c) && (code c <=? 13)) || (code c =? 32))%nat.

Definition space2 (a b : ascii) : bool :=
  ((code a =? 194) && (code b =? 160))%nat.

Definition space3 (a b c : ascii) : bool :=
  (((code a =? 225) && (code b =? 154) && (code c =? 128))
   || ((code a =? 226) && (code b =? 128)
       && (((128 <=? code c) && (code c <=? 138))
           || (code c =? 168) || (code c =? 169) || (code c =? 175)))
   || ((code a =? 226) && (code b =? 129) && (code c =? 159))
   || ((code a =? 227) && (code b =? 128) && (code c =? 128))
   || ((code a =? 239) && (code b =? 187) && (code c =? 191)))%nat.

(** Removal of leading white space, the encodings being recognised by [two]
    and [three]. *)
Fixpoint strip (two : ascii -> ascii -> bool)
  (three : ascii -> ascii -> ascii -> bool) (l : list ascii) : list ascii :=
  match l with
  | c1 :: l1 =>
      if ascii_space c1 then strip two three l1
      else
        match l1 with
        | c2 :: l2 =>
            if two c1 c2 then strip two three l2
            else
              match l2 with
              | c3 :: l3 => if three c1 c2 c3 then strip two three l3 else l
              | [] => l
              end
        | [] => l
        end
  | [] => []
  end.

(** [s.trim()]: the front is stripped, then the back, read backwards. *)
Definition trim (s : string) : string :=
  let front := strip space2 space3 (list_ascii_of_string s) in
  string_of_list_ascii
    (rev (strip (fun a b => space2 b a) (fun a b c => space3 c b a) (rev front))).

Definition equals_sign : ascii := ascii_of_nat 61.

(** The [for] loop over the pairs: [None] is [null], or the [undefined] of
    a pair named sessionId that has no equals sign. *)
Fixpoint session_pair (pairs : list string) : option string :=
  match pairs with
  | [] => None
  | cookiePair :: rest =>
      match split_on equals_sign (trim cookiePair) with
      | name :: values =>
          if String.eqb name "sessionId"
          then match values with value :: _ => Some value | [] => None end
          else session_pair rest
      | [] => session_pair rest
      end
  end.

(** [cookieHeader] is [req.headers.cookie]. *)
Definition getSessionId (cookieHeader : option string) : option string :=
  let cookies :=
    match cookieHeader with
    | Some c => if truthy c then c else EmptyString
    | None => EmptyString
    end in
  session_pair (split_on semicolon cookies).

(** ** Cookie headers as a browser writes them *)

(** A visible ASCII character other than the semicolon and the equals
    sign. *)
Definition cookie_char (c : ascii) : bool :=
  ((33 <=? code c) && (code c <=? 126))%nat
  && negb (Ascii.eqb c semicolon) && negb (Ascii.eqb c equals_sign).

Definition cookie_text (s : string) : bool :=
  forallb cookie_char (list_ascii_of_string s).

Definition cookie_pair (p : string * string) : string :=
  String.append (fst p) (String equals_sign (snd p)).

(** name=value pairs separated by a semicolon and a space. *)
Fixpoint cookie_header (pairs : list (string * string)) : string :=
  match pairs with
  | [] => EmptyString
  | [p] => cookie_pair p
  | p :: rest => String.append (cookie_pair p) (String.append "; " (cookie_header rest))
  end.

Definition well_formed_pair (p : string * string) : Prop :=
  fst p <> EmptyString /\ cookie_text (fst p) = true /\ cookie_text (snd p) = true.

Lemma split_on_free (sep : ascii) (a : string) :
  forallb (fun c => negb (Ascii.eqb c sep)) (list_ascii_of_string a) = true ->
  split_on sep a = [a].
Proof.
  induction a as [|c a IH]; simpl; intros H; [reflexivity|].
  apply andb_prop in H. destruct H as [Hc H]. apply negb_true_iff in Hc.
  rewrite Hc, (IH H). reflexivity.
Qed.

Lemma split_on_app (sep : ascii) (a b : string) :
  forallb (fun c => negb (Ascii.eqb c sep)) (list_ascii_of_string a) = true ->
  split_on sep (String.append a (String sep b)) = a :: split_on sep b.
Proof.
  induction a as [|c a IH]; simpl; intros H.
  - rewrite Ascii.eqb_refl. reflexivity.
  - apply andb_prop in H. destruct H as [Hc H]. apply negb_true_iff in Hc.
    rewrite Hc, (IH H). reflexivity.
Qed.

Definition visible (c : ascii) : bool := ((33 <=? code c) && (code c <=? 126))%nat.

Lemma visible_bounds (c : ascii) : visible c = true -> 33 <= code c <= 126.
Proof.
  unfold visible. intros H. apply andb_prop in H. destruct H as [H1 H2].
  apply Nat.leb_le in H1. apply Nat.leb_le in H2. lia.
Qed.

Lemma eqb_false_of_lt (n m : nat) : n < m -> (n =? m)%nat = false.
Proof. intros H. apply Nat.eqb_neq. lia. Qed.

Lemma visible_not_space (c : ascii) : visible c = true -> ascii_space c = false.
Proof.
  intros H. apply visible_bounds in H. unfold ascii_space.
  apply orb_false_intro.
  - apply andb_false_intro2. apply Nat.leb_gt. lia.
  - apply Nat.eqb_neq. lia.
Qed.

Lemma visible_not_lead2 (c b : ascii) : visible c = true -> space2 c b = false.
Proof.
  intros H. apply visible_bounds in H. unfold space2.
  rewrite (eqb_false_of_lt (code c) 194) by lia. reflexivity.
Qed.

Lemma visible_not_lead3 (c b d : ascii) : visible c = true -> space3 c b d = false.
Proof.
  intros H. apply visible_bounds in H. unfold space3.
  rewrite (eqb_false_of_lt (code c) 225), (eqb_false_of_lt (code c) 226),
    (eqb_false_of_lt (code c) 227), (eqb_false_of_lt (code c) 239) by lia.
  reflexivity.
Qed.

Lemma visible_not_tail2 (c b : ascii) : visible c = true -> space2 b c = false.
Proof.
  intros H. apply visible_bounds in H. unfold space2.
  rewrite (eqb_false_of_lt (code c) 160) by lia. apply andb_false_r.
Qed.

Lemma visible_not_tail3 (c b d : ascii) : visible c = true -> space3 d b c = false.
Proof.
  intros H. apply visible_bounds in H. unfold space3.
  rewrite (eqb_false_of_lt (code c) 128), (eqb_false_of_lt (code c) 168),
    (eqb_false_of_lt (code c) 169), (eqb_false_of_lt (code c) 175),
    (eqb_false_of_lt (code c) 159), (eqb_false_of_lt (code c) 191) by lia.
  assert (E : (128 <=? code c)%nat = false) by (apply Nat.leb_gt; lia).
  rewrite E. simpl. rewrite !andb_false_r. reflexivity.
Qed.

Lemma strip_fixed (two : ascii -> ascii -> bool)
  (three : ascii -> ascii -> ascii -> bool) (c : ascii) (l : list ascii) :
  ascii_space c = false ->
  (forall b, two c b = false) ->
  (forall b d, three c b d = false) ->
  strip two three (c :: l) = c :: l.
Proof.
  intros H1 H2 H3. simpl. rewrite H1.
  destruct l as [|b l]; [reflexivity|]. rewrite H2.
  destruct l as [|d l]; [reflexivity|]. rewrite H3. reflexivity.
Qed.

(** Text between two visible ASCII characters is left whole by [trim], and a
    space before it is removed. *)
Lemma trim_visible (first last : ascii) (mid : list ascii) (lead : bool) :
  visible first = true -> visible last = true ->
  let text := first :: mid ++ [last] in
  trim (string_of_list_ascii (if lead then " "%char :: text else text))
  = string_of_list_ascii text.
Proof.
  intros Hf Hl text. unfold trim. rewrite list_ascii_of_string_of_list_ascii.
  assert (E : strip space2 space3 (if lead then " "%char :: text else text) = text).
  { destruct lead.
    - change (strip space2 space3 (" "%char :: text)) with (strip space2 space3 text).
      apply strip_fixed; [apply visible_not_space, Hf | |];
        intros; [apply visible_not_lead2 | apply visible_not_lead3]; exact Hf.
    - apply strip_fixed; [apply visible_not_space, Hf | |];
        intros; [apply visible_not_lead2 | apply visible_not_lead3]; exact Hf. }
  rewrite E. subst text.
  change (first :: mid ++ [last]) with ((first :: mid) ++ [last]).
  generalize (first :: mid). intros body.
  rewrite rev_app_distr.
  change (rev [last] ++ rev body) with (last :: rev body).
  rewrite strip_fixed.
  - change (rev (last :: rev body)) with (rev (rev body) ++ [last]).
    rewrite rev_involutive. reflexivity.
  - apply visible_not_space, Hl.
  - intros b. apply visible_not_tail2, Hl.
  - intros b d. apply visible_not_tail3, Hl.
Qed.

Lemma cookie_char_visible (c : ascii) : cookie_char c = true -> visible c = true.
Proof.
  unfold cookie_char, visible. intros H.
  apply andb_prop in H. destruct H as [H _].
  apply andb_prop in H. destruct H as [H _]. exact H.
Qed.

Lemma cookie_text_free (sep : ascii) (s : string) :
  sep = semicolon \/ sep = equals_sign ->
  cookie_text s = true ->
  forallb (fun c => negb (Ascii.eqb c sep)) (list_ascii_of_string s) = true.
Proof.
  intros Hsep H. unfold cookie_text in H. rewrite forallb_forall in *.
  intros c Hc. specialize (H c Hc). unfold cookie_char in H.
  apply andb_prop in H. destruct H as [H H2].
  apply andb_prop in H. destruct H as [_ H1].
  destruct Hsep as [->| ->]; assumption.
Qed.

(** A pair is text between two visible characters. *)
Lemma cookie_pair_visible (p : string * string) :
  well_formed_pair p ->
  exists first mid last,
    visible first = true /\ visible last = true
    /\ cookie_pair p = string_of_list_ascii (first :: mid ++ [last]).
Proof.
  destruct p as [n v]. intros [Hne [Hn Hv]]. unfold cookie_pair. cbn [fst snd] in *.
  destruct n as [|first n]; [congruence|].
  assert (Hfirst : visible first = true).
  { apply cookie_char_visible. unfold cookie_text in Hn. simpl in Hn.
    apply andb_prop in Hn. tauto. }
  assert (Heq : visible equals_sign = true) by reflexivity.
  assert (L : String first (String.append n (String equals_sign v))
              = string_of_list_ascii
                  (first :: list_ascii_of_string n
                            ++ equals_sign :: list_ascii_of_string v)).
  { cbn [string_of_list_ascii]. rewrite string_of_list_app.
    cbn [string_of_list_ascii]. rewrite !string_of_list_ascii_of_string.
    reflexivity. }
  cbn [String.append]. rewrite L. clear L.
  destruct (list_ascii_of_string v) as [|x l] eqn:Ev using rev_ind.
  - exists first, (list_ascii_of_string n), equals_sign.
    split; [exact Hfirst|]. split; [exact Heq | reflexivity].
  - clear IHl. exists first, (list_ascii_of_string n ++ equals_sign :: l), x.
    split; [exact Hfirst|]. split.
    + apply cookie_char_visible. unfold cookie_text in Hv. rewrite Ev in Hv.
      rewrite forallb_app in Hv. apply andb_prop in Hv. destruct Hv as [_ Hv].
      simpl in Hv. apply andb_prop in Hv. tauto.
    + rewrite <- app_assoc. reflexivity.
Qed.

Lemma trim_cookie_pair (p : string * string) (lead : bool) :
  well_formed_pair p ->
  trim (if lead then String " " (cookie_pair p) else cookie_pair p) = cookie_pair p.
Proof.
  intros H. destruct (cookie_pair_visible p H) as [f [mid [l [Hf [Hl E]]]]].
  rewrite E.
  pose proof (trim_visible f l mid lead Hf Hl) as T. cbv zeta in T.
  destruct lead; exact T.
Qed.

Lemma split_cookie_pair (p : string * string) :
  well_formed_pair p ->
  split_on equals_sign (cookie_pair p) = [fst p; snd p].
Proof.
  intros [_ [Hn Hv]]. unfold cookie_pair.
  rewrite split_on_app by (apply cookie_text_free; [right; reflexivity | exact Hn]).
  rewrite split_on_free by (apply cookie_text_free; [right; reflexivity | exact Hv]).
  reflexivity.
Qed.

Lemma cookie_pair_free (p : string * string) :
  well_formed_pair p ->
  forallb (fun c => negb (Ascii.eqb c semicolon))
    (list_ascii_of_string (cookie_pair p)) = true.
Proof.
  intros [_ [Hn Hv]]. unfold cookie_pair.
  rewrite list_ascii_append, forallb_app.
  rewrite (cookie_text_free semicolon _ (or_introl eq_refl) Hn).
  cbn [list_ascii_of_string forallb].
  rewrite (cookie_text_free semicolon _ (or_introl eq_refl) Hv). reflexivity.
Qed.

(** The pieces of a header: the first pair, and the others after a space. *)
Lemma session_pair_header (pairs : list (string * string)) (lead : bool) :
  pairs <> [] ->
  Forall well_formed_pair pairs ->
  session_pair
    (split_on semicolon
       (if lead then String " " (cookie_header pairs) else cookie_header pairs))
  = dict_get "sessionId" pairs.
Proof.
  intros Hne H. revert lead. induction H as [|p rest Hp Hrest IH]; [congruence|].
  intros lead. destruct rest as [|q rest].
  - assert (S : split_on semicolon
                  (if lead then String " " (cookie_header [p]) else cookie_header [p])
                = [if lead then String " " (cookie_pair p) else cookie_pair p]).
    { apply split_on_free. destruct lead; [|apply cookie_pair_free, Hp].
      cbn [list_ascii_of_string forallb cookie_header].
      rewrite (cookie_pair_free p Hp). reflexivity. }
    rewrite S. cbn [session_pair].
    rewrite (trim_cookie_pair p lead Hp), (split_cookie_pair p Hp).
    destruct p as [n v]. cbn [fst snd dict_get]. rewrite String.eqb_sym.
    destruct (String.eqb "sessionId" n); reflexivity.
  - assert (S : split_on semicolon
                  (if lead then String " " (cookie_header (p :: q :: rest))
                   else cookie_header (p :: q :: rest))
                = (if lead then String " " (cookie_pair p) else cookie_pair p)
                  :: split_on semicolon (String " " (cookie_header (q :: rest)))).
    { change (cookie_header (p :: q :: rest))
        with (String.append (cookie_pair p)
                (String semicolon (String " " (cookie_header (q :: rest))))).
      destruct lead.
      - change (String " " (String.append (cookie_pair p)
                  (String semicolon (String " " (cookie_header (q :: rest))))))
          with (String.append (String " " (cookie_pair p))
                  (String semicolon (String " " (cookie_header (q :: rest))))).
        apply split_on_app. cbn [list_ascii_of_string forallb].
        rewrite (cookie_pair_free p Hp). reflexivity.
      - apply split_on_app, cookie_pair_free, Hp. }
    rewrite S. cbn [session_pair].
    rewrite (trim_cookie_pair p lead Hp), (split_cookie_pair p Hp).
    specialize (IH ltac:(discriminate) true). cbv beta iota in IH.
    destruct p as [n v]. cbn [fst snd]. cbn [dict_get]. rewrite String.eqb_sym.
    destruct (String.eqb "sessionId" n); [reflexivity | exact IH].
Qed.

Lemma cookie_header_truthy (pairs : list (string * string)) :
  pairs <> [] -> Forall well_formed_pair pairs ->
  truthy (cookie_header pairs) = true.
Proof.
  intros Hne H. destruct pairs as [|p rest]; [congruence|].
  destruct (cookie_pair_visible p (Forall_inv H)) as [f [mid [l [_ [_ Hp]]]]].
  destruct rest; cbn [cookie_header]; rewrite Hp; reflexivity.
Qed.

(** X17. Reading the cookie header: for a header of well-formed name=value
    pairs separated by a semicolon and a space, [getSessionId] returns the
    value of the first pair named sessionId, and nothing when no pair has
    that name or no header was sent. *)
Theorem session_cookie_read (pairs : list (string * string)) :
  Forall well_formed_pair pairs ->
  getSessionId (Some (cookie_header pairs)) = dict_get "sessionId" pairs
  /\ getSessionId None = None.
Proof.
  intros H. split; [|reflexivity].
  destruct pairs as [|p rest] eqn:E; [reflexivity|]. rewrite <- E in *.
  assert (Hne : pairs <> []) by (rewrite E; discriminate).
  unfold getSessionId. rewrite (cookie_header_truthy pairs Hne H).
  exact (session_pair_header pairs false Hne H).
Qed.

(** Three cookies, two of them named sessionId. *)
Definition sample_cookies : list (string * string) :=
  [("theme", "dark"); ("sessionId", "abc123"); ("sessionId", "zzz")].

Lemma session_cookie_sample :
  getSessionId (Some (cookie_header sample_cookies))
  = dict_get "sessionId" sample_cookies
  /\ getSessionId None = None.
Proof.
  apply (session_cookie_read sample_cookies).
  repeat constructor; discriminate.
Defined.

(** X18. A client keeps its session: when a request that names no session
    (no token, or a token that is neither the key of a session nor a name
    every object inherits) was given the session [freshId], a later request
    whose cookie header carries the pair sessionId=freshId is served in that
    session; no cookie is issued, no session is created, and the listing is
    the one of the session (still empty). *)
Theorem session_kept_by_cookie (token : option string) (freshId otherId : string)
  (now later : Z) (host : string) (pairs : list (string * string)) (st : State) :
  no_session token st ->
  freshId <> EmptyString ->
  Forall well_formed_pair pairs ->
  dict_get "sessionId" pairs = Some freshId ->
  let st1 := snd (run (Request token freshId now host GetFiles) st) in
  cookie (fst (run (Request token freshId now host GetFiles) st)) = Some freshId
  /\ run (Request (getSessionId (Some (cookie_header pairs))) otherId later host
            GetFiles) st1
     = (mkOutcome None (Some (sendResponse 200 (JsonFiles []))), st1).
Proof.
  intros Hno Hne Hpairs Hget st1.
  assert (E : ensure_session token freshId now st
              = (freshId, Some freshId, createSession freshId now st)).
  { unfold ensure_session. destruct token as [t|]; [|reflexivity].
    destruct Hno as [_ Hno]. rewrite Hno. reflexivity. }
  assert (E1 : run (Request token freshId now host GetFiles) st
               = (mkOutcome (Some freshId) (Some (sendResponse 200 (JsonFiles []))),
                  createSession freshId now st)).
  { unfold run, handle_request. rewrite E. unfold createSession at 1.
    cbn [userSessions]. rewrite dict_get_set_same. reflexivity. }
  subst st1. rewrite E1. cbn [fst snd cookie]. split; [reflexivity|].
  assert (Hpne : pairs <> []) by (intros ->; discriminate Hget).
  unfold getSessionId at 1. rewrite (cookie_header_truthy pairs Hpne Hpairs).
  rewrite (session_pair_header pairs false Hpne Hpairs), Hget.
  unfold run, handle_request, ensure_session.
  apply truthy_neq in Hne. rewrite Hne.
  unfold dict_has, createSession at 1. cbn [userSessions].
  rewrite dict_get_set_same. cbn [andb].
  unfold createSession at 1. cbn [userSessions]. rewrite dict_get_set_same.
  reflexivity.
Qed.

Lemma session_kept_sample :
  cookie (fst (run (Request None "abc123" 5 "h" GetFiles) stored_state)) = Some "abc123"
  /\ run (Request
            (getSessionId
               (Some (cookie_header [("theme", "dark"); ("sessionId", "abc123")])))
            "other" 9 "h" GetFiles)
       (snd (run (Request None "abc123" 5 "h" GetFiles) stored_state))
     = (mkOutcome None (Some (sendResponse 200 (JsonFiles []))),
        snd (run (Request None "abc123" 5 "h" GetFiles) stored_state)).
Proof.
  apply (session_kept_by_cookie None "abc123" "other" 5 9 "h"
           [("theme", "dark"); ("sessionId", "abc123")] stored_state).
  - exact I.
  - discriminate.
  - repeat constructor; discriminate.
  - reflexivity.
Defined.

(** ** The size limit of an upload: the [data] callback *)

Definition MAX_FILE_SIZE : N := 1024 * 1024 * 1024.

(** [chunks] and [fileSize] of one upload request. *)
Record Receiving := mkReceiving {
  chunks : list Buffer;
  fileSize : N
}.

Definition file_too_large : Reply := sendResponse 413 (JsonError "File too large").

(** One call of the callback: the new variables, and the reply when one is
    sent. *)
Definition on_data (r : Receiving) (chunk : Buffer) : Receiving * option Reply :=
  let fileSize := (fileSize r + N.of_nat (length chunk))%N in
  if (MAX_FILE_SIZE <? fileSize)%N
  then (mkReceiving (chunks r) fileSize, Some file_too_large)
  else (mkReceiving (chunks r ++ [chunk]) fileSize, None).

(** The callback called on each chunk of [incoming] in turn, from the
    initial variables, with the replies it sent. *)
Definition receive_step (acc : Receiving * list Reply) (chunk : Buffer)
  : Receiving * list Reply :=
  let '(r, sent) := acc in
  match on_data r chunk with
  | (r', Some reply) => (r', sent ++ [reply])
  | (r', None) => (r', sent)
  end.

Definition receive (incoming : list Buffer) : Receiving * list Reply :=
  fold_left receive_step incoming (mkReceiving [] 0%N, []).

(** [Buffer.concat(chunks)] *)
Definition Buffer_concat (chunks : list Buffer) : Buffer := concat chunks.

Definition total (chunks : list Buffer) : N := N.of_nat (length (Buffer_concat chunks)).

Lemma total_app (a b : list Buffer) : total (a ++ b) = (total a + total b)%N.
Proof.
  unfold total, Buffer_concat. rewrite concat_app, length_app. lia.
Qed.

Lemma total_one (c : Buffer) : total [c] = N.of_nat (length c).
Proof. unfold total, Buffer_concat. simpl. rewrite app_nil_r. reflexivity. Qed.

(** What holds of the variables after the chunks [done]. *)
Record accounted (done : list Buffer) (acc : Receiving * list Reply) : Prop :=
  mkAccounted {
    acc_size : fileSize (fst acc) = total done;
    acc_kept : (total (chunks (fst acc)) <= MAX_FILE_SIZE)%N;
    acc_prefix : exists rest, done = chunks (fst acc) ++ rest;
    acc_within : (total done <= MAX_FILE_SIZE)%N ->
                 chunks (fst acc) = done /\ snd acc = [];
    acc_beyond : (MAX_FILE_SIZE < total done)%N -> snd acc <> [];
    acc_replies : Forall (fun reply => reply = file_too_large) (snd acc)
  }.

Lemma receive_step_accounted (done : list Buffer) (acc : Receiving * list Reply)
  (chunk : Buffer) :
  accounted done acc -> accounted (done ++ [chunk]) (receive_step acc chunk).
Proof.
  destruct acc as [r sent]. intros [Hsize Hkept [rest Hpre] Hin Hout Hrep].
  cbn [fst snd] in *. unfold receive_step, on_data.
  assert (Ht : total (done ++ [chunk]) = (fileSize r + N.of_nat (length chunk))%N).
  { rewrite total_app, total_one, Hsize. reflexivity. }
  destruct (MAX_FILE_SIZE <? fileSize r + N.of_nat (length chunk))%N eqn:E.
  - apply N.ltb_lt in E. constructor; cbn [fst snd chunks fileSize].
    + symmetry. exact Ht.
    + exact Hkept.
    + exists (rest ++ [chunk]). rewrite app_assoc, <- Hpre. reflexivity.
    + intros H. lia.
    + intros _ H. destruct sent; discriminate H.
    + apply Forall_app. split; [exact Hrep | repeat constructor].
  - apply N.ltb_ge in E. constructor; cbn [fst snd chunks fileSize].
    + symmetry. exact Ht.
    + assert (Hd : (total done <= MAX_FILE_SIZE)%N) by lia.
      destruct (Hin Hd) as [-> _]. lia.
    + assert (Hd : (total done <= MAX_FILE_SIZE)%N) by lia.
      destruct (Hin Hd) as [-> _]. exists []. rewrite app_nil_r. reflexivity.
    + intros _. assert (Hd : (total done <= MAX_FILE_SIZE)%N) by lia.
      destruct (Hin Hd) as [-> ->]. split; reflexivity.
    + intros H. lia.
    + exact Hrep.
Qed.

Lemma receive_accounted (incoming : list Buffer) :
  forall done acc,
    accounted done acc ->
    accounted (done ++ incoming) (fold_left receive_step incoming acc).
Proof.
  induction incoming as [|c incoming IH]; intros done acc H.
  - rewrite app_nil_r. exact H.
  - simpl. replace (done ++ c :: incoming) with ((done ++ [c]) ++ incoming)
      by (rewrite <- app_assoc; reflexivity).
    apply IH, receive_step_accounted, H.
Qed.

(** X19. The size limit: whatever chunks arrive, the chunks kept for the
    [end] callback are the first ones of the request and hold at most
    [MAX_FILE_SIZE] bytes.  A body within the limit is kept whole and in
    order, with no reply sent; a body beyond it is answered 413 and the
    chunk that crosses the limit, as every later one, is dropped. *)
Theorem upload_size_limit (incoming : list Buffer) :
  let r := fst (receive incoming) in
  let sent := snd (receive incoming) in
  (N.of_nat (length (Buffer_concat (chunks r))) <= MAX_FILE_SIZE)%N
  /\ (exists dropped, incoming = chunks r ++ dropped)
  /\ ((N.of_nat (length (Buffer_concat incoming)) <= MAX_FILE_SIZE)%N ->
      Buffer_concat (chunks r) = Buffer_concat incoming /\ sent = [])
  /\ ((MAX_FILE_SIZE < N.of_nat (length (Buffer_concat incoming)))%N ->
      sent <> [] /\ Forall (fun reply => reply = file_too_large) sent).
Proof.
  intros r sent.
  assert (H0 : accounted [] (mkReceiving [] 0%N, [])).
  { constructor; cbn [fst snd chunks fileSize].
    - reflexivity.
    - vm_compute. discriminate.
    - exists []. reflexivity.
    - intros _. split; reflexivity.
    - intros H. vm_compute in H. discriminate.
    - constructor. }
  destruct (receive_accounted incoming [] _ H0) as [_ Hkept Hpre Hin Hout Hrep].
  fold (receive incoming) in *. cbn [app] in *.
  split; [exact Hkept|]. split; [exact Hpre|]. split.
  - intros H. destruct (Hin H) as [E1 E2]. subst r sent. rewrite E1.
    split; [reflexivity | exact E2].
  - intros H. split; [exact (Hout H) | exact Hrep].
Qed.

(** ** Listings in reachable states *)

Lemma sessionFiles_all (host : string) (db : dict FileRecord) (ids : list string) :
  (forall fileId, In fileId ids -> dict_get fileId db <> None) ->
  map info_id (sessionFiles host db ids) = ids.
Proof.
  induction ids as [|x ids IH]; intros H; simpl; [reflexivity|].
  destruct (dict_get x db) as [m|] eqn:E.
  - simpl. rewrite IH; [reflexivity|]. intros f Hf. apply H. right. exact Hf.
  - exfalso. apply (H x (or_introl eq_refl)). exact E.
Qed.

(** X20. In a reachable state a session lists no deleted file: the filter
    of the listing drops nothing, and the listing shows the whole list of
    the session, in its order. *)
Theorem listing_shows_whole_list (st : State) (sid : string) (s : Session)
  (host : string) :
  reachable st ->
  dict_get sid (userSessions st) = Some s ->
  map info_id (sessionFiles host (fileDatabase st) (files s)) = files s.
Proof.
  intros Hr Hs. apply sessionFiles_all. intros fileId Hin.
  destruct (inv_owned st (reachable_inv st Hr) sid s fileId Hs Hin) as [m [Hm _]].
  congruence.
Qed.

Lemma listing_whole_sample :
  map info_id (sessionFiles "h" (fileDatabase two_sessions_state) (files (mkSession 0 [id_a])))
  = files (mkSession 0 [id_a]).
Proof.
  apply (listing_shows_whole_list two_sessions_state "sA" (mkSession 0 [id_a]) "h").
  - exact two_sessions_reachable.
  - reflexivity.
Defined.

(** ** The lifetime of an upload *)

Lemma sweep_file_disk_some (io : FsFaults) (now : Z) (st : State)
  (e : string * FileRecord) (p : string) (data : Buffer) :
  dict_get p (uploads (sweep_file io now st e)) = Some data ->
  dict_get p (uploads st) = Some data.
Proof.
  destruct e as [k m]. rewrite sweep_file_eq. destruct (_ && _); [|exact id].
  cbn [uploads]. intros H. apply dict_get_delete_some in H. tauto.
Qed.

Lemma sweep_disk_some (io : FsFaults) (now : Z) (st : State) (p : string)
  (data : Buffer) :
  dict_get p (uploads (sweep io now st)) = Some data ->
  dict_get p (uploads st) = Some data.
Proof.
  unfold sweep, sweep_sessions.
  pose proof (proj2 (sessions_swept_files now (userSessions (sweep_files io now st))
                       (sweep_files io now st))) as E.
  unfold sessions_swept in E. rewrite E. clear E.
  unfold sweep_files. generalize (fileDatabase st) at 1. intros entries.
  revert st. induction entries as [|e entries IH]; intros st H; [exact H|].
  simpl in H. apply IH in H. exact (sweep_file_disk_some _ _ _ _ _ _ H).
Qed.

Lemma run_upload_end (io : FsFaults) (sid : string) (ct : option string)
  (host : string) (buffer : Buffer) (fileId : string) (now : Z) (st : State) :
  snd (run (UploadEnd io sid ct host buffer fileId now) st)
  = snd (upload_end io sid ct host buffer fileId now st).
Proof. simpl. destruct (upload_end _ _ _ _ _ _ _ _). reflexivity. Qed.

(** X21. The lifetime of an upload ends at the expiry time of its record,
    the time the answer to the upload returns: in a state reached from empty
    stores, a file uploaded under a fresh identifier, with a storage key
    that a request path carries as it is, is still available after any
    sweep that runs no later than that time (a request for its link is
    served its bytes, or throws at [res.setHeader] when the declared name
    holds a character no header value may carry); after a sweep that runs
    later (and whose unlink is not refused) its link answers 404. *)
Theorem upload_lifetime (io : FsFaults) (sid : string) (s : Session)
  (ct boundary host : string) (buffer content : Buffer) (name fileId : string)
  (now : Z) (st : State) :
  reachable_from_empty st ->
  dict_get fileId (fileDatabase st) = None ->
  plain_id fileId ->
  boundaryMatch ct = Some boundary ->
  parseMultipartFormData buffer boundary = mkParseResult (Some name) (Some content) ->
  write_fails io (String.append fileId (path_extname name)) = false ->
  dict_get sid (userSessions st) = Some s ->
  url_segment (String.append fileId (path_extname name)) = true ->
  let key := String.append fileId (path_extname name) in
  let st' := snd (upload_end io sid (Some ct) host buffer fileId now st) in
  exists m,
    dict_get fileId (fileDatabase st') = Some m
    /\ fst (upload_end io sid (Some ct) host buffer fileId now st)
       = sendResponse 200
           (JsonUploaded "File uploaded successfully" fileId
              (downloadLink host key) (expiryTime m))
    /\ forall (io' : FsFaults) (t : Z),
         ((t <= expiryTime m)%Z ->
            fst (download key (sweep io' t st'))
            = if checkInvalidHeaderChar name
              then throws "ERR_INVALID_CHAR"
              else mkReply 200
                     (FileStream (content_disposition name) (getContentType key)
                                 content))
         /\ ((t > expiryTime m)%Z -> unlink_fails io' key = false ->
               fst (download key (sweep io' t st'))
               = sendResponse 404 (JsonError "File not found or expired")).
Proof.
  intros Hr Hfresh Hid Hb Hparse Hwrite Hs _ key st'.
  assert (Hr' : reachable_from_empty st').
  { pose proof (from_step (UploadEnd io sid (Some ct) host buffer fileId now) st
                  Hr Hfresh Hid) as H.
    rewrite run_upload_end in H. exact H. }
  assert (Hname : truthy name = true).
  { apply (parse_name_truthy buffer boundary). rewrite Hparse. reflexivity. }
  pose proof (upload_end_accepts io sid s ct boundary host buffer content name
                fileId now st Hb Hparse Hname Hwrite Hs) as Hup.
  fold key in Hup.
  assert (Hst' : st' = snd (upload_end io sid (Some ct) host buffer fileId now st))
    by reflexivity.
  rewrite Hup in Hst'. cbn [snd] in Hst'.
  set (m := mkFileRecord name key (length content) now (now + FILE_EXPIRY) false sid)
    in *.
  assert (Hm : dict_get fileId (fileDatabase st') = Some m).
  { rewrite Hst'. cbn [fileDatabase]. apply dict_get_set_same. }
  assert (Hd : dict_get key (uploads st') = Some content).
  { rewrite Hst'. cbn [uploads]. apply dict_get_set_same. }
  assert (Hkey : file_id_of key = fileId) by (apply storage_key_resolves, Hid).
  pose proof (from_empty_stored st' Hr') as Hstored.
  pose proof (reachable_inv st' (from_empty_reachable st' Hr')) as Hinv.
  exists m. split; [exact Hm|]. split; [rewrite Hup; reflexivity|].
  clearbody st'. intros io' t. split.
  - intros Ht.
    assert (Hn : forall m', In (fileId, m') (fileDatabase st') ->
                            (t <= expiryTime m')%Z).
    { intros m' Hin. apply (dict_In_get _ _ _ (inv_keys st' Hinv)) in Hin.
      rewrite Hm in Hin. injection Hin as <-. exact Ht. }
    pose proof (proj1 (sweep_entries_spares io' t _ fileId m Hn st' Hm)) as Hkept.
    rewrite <- sweep_fileDatabase in Hkept.
    assert (Hstored' : Stored (sweep io' t st')).
    { apply sweep_stored; [exact (inv_keys st' Hinv) | exact Hstored]. }
    destruct (stored_bytes _ Hstored' _ _ Hkept) as [data [Hdata _]].
    change (filename m) with key in Hdata.
    pose proof (sweep_disk_some _ _ _ _ _ Hdata) as Hsame.
    rewrite Hd in Hsame. injection Hsame as <-.
    rewrite download_eq, Hdata, Hkey, Hkept. cbn [originalName m].
    destruct (checkInvalidHeaderChar name); reflexivity.
  - intros Ht Hio.
    assert (Hgone : dict_get fileId (fileDatabase (sweep io' t st')) = None).
    { rewrite sweep_fileDatabase.
      apply (sweep_entries_removes io' t _ st' fileId m);
        [apply dict_get_In, Hm | exact Ht | exact Hio]. }
    rewrite download_no_record by (rewrite Hkey; exact Hgone). reflexivity.
Qed.

Lemma upload_lifetime_sample :
  exists m,
    dict_get sample_id
      (fileDatabase
         (snd (upload_end no_faults "sA" (Some sample_content_type) "h"
                 sample_body sample_id 1000 two_sessions_state)))
    = Some m
    /\ fst (upload_end no_faults "sA" (Some sample_content_type) "h"
              sample_body sample_id 1000 two_sessions_state)
       = sendResponse 200
           (JsonUploaded "File uploaded successfully" sample_id
              (downloadLink "h" (String.append sample_id (path_extname "a.txt")))
              (expiryTime m))
    /\ forall (io' : FsFaults) (t : Z),
         ((t <= expiryTime m)%Z ->
            fst (download (String.append sample_id (path_extname "a.txt"))
                   (sweep io' t
                      (snd (upload_end no_faults "sA" (Some sample_content_type)
                              "h" sample_body sample_id 1000 two_sessions_state))))
            = if checkInvalidHeaderChar "a.txt"
              then throws "ERR_INVALID_CHAR"
              else mkReply 200
                     (FileStream (content_disposition "a.txt")
                        (getContentType
                           (String.append sample_id (path_extname "a.txt")))
                        sample_content))
         /\ ((t > expiryTime m)%Z ->
             unlink_fails io' (String.append sample_id (path_extname "a.txt"))
             = false ->
               fst (download (String.append sample_id (path_extname "a.txt"))
                      (sweep io' t
                         (snd (upload_end no_faults "sA" (Some sample_content_type)
                                 "h" sample_body sample_id 1000
                                 two_sessions_state))))
               = sendResponse 404 (JsonError "File not found or expired")).
Proof.
  apply (upload_lifetime no_faults "sA" (mkSession 0 [id_a])
           sample_content_type sample_boundary "h" sample_body
           sample_content "a.txt" sample_id 1000
           two_sessions_state two_sessions_from_empty).
  - reflexivity.
  - split; [discriminate | reflexivity].
  - reflexivity.
  - vm_compute. reflexivity.
  - reflexivity.
  - reflexivity.
  - reflexivity.
Defined.

(** ** Upload, then download: the round trip *)

(** X30. Round trip: a byte sequence [content], whatever its bytes, sent as
    the payload of the first file-bearing part of a well-formed multipart
    body is extracted unchanged and stored, and a request for the link the
    upload returned is served the same bytes when the declared file name
    holds only characters that a header value may carry; with any other
    name the handler throws at [res.setHeader] and serves nothing.  The
    file identifier is any non-empty string without dot or slash, as the
    hexadecimal identifiers of [generateUniqueId] are, and the storage key
    is one that a request path carries as it is. *)
Theorem upload_download_round_trip (io : FsFaults) (sid : string) (s : Session)
  (ct boundary host : string) (preamble : Buffer) (fields : list Buffer)
  (head content epilogue : Buffer) (name fileId : string) (now : Z) (st : State) :
  let delimiter := Buffer_from (String.append "--" boundary) in
  let buffer :=
    multipart_body delimiter preamble (fields ++ [file_part head content]) epilogue in
  let key := String.append fileId (path_extname name) in
  boundaryMatch ct = Some boundary ->
  delimiter_free delimiter preamble ->
  Forall (delimiter_free delimiter) fields ->
  Forall (fun f => includes f filenameMarker = false) fields ->
  delimiter_free delimiter (file_part head content) ->
  header_block head ->
  filenameMatch (toString head) = Some name ->
  write_fails io key = false ->
  dict_get sid (userSessions st) = Some s ->
  plain_id fileId ->
  url_segment key = true ->
  parseMultipartFormData buffer boundary = mkParseResult (Some name) (Some content)
  /\ fst (upload_end io sid (Some ct) host buffer fileId now st)
     = sendResponse 200
         (JsonUploaded "File uploaded successfully" fileId
            (downloadLink host key) (now + FILE_EXPIRY))
  /\ dict_get key (uploads (snd (upload_end io sid (Some ct) host buffer fileId now st)))
     = Some content
  /\ fst (download key (snd (upload_end io sid (Some ct) host buffer fileId now st)))
     = if checkInvalidHeaderChar name
       then throws "ERR_INVALID_CHAR"
       else mkReply 200
              (FileStream (content_disposition name) (getContentType key) content).
Proof.
  intros delimiter buffer key Hb Hpre Hfields Hplain Hfile Hhead Hname Hwrite Hs Hid
    _.
  assert (Hparse : parseMultipartFormData buffer boundary
                   = mkParseResult (Some name) (Some content))
    by (apply parse_well_formed; assumption).
  split; [exact Hparse|].
  rewrite (upload_end_accepts io sid s ct boundary host buffer content name fileId
             now st Hb Hparse (filenameMatch_truthy _ _ Hname) Hwrite Hs).
  split; [reflexivity|].
  simpl snd. simpl uploads. split; [apply dict_get_set_same|].
  rewrite download_eq. simpl uploads. simpl fileDatabase. subst key.
  rewrite (storage_key_resolves fileId name Hid).
  rewrite !dict_get_set_same. cbn [originalName].
  destruct (checkInvalidHeaderChar name); reflexivity.
Qed.

(** On [sample_body]: six bytes that are not text come back unchanged. *)
Lemma round_trip_sample :
  parseMultipartFormData sample_body sample_boundary
  = mkParseResult (Some "a.txt") (Some sample_content)
  /\ fst (upload_end no_faults "s1" (Some sample_content_type) "h" sample_body
            sample_id 1000 sample_state)
     = sendResponse 200
         (JsonUploaded "File uploaded successfully" sample_id
            (downloadLink "h" (String.append sample_id ".txt"))
            (1000 + FILE_EXPIRY))
  /\ dict_get (String.append sample_id ".txt")
       (uploads (snd (upload_end no_faults "s1" (Some sample_content_type) "h"
                        sample_body sample_id 1000 sample_state)))
     = Some sample_content
  /\ fst (download (String.append sample_id ".txt")
            (snd (upload_end no_faults "s1" (Some sample_content_type) "h"
                    sample_body sample_id 1000 sample_state)))
     = mkReply 200
         (FileStream (content_disposition "a.txt") "text/plain" sample_content).
Proof.
  apply (upload_download_round_trip no_faults "s1" (mkSession 0 [])
           sample_content_type sample_boundary "h" [] [sample_field]
           sample_head sample_content (Buffer_from "--" ++ crlfBuffer)
           "a.txt" sample_id 1000 sample_state).
  - reflexivity.
  - exact sample_preamble_free.
  - constructor; [exact sample_field_free | constructor].
  - constructor; [vm_compute; reflexivity | constructor].
  - exact sample_part_free.
  - exact sample_head_block.
  - vm_compute. reflexivity.
  - reflexivity.
  - reflexivity.
  - split; [discriminate | reflexivity].
  - reflexivity.
Defined.

(** ** The age of a session *)

(** X22. A session lives at least [SESSION_MAX_AGE]: a sweep that runs no
    later than 24 hours after the creation of a session keeps it, with its
    creation time, whether or not it lists files; its list can only have
    lost identifiers. *)
Theorem young_session_survives (io : FsFaults) (now : Z) (st : State)
  (sid : string) (s : Session) :
  NoDup (dict_keys (userSessions st)) ->
  dict_get sid (userSessions st) = Some s ->
  (now - created s <= SESSION_MAX_AGE)%Z ->
  exists s',
    dict_get sid (userSessions (sweep io now st)) = Some s'
    /\ created s' = created s
    /\ forall fileId, In fileId (files s') -> In fileId (files s).
Proof.
  intros Hkeys Hs Hage.
  destruct (sweep_entries_session io now (fileDatabase st) st sid s Hs)
    as [s' [Hs' [Hc Hsub]]].
  exists s'. split; [|split; assumption].
  unfold sweep. rewrite sweep_sessions_get.
  - unfold sweep_files. fold (sweep_entries io now (fileDatabase st) st).
    rewrite Hs'. unfold stale. rewrite Hc.
    assert (E : (now - created s >? SESSION_MAX_AGE)%Z = false).
    { rewrite Z.gtb_ltb. apply Z.ltb_ge. exact Hage. }
    rewrite E. reflexivity.
  - unfold sweep_files. fold (sweep_entries io now (fileDatabase st) st).
    rewrite sweep_entries_session_keys. exact Hkeys.
Qed.

Lemma young_session_sample :
  exists s',
    dict_get "s1" (userSessions (sweep no_faults 86400000 stored_state)) = Some s'
    /\ created s' = created (mkSession 0 ["f1"])
    /\ forall fileId, In fileId (files s') -> In fileId (files (mkSession 0 ["f1"])).
Proof.
  apply (young_session_survives no_faults 86400000 stored_state "s1"
           (mkSession 0 ["f1"])).
  - constructor; [simpl; tauto | constructor].
  - reflexivity.
  - vm_compute. discriminate.
Defined.

(** * Part three: the text-splitting server (server.js)

    The older server of the repository has no sessions and takes the upload
    apart as text.  In this part a JavaScript string that holds body text is
    kept as the list of the bytes of its UTF-8 encoding (a [Buffer]): writing
    such a string to a file writes these bytes, searching and cutting it are
    searching and cutting the list, and [buf.toString()] is the decoder of
    UTF-8 followed by this encoding. *)

(** ** [bodyBuffer.toString()]: decoding UTF-8 *)

(** U+FFFD, which stands for every ill-formed sequence. *)
Definition replacement : Buffer := [xef; xbf; xbd].

(** A sequence that has begun: its bytes so far, the number of continuation
    bytes still expected, and the range allowed for the next one. *)
Record Pending := mkPending {
  pending_seen : Buffer;
  pending_needed : nat;
  pending_lower : nat;
  pending_upper : nat
}.

(** A byte met outside a sequence: what is emitted, and the sequence it
    begins. *)
Definition lead (b : byte) : Buffer * option Pending :=
  let n := Byte.to_nat b in
  if (n <=? 127)%nat then ([b], None)
  else if ((194 <=? n) && (n <=? 223))%nat
  then ([], Some (mkPending [b] 1 128 191))
  else if ((224 <=? n) && (n <=? 239))%nat
  then ([], Some (mkPending [b] 2 (if (n =? 224)%nat then 160 else 128)
                            (if (n =? 237)%nat then 159 else 191)))
  else if ((240 <=? n) && (n <=? 244))%nat
  then ([], Some (mkPending [b] 3 (if (n =? 240)%nat then 144 else 128)
                            (if (n =? 244)%nat then 143 else 191)))
  else (replacement, None).

(** The decoder: a well-formed sequence is emitted as it stands; a byte that
    cannot continue the sequence in progress ends it with one U+FFFD and is
    read again as the start of what follows; so does the end of the input. *)
Fixpoint decode (p : option Pending) (bytes : Buffer) : Buffer :=
  match bytes with
  | [] => match p with Some _ => replacement | None => [] end
  | b :: rest =>
      match p with
      | None => let '(out, p') := lead b in out ++ decode p' rest
      | Some q =>
          let n := Byte.to_nat b in
          if ((pending_lower q <=? n) && (n <=? pending_upper q))%nat then
            match pending_needed q with
            | S (S k) => decode (Some (mkPending (pending_seen q ++ [b]) (S k) 128 191)) rest
            | _ => (pending_seen q ++ [b]) ++ decode None rest
            end
          else let '(out, p') := lead b in replacement ++ out ++ decode p' rest
      end
  end.

Definition Buffer_toString (b : Buffer) : Buffer := decode None b.

(** [s.length] of the string whose encoding is [t]: one unit for each
    character, two for a character encoded on four bytes. *)
Definition text_length (t : Buffer) : nat :=
  length (filter (fun b => ((Byte.to_nat b <? 128) || (192 <=? Byte.to_nat b))%nat) t)
  + length (filter (fun b => (240 <=? Byte.to_nat b)%nat) t).

(** ** [split], [lastIndexOf] and the file-name pattern *)

(** [s.split(sep)] for a separator that is not empty: the pieces between the
    occurrences of [sep] found from the left, each search starting after the
    occurrence found before. *)
Fixpoint str_split_loop (fuel : nat) (s sep : Buffer) (pos : nat) : list Buffer :=
  match fuel with
  | O => []
  | S fuel' =>
      match indexOf s sep pos with
      | None => [slice s pos (length s)]
      | Some q => slice s pos q :: str_split_loop fuel' s sep (q + length sep)
      end
  end.

Definition str_split (s sep : Buffer) : list Buffer :=
  str_split_loop (S (length s)) s sep 0.

(** Offset of the last occurrence of [pat] in [buf]. *)
Fixpoint find_last (pat buf : Buffer) : option nat :=
  match buf with
  | [] => if starts_with pat [] then Some 0 else None
  | _ :: buf' =>
      match find_last pat buf' with
      | Some n => Some (S n)
      | None => if starts_with pat buf then Some 0 else None
      end
  end.

(** A line terminator starts [t]: line feed, carriage return, U+2028 or
    U+2029. *)
Definition line_terminator_at (t : Buffer) : bool :=
  match t with
  | b :: t1 =>
      Byte.eqb b LF || Byte.eqb b CR
      || (Byte.eqb b xe2
          && match t1 with
             | b1 :: b2 :: _ =>
                 Byte.eqb b1 x80 && (Byte.eqb b2 xa8 || Byte.eqb b2 xa9)
             | _ => false
             end)
  | [] => false
  end.

(** The shortest run, free of line terminators, up to a double quote. *)
Fixpoint lazy_run (t : Buffer) : option Buffer :=
  match t with
  | [] => None
  | b :: t' =>
      if Byte.eqb b x22 then Some []
      else if line_terminator_at t then None
      else option_map (cons b) (lazy_run t')
  end.

(** Group 1 of the pattern at a place where the literal has matched: one
    character that is no line terminator (it may be a double quote), then
    the shortest run up to a double quote. *)
Definition name_at (t : Buffer) : option Buffer :=
  match t with
  | [] => None
  | b :: t' =>
      if line_terminator_at t then None else option_map (cons b) (lazy_run t')
  end.

(** [part.match(re)] for the pattern of server.js (the literal filename= and
    a double quote, a lazy run of one or more characters, a double quote):
    group 1 of the leftmost match. *)
Fixpoint text_filenameMatch (t : Buffer) : option Buffer :=
  let here :=
    if starts_with (Buffer_from filename_open) t
    then name_at (skipn 10 t) else None in
  match here with
  | Some name => Some name
  | None =>
      match t with
      | [] => None
      | _ :: t' => text_filenameMatch t'
      end
  end.

(** ** The upload of server.js *)

(** The [for] loop over the parts, with the variable [fileName] as it
    stands; the result is the pair of [fileName] and [fileContent] after the
    loop ([None] is [null]). *)
Fixpoint text_parts (parts : list Buffer) (fileName : Buffer)
  : Buffer * option Buffer :=
  match parts with
  | [] => (fileName, None)
  | part :: rest =>
      if includes part filenameMarker then
        match text_filenameMatch part with
        | Some name =>
            match indexOf part headerEndBuffer 0 with
            | Some contentIndex =>
                let fileContent := slice part (contentIndex + 4) (length part) in
                (name,
                 Some (match find_last crlfBuffer fileContent with
                       | Some k => slice fileContent 0 k
                       | None => []
                       end))
            | None => text_parts rest name
            end
        | None => text_parts rest fileName
        end
      else text_parts rest fileName
  end.

(** [req.headers['content-type'].split('boundary=')[1]] inside the template
    of the delimiter: [undefined] is printed as the word. *)
Definition text_boundary (contentType : string) : Buffer :=
  match nth_error (str_split (Buffer_from contentType) (Buffer_from "boundary=")) 1 with
  | Some boundary => boundary
  | None => Buffer_from "undefined"
  end.

Definition text_extract (contentType : string) (bodyBuffer : Buffer)
  : Buffer * option Buffer :=
  let parts :=
    str_split (Buffer_toString bodyBuffer) (Buffer_from "--" ++ text_boundary contentType) in
  text_parts parts [].

(** The stores of server.js: records have no session. *)
Record LegacyRecord := mkLegacyRecord {
  legacy_originalName : string;
  legacy_filename : string;
  legacy_size : nat;
  legacy_uploadTime : Z;
  legacy_expiryTime : Z;
  legacy_downloaded : bool
}.

Record LegacyState := mkLegacyState {
  legacy_fileDatabase : dict LegacyRecord;
  legacy_uploads : dict Buffer
}.

(** Truthiness of a string kept as its bytes. *)
Definition text_truthy (t : Buffer) : bool :=
  match t with [] => false | _ :: _ => true end.

(** The [end] callback of the upload. *)
Definition legacy_upload_end (io : FsFaults) (contentTypeHeader : option string)
  (host : string) (bodyBuffer : Buffer) (fileId : string) (now : Z)
  (st : LegacyState) : Reply * LegacyState :=
  match contentTypeHeader with
  | None =>
      (* [undefined.split] throws: the [catch] answers *)
      (sendResponse 500 (JsonError "File upload failed"), st)
  | Some contentType =>
      match text_extract contentType bodyBuffer with
      | (fileName, Some fileContent) =>
          (* [!fileName || !fileContent]: both are strings here, falsy
             when empty *)
          if text_truthy fileName && text_truthy fileContent then
            let name := toString fileName in
            let uniqueFilename := String.append fileId (path_extname name) in
            match writeFileSync io uniqueFilename fileContent (legacy_uploads st) with
            | None => (sendResponse 500 (JsonError "File upload failed"), st)
            | Some disk =>
                let metadata :=
                  mkLegacyRecord name uniqueFilename (text_length fileContent) now
                    (now + FILE_EXPIRY) false in
                (sendResponse 200
                   (JsonUploaded "File uploaded successfully" fileId
                      (downloadLink host uniqueFilename)
                      (legacy_expiryTime metadata)),
                 mkLegacyState (dict_set fileId metadata (legacy_fileDatabase st))
                   disk)
            end
          else (sendResponse 400 (JsonError "No file uploaded"), st)
      | (_, None) => (sendResponse 400 (JsonError "No file uploaded"), st)
      end
  end.

(** GET /api/files of server.js: every record, whoever asks. *)
Definition legacy_entry (host : string) (e : string * LegacyRecord) : FileInfo :=
  let '(id, metadata) := e in
  mkFileInfo id (legacy_originalName metadata) (legacy_size metadata)
    (legacy_uploadTime metadata) (legacy_expiryTime metadata)
    (downloadLink host (legacy_filename metadata)).

Definition legacy_api_files (host : string) (st : LegacyState) : Reply :=
  sendResponse 200 (JsonFiles (map (legacy_entry host) (legacy_fileDatabase st))).

(** ** Splitting a well-formed body *)

Lemma str_split_loop_piece (delimiter done piece rest : Buffer) (fuel : nat) :
  delimiter_free delimiter piece ->
  str_split_loop (S fuel) (done ++ piece ++ delimiter ++ rest) delimiter (length done)
  = piece :: str_split_loop fuel (done ++ piece ++ delimiter ++ rest) delimiter
               (length done + length piece + length delimiter).
Proof.
  intros Hfree. cbn [str_split_loop].
  rewrite (indexOf_closing delimiter done piece rest Hfree).
  rewrite slice_middle. reflexivity.
Qed.

Lemma split_chain (delimiter : Buffer) (parts : list Buffer) (tail : Buffer) :
  Forall (delimiter_free delimiter) parts ->
  forall done piece fuel,
    delimiter_free delimiter piece ->
    length parts < fuel ->
    exists more,
      str_split_loop fuel (done ++ piece ++ chain delimiter parts tail) delimiter
        (length done)
      = piece :: parts ++ more.
Proof.
  induction 1 as [|p ps Hp Hps IH]; intros done piece fuel Hpiece Hfuel.
  - destruct fuel as [|fuel]; [lia|]. cbn [chain].
    rewrite str_split_loop_piece by exact Hpiece. eexists. reflexivity.
  - destruct fuel as [|fuel]; [simpl in Hfuel; lia|]. cbn [chain].
    rewrite str_split_loop_piece by exact Hpiece.
    destruct (IH (done ++ piece ++ delimiter) p fuel Hp) as [more Hmore];
      [simpl in Hfuel; lia|].
    exists more. f_equal.
    rewrite !length_app, Nat.add_assoc in Hmore.
    rewrite <- !app_assoc in Hmore. exact Hmore.
Qed.

Lemma chain_length (delimiter : Buffer) (parts : list Buffer) (tail : Buffer) :
  delimiter <> [] -> length parts < length (chain delimiter parts tail).
Proof.
  intros Hd. assert (0 < length delimiter) by (destruct delimiter; [congruence | simpl; lia]).
  induction parts as [|p ps IH]; cbn [chain]; rewrite !length_app; simpl; lia.
Qed.

Lemma split_multipart (delimiter preamble : Buffer) (parts : list Buffer)
  (epilogue : Buffer) :
  delimiter <> [] ->
  delimiter_free delimiter preamble ->
  Forall (delimiter_free delimiter) parts ->
  exists more,
    str_split (multipart_body delimiter preamble parts epilogue) delimiter
    = preamble :: parts ++ more.
Proof.
  intros Hd Hpre Hparts. unfold str_split, multipart_body.
  apply (split_chain delimiter parts epilogue Hparts [] preamble); [exact Hpre|].
  rewrite length_app. pose proof (chain_length delimiter parts epilogue Hd). lia.
Qed.

(** ** The loop on a well-formed body *)

Lemma includes_cons (pat : Buffer) (b : byte) (t : Buffer) :
  includes t pat = true -> includes (b :: t) pat = true.
Proof.
  unfold includes, indexOf. cbn [skipn find_first].
  destruct (find_first pat t); [|discriminate]. intros _.
  destruct (starts_with pat (b :: t)); reflexivity.
Qed.

Lemma includes_start (pat t : Buffer) :
  starts_with pat t = true -> includes t pat = true.
Proof.
  unfold includes, indexOf. cbn [skipn]. intros H.
  destruct t; cbn [find_first]; rewrite H; reflexivity.
Qed.

Lemma text_filenameMatch_eq (t : Buffer) :
  text_filenameMatch t =
  match (if starts_with (Buffer_from filename_open) t
         then name_at (skipn 10 t) else None) with
  | Some name => Some name
  | None =>
      match t with
      | [] => None
      | _ :: t' => text_filenameMatch t'
      end
  end.
Proof. destruct t; reflexivity. Qed.

Lemma text_filenameMatch_marker (t name : Buffer) :
  text_filenameMatch t = Some name -> includes t filenameMarker = true.
Proof.
  induction t as [|b t IH]; rewrite text_filenameMatch_eq.
  - simpl. discriminate.
  - destruct (starts_with (Buffer_from filename_open) (b :: t)) eqn:E.
    + intros _. apply includes_start.
      apply (starts_with_prefix filenameMarker [x22]). exact E.
    + intros H. apply includes_cons, IH, H.
Qed.

Lemma name_at_truthy (t name : Buffer) : name_at t = Some name -> name <> [].
Proof.
  unfold name_at. destruct t as [|b t]; [discriminate|].
  destruct (line_terminator_at (b :: t)); [discriminate|].
  destruct (lazy_run t) as [run|]; cbn [option_map]; intros H; [|discriminate H].
  injection H as <-. discriminate.
Qed.

Lemma text_filenameMatch_truthy (t name : Buffer) :
  text_filenameMatch t = Some name -> text_truthy name = true.
Proof.
  induction t as [|b t IH]; rewrite text_filenameMatch_eq.
  - simpl. discriminate.
  - destruct (if starts_with (Buffer_from filename_open) (b :: t)
              then name_at (skipn 10 (b :: t)) else None) as [n|] eqn:E.
    + intros H. injection H as <-.
      destruct (starts_with (Buffer_from filename_open) (b :: t)); [|discriminate].
      apply name_at_truthy in E. destruct n; [congruence | reflexivity].
    + exact IH.
Qed.

Lemma find_last_closing (pat content : Buffer) :
  pat <> [] -> find_last pat (content ++ pat) = Some (length content).
Proof.
  intros Hpat.
  assert (Hshort : forall buf, length buf < length pat -> find_last pat buf = None).
  { induction buf as [|b buf IHb]; intros Hlen.
    - destruct pat; [congruence | reflexivity].
    - cbn [find_last]. rewrite IHb by (simpl in Hlen; lia).
      destruct (starts_with pat (b :: buf)) eqn:E; [|reflexivity].
      apply starts_with_iff in E. destruct E as [r E].
      apply (f_equal (@length byte)) in E. rewrite length_app in E. lia. }
  induction content as [|c content IH].
  - cbn [app length]. destruct pat as [|p pat]; [congruence|].
    cbn [find_last]. rewrite Hshort by (simpl; lia).
    rewrite <- (app_nil_r (p :: pat)) at 2. rewrite starts_with_app. reflexivity.
  - cbn [app find_last length]. rewrite IH. reflexivity.
Qed.

Lemma text_parts_skip (pre rest : list Buffer) (fileName : Buffer) :
  Forall (fun q => includes q filenameMarker = false) pre ->
  text_parts (pre ++ rest) fileName = text_parts rest fileName.
Proof.
  induction 1 as [|q pre Hq _ IH]; [reflexivity|].
  cbn [app text_parts]. rewrite Hq. exact IH.
Qed.

Lemma text_parts_file_part (head content name : Buffer) (more : list Buffer)
  (fileName : Buffer) :
  header_block head ->
  text_filenameMatch (file_part head content) = Some name ->
  text_parts (file_part head content :: more) fileName = (name, Some content).
Proof.
  intros Hhead Hname. cbn [text_parts].
  rewrite (text_filenameMatch_marker _ _ Hname), Hname.
  assert (Hidx : indexOf (file_part head content) headerEndBuffer 0 = Some (length head)).
  { unfold indexOf, file_part. cbn [skipn].
    rewrite (find_first_closing headerEndBuffer head (content ++ crlfBuffer) Hhead).
    reflexivity. }
  rewrite Hidx.
  assert (Hrest : slice (file_part head content) (length head + 4)
                    (length (file_part head content)) = content ++ crlfBuffer).
  { unfold slice, file_part.
    replace (head ++ headerEndBuffer ++ content ++ crlfBuffer)
      with ((head ++ headerEndBuffer) ++ content ++ crlfBuffer)
      by (rewrite <- app_assoc; reflexivity).
    replace (length head + 4) with (length (head ++ headerEndBuffer))
      by (rewrite length_app; reflexivity).
    rewrite skipn_app_exact. apply firstn_all2.
    rewrite !length_app. lia. }
  rewrite Hrest, find_last_closing by discriminate.
  unfold slice. cbn [skipn]. rewrite Nat.sub_0_r, firstn_app_exact. reflexivity.
Qed.

(** The loop on the text of a well-formed request: the preamble and the
    fields before the file part hold no marker, the file part is taken. *)
Lemma text_parts_well_formed (delimiter preamble : Buffer) (fields : list Buffer)
  (head content epilogue name : Buffer) :
  delimiter <> [] ->
  delimiter_free delimiter preamble ->
  includes preamble filenameMarker = false ->
  Forall (delimiter_free delimiter) fields ->
  Forall (fun f => includes f filenameMarker = false) fields ->
  delimiter_free delimiter (file_part head content) ->
  header_block head ->
  text_filenameMatch (file_part head content) = Some name ->
  text_parts
    (str_split (multipart_body delimiter preamble (fields ++ [file_part head content])
              epilogue) delimiter) []
  = (name, Some content).
Proof.
  intros Hd Hpre Hpm Hfields Hfm Hpart Hhead Hname.
  destruct (split_multipart delimiter preamble (fields ++ [file_part head content])
              epilogue Hd Hpre) as [more ->].
  { apply Forall_app. split; [exact Hfields | constructor; [exact Hpart | constructor]]. }
  rewrite <- app_assoc.
  change ([file_part head content] ++ more) with (file_part head content :: more).
  change (preamble :: fields ++ file_part head content :: more)
    with ((preamble :: fields) ++ file_part head content :: more).
  rewrite text_parts_skip by (constructor; assumption).
  apply text_parts_file_part; assumption.
Qed.

(** ** Uploads of text *)

Definition text_uploaded (host fileId key : string) (now : Z) : Reply :=
  sendResponse 200
    (JsonUploaded "File uploaded successfully" fileId (downloadLink host key)
       (now + FILE_EXPIRY)).

Lemma text_delimiter_nonempty (contentType : string) :
  Buffer_from "--" ++ text_boundary contentType <> [].
Proof. discriminate. Qed.

Lemma legacy_upload_accepts (io : FsFaults) (ct host : string) (body : Buffer)
  (name content : Buffer) (fileId : string) (now : Z) (st : LegacyState) :
  text_extract ct body = (name, Some content) ->
  text_truthy name = true -> content <> [] ->
  write_fails io (String.append fileId (path_extname (toString name))) = false ->
  legacy_upload_end io (Some ct) host body fileId now st
  = (text_uploaded host fileId (String.append fileId (path_extname (toString name))) now,
     mkLegacyState
       (dict_set fileId
          (mkLegacyRecord (toString name)
             (String.append fileId (path_extname (toString name)))
             (text_length content) now (now + FILE_EXPIRY) false)
          (legacy_fileDatabase st))
       (dict_set (String.append fileId (path_extname (toString name))) content
          (legacy_uploads st))).
Proof.
  intros He Hn Hc Hw. unfold legacy_upload_end. rewrite He, Hn.
  destruct content as [|c content]; [congruence|]. cbn [text_truthy andb].
  unfold writeFileSync. rewrite Hw. reflexivity.
Qed.

(** X23. The text-splitting upload keeps text: for a well-formed request
    whose body is well-formed UTF-8 (decoding leaves it as it is) and whose
    file part carries a payload that is not empty, the upload of server.js
    is answered 200, the stored bytes are the payload, and the recorded size
    is the number of UTF-16 units of the payload read as text (not its
    number of bytes). *)
Theorem text_upload_keeps_text (io : FsFaults) (ct host : string)
  (preamble : Buffer) (fields : list Buffer) (head content epilogue name : Buffer)
  (fileId : string) (now : Z) (st : LegacyState) :
  let delimiter := Buffer_from "--" ++ text_boundary ct in
  let body :=
    multipart_body delimiter preamble (fields ++ [file_part head content]) epilogue in
  let key := String.append fileId (path_extname (toString name)) in
  Buffer_toString body = body ->
  delimiter_free delimiter preamble ->
  includes preamble filenameMarker = false ->
  Forall (delimiter_free delimiter) fields ->
  Forall (fun f => includes f filenameMarker = false) fields ->
  delimiter_free delimiter (file_part head content) ->
  header_block head ->
  text_filenameMatch (file_part head content) = Some name ->
  content <> [] ->
  write_fails io key = false ->
  legacy_upload_end io (Some ct) host body fileId now st
  = (text_uploaded host fileId key now,
     mkLegacyState
       (dict_set fileId
          (mkLegacyRecord (toString name) key (text_length content) now
             (now + FILE_EXPIRY) false)
          (legacy_fileDatabase st))
       (dict_set key content (legacy_uploads st))).
Proof.
  intros delimiter body key Htext Hpre Hpm Hfields Hfm Hpart Hhead Hname Hc Hw.
  apply legacy_upload_accepts; [|exact (text_filenameMatch_truthy _ _ Hname)
                                | exact Hc | exact Hw].
  unfold text_extract. fold delimiter. fold body. rewrite Htext.
  apply text_parts_well_formed; try assumption. apply text_delimiter_nonempty.
Qed.

(** X24. The text-splitting upload has no empty files: for a well-formed
    request (its body well-formed UTF-8) whose file part declares a name and
    carries a payload of zero bytes, the upload of server.js is answered 400
    No file uploaded and stores nothing. *)
Theorem text_upload_rejects_empty_file (io : FsFaults) (ct host : string)
  (preamble : Buffer) (fields : list Buffer) (head epilogue name : Buffer)
  (fileId : string) (now : Z) (st : LegacyState) :
  let delimiter := Buffer_from "--" ++ text_boundary ct in
  let body :=
    multipart_body delimiter preamble (fields ++ [file_part head []]) epilogue in
  Buffer_toString body = body ->
  delimiter_free delimiter preamble ->
  includes preamble filenameMarker = false ->
  Forall (delimiter_free delimiter) fields ->
  Forall (fun f => includes f filenameMarker = false) fields ->
  delimiter_free delimiter (file_part head []) ->
  header_block head ->
  text_filenameMatch (file_part head []) = Some name ->
  text_extract ct body = (name, Some [])
  /\ legacy_upload_end io (Some ct) host body fileId now st
     = (sendResponse 400 (JsonError "No file uploaded"), st).
Proof.
  intros delimiter body Htext Hpre Hpm Hfields Hfm Hpart Hhead Hname.
  assert (He : text_extract ct body = (name, Some [])).
  { unfold text_extract. fold delimiter. fold body. rewrite Htext.
    apply text_parts_well_formed; try assumption. apply text_delimiter_nonempty. }
  split; [exact He|].
  unfold legacy_upload_end. rewrite He.
  cbn [text_truthy]. rewrite andb_false_r. reflexivity.
Qed.

(** ** Payloads that are not text *)

(** All bytes of [b] are ASCII. *)
Definition ascii_only (b : Buffer) : bool :=
  forallb (fun x => (Byte.to_nat x <=? 127)%nat) b.

(** Read from outside any sequence, [X] decodes to [X'], and what follows
    is read from outside any sequence again. *)
Definition sanitized (X X' : Buffer) : Prop :=
  forall R, decode None (X ++ R) = X' ++ decode None R.

Lemma sanitized_nil : sanitized [] [].
Proof. intros R. reflexivity. Qed.

Lemma sanitized_app (X X' Y Y' : Buffer) :
  sanitized X X' -> sanitized Y Y' -> sanitized (X ++ Y) (X' ++ Y').
Proof.
  intros HX HY R. rewrite <- !app_assoc, HX, HY. reflexivity.
Qed.

Lemma sanitized_ascii (X : Buffer) : ascii_only X = true -> sanitized X X.
Proof.
  induction X as [|b X IH]; intros H R; [reflexivity|].
  unfold ascii_only in H. cbn [forallb] in H. apply andb_prop in H.
  destruct H as [Hb HX]. cbn [app decode]. unfold lead. rewrite Hb.
  cbn [app]. rewrite (IH HX R). reflexivity.
Qed.

Lemma sanitized_ff : sanitized [xff] replacement.
Proof. intros R. reflexivity. Qed.

Lemma sanitized_chain (delimiter : Buffer) (parts parts' : list Buffer)
  (tail tail' : Buffer) :
  sanitized delimiter delimiter ->
  Forall2 sanitized parts parts' ->
  sanitized tail tail' ->
  sanitized (chain delimiter parts tail) (chain delimiter parts' tail').
Proof.
  intros Hd Hparts Htail. induction Hparts as [|p p' ps ps' Hp _ IH]; cbn [chain].
  - apply sanitized_app; assumption.
  - apply sanitized_app; [exact Hd|]. apply sanitized_app; assumption.
Qed.

Lemma sanitized_decoded (X X' : Buffer) : sanitized X X' -> Buffer_toString X = X'.
Proof.
  intros H. unfold Buffer_toString. rewrite <- (app_nil_r X), H. cbn [decode].
  apply app_nil_r.
Qed.

Lemma Forall2_ascii (l : list Buffer) :
  Forall (fun f => ascii_only f = true) l -> Forall2 sanitized l l.
Proof.
  induction 1 as [|f l Hf _ IH]; constructor; [apply sanitized_ascii, Hf | exact IH].
Qed.

Lemma text_length_ascii (b : Buffer) : ascii_only b = true -> text_length b = length b.
Proof.
  unfold text_length. induction b as [|x b IH]; intros H; [reflexivity|].
  unfold ascii_only in H. cbn [forallb] in H. apply andb_prop in H.
  destruct H as [Hx Hb]. apply Nat.leb_le in Hx. cbn [filter].
  assert (E1 : (Byte.to_nat x <? 128)%nat = true) by (apply Nat.ltb_lt; lia).
  assert (E2 : (240 <=? Byte.to_nat x)%nat = false) by (apply Nat.leb_gt; lia).
  rewrite E1, E2. cbn [orb length]. specialize (IH Hb). lia.
Qed.

Lemma text_length_app (a b : Buffer) :
  text_length (a ++ b) = text_length a + text_length b.
Proof. unfold text_length. rewrite !filter_app, !length_app. lia. Qed.

(** X25. The text-splitting upload does not keep bytes that are not text:
    when the payload holds a byte 0xFF between two runs of ASCII (the rest
    of the request being ASCII), the upload of server.js is answered 200 but
    the stored file holds the three bytes of U+FFFD in place of that byte:
    it is two bytes longer than the payload, and the recorded size is the
    length of the payload, not that of the stored file. *)
Theorem text_upload_replaces_non_text (io : FsFaults) (ct host : string)
  (preamble : Buffer) (fields : list Buffer) (head before after epilogue name : Buffer)
  (fileId : string) (now : Z) (st : LegacyState) :
  let delimiter := Buffer_from "--" ++ text_boundary ct in
  let payload := before ++ [xff] ++ after in
  let stored := before ++ replacement ++ after in
  let body :=
    multipart_body delimiter preamble (fields ++ [file_part head payload]) epilogue in
  let key := String.append fileId (path_extname (toString name)) in
  ascii_only delimiter = true -> ascii_only preamble = true ->
  Forall (fun f => ascii_only f = true) fields ->
  ascii_only head = true -> ascii_only before = true -> ascii_only after = true ->
  ascii_only epilogue = true ->
  delimiter_free delimiter preamble ->
  includes preamble filenameMarker = false ->
  Forall (delimiter_free delimiter) fields ->
  Forall (fun f => includes f filenameMarker = false) fields ->
  delimiter_free delimiter (file_part head stored) ->
  header_block head ->
  text_filenameMatch (file_part head stored) = Some name ->
  write_fails io key = false ->
  fst (legacy_upload_end io (Some ct) host body fileId now st)
  = text_uploaded host fileId key now
  /\ dict_get key (legacy_uploads (snd (legacy_upload_end io (Some ct) host body
                                          fileId now st)))
     = Some stored
  /\ length stored = length payload + 2
  /\ (exists m,
        dict_get fileId
          (legacy_fileDatabase (snd (legacy_upload_end io (Some ct) host body
                                       fileId now st))) = Some m
        /\ legacy_size m = length payload).
Proof.
  intros delimiter payload stored body key Hd Hp Hf Hh Hb Ha He
    Hpre Hpm Hfields Hfm Hpart Hhead Hname Hw.
  assert (Htext : Buffer_toString body
                  = multipart_body delimiter preamble
                      (fields ++ [file_part head stored]) epilogue).
  { apply sanitized_decoded. unfold body, multipart_body.
    apply sanitized_app; [apply sanitized_ascii, Hp|].
    apply sanitized_chain; [apply sanitized_ascii, Hd | | apply sanitized_ascii, He].
    apply Forall2_app; [apply Forall2_ascii, Hf|].
    constructor; [|constructor]. unfold file_part.
    apply sanitized_app; [apply sanitized_ascii, Hh|].
    apply sanitized_app; [apply sanitized_ascii; reflexivity|].
    apply sanitized_app; [|apply sanitized_ascii; reflexivity].
    unfold payload, stored.
    apply sanitized_app; [apply sanitized_ascii, Hb|].
    apply sanitized_app; [apply sanitized_ff | apply sanitized_ascii, Ha]. }
  assert (Hext : text_extract ct body = (name, Some stored)).
  { unfold text_extract. fold delimiter. rewrite Htext.
    apply text_parts_well_formed; try assumption. apply text_delimiter_nonempty. }
  assert (Hne : stored <> []).
  { unfold stored, replacement. destruct before; discriminate. }
  rewrite (legacy_upload_accepts io ct host body name stored fileId now st Hext
             (text_filenameMatch_truthy _ _ Hname) Hne Hw).
  cbn [fst snd legacy_uploads legacy_fileDatabase]. fold key.
  split; [reflexivity|]. split; [apply dict_get_set_same|]. split.
  - unfold stored, payload, replacement. rewrite !length_app. simpl. lia.
  - eexists. split; [apply dict_get_set_same|]. cbn [legacy_size].
    unfold stored, payload. rewrite !text_length_app, !length_app.
    rewrite (text_length_ascii before Hb), (text_length_ascii after Ha).
    reflexivity.
Qed.

(** ** The listing of server.js *)

Lemma dict_set_absent {V : Type} (k : string) (v : V) (d : dict V) :
  dict_get k d = None -> dict_set k v d = d ++ [(k, v)].
Proof.
  induction d as [|[k' v'] d IH]; simpl; [reflexivity|].
  destruct (String.eqb k k'); [discriminate|].
  intros H. rewrite (IH H). reflexivity.
Qed.

(** X26. server.js lists every upload to every client: the listing takes
    nothing from the request but the host name, and after an upload that is
    answered 200 under a fresh identifier it is the listing as it was,
    followed by the entry of the new file. *)
Theorem legacy_listing_shows_every_upload (io : FsFaults) (ct : option string)
  (host host' : string) (body : Buffer) (fileId : string) (now : Z)
  (st : LegacyState) :
  status (fst (legacy_upload_end io ct host body fileId now st)) = 200 ->
  dict_get fileId (legacy_fileDatabase st) = None ->
  exists m,
    dict_get fileId
      (legacy_fileDatabase (snd (legacy_upload_end io ct host body fileId now st)))
    = Some m
    /\ legacy_api_files host' (snd (legacy_upload_end io ct host body fileId now st))
       = sendResponse 200
           (JsonFiles
              (map (legacy_entry host') (legacy_fileDatabase st)
               ++ [mkFileInfo fileId (legacy_originalName m) (legacy_size m) now
                     (now + FILE_EXPIRY) (downloadLink host' (legacy_filename m))])).
Proof.
  unfold legacy_upload_end. destruct ct as [ct|]; [|discriminate].
  destruct (text_extract ct body) as [name [content|]]; [|discriminate].
  destruct (text_truthy name && text_truthy content); [|discriminate].
  unfold writeFileSync. destruct (write_fails io _); [discriminate|].
  intros _ Hfresh. cbn [snd legacy_fileDatabase]. eexists. split.
  - apply dict_get_set_same.
  - unfold legacy_api_files. cbn [legacy_fileDatabase].
    rewrite (dict_set_absent _ _ _ Hfresh), map_app. reflexivity.
Qed.

(** ** A content type without boundary parameter *)

Lemma slice_whole {A : Type} (l : list A) : slice l 0 (length l) = l.
Proof. unfold slice. cbn [skipn]. rewrite Nat.sub_0_r. apply firstn_all. Qed.

Lemma split_absent (s sep : Buffer) : find_first sep s = None -> str_split s sep = [s].
Proof.
  intros H. unfold str_split. cbn [str_split_loop]. unfold indexOf. cbn [skipn].
  rewrite H. cbn [option_map]. rewrite slice_whole. reflexivity.
Qed.

(** X27. server.js does not reject a request without boundary parameter.
    Without content-type header the answer is 500.  With a header in which
    the text boundary= does not occur, the delimiter is the text
    --undefined; a body in which it does not occur is taken as one part, and
    when it declares a file name the upload is answered 200 and stores
    everything between the first blank line of the body and its last line
    break. *)
Theorem text_upload_without_boundary (io : FsFaults) (ct host : string)
  (body head content name : Buffer) (fileId : string) (now : Z) (st : LegacyState) :
  let key := String.append fileId (path_extname (toString name)) in
  find_first (Buffer_from "boundary=") (Buffer_from ct) = None ->
  Buffer_toString body = file_part head content ->
  find_first (Buffer_from "--undefined") (file_part head content) = None ->
  header_block head ->
  text_filenameMatch (file_part head content) = Some name ->
  content <> [] ->
  write_fails io key = false ->
  legacy_upload_end io None host body fileId now st
  = (sendResponse 500 (JsonError "File upload failed"), st)
  /\ Buffer_from "--" ++ text_boundary ct = Buffer_from "--undefined"
  /\ legacy_upload_end io (Some ct) host body fileId now st
     = (text_uploaded host fileId key now,
        mkLegacyState
          (dict_set fileId
             (mkLegacyRecord (toString name) key (text_length content) now
                (now + FILE_EXPIRY) false)
             (legacy_fileDatabase st))
          (dict_set key content (legacy_uploads st))).
Proof.
  intros key Hct Htext Hund Hhead Hname Hc Hw.
  assert (Hb : text_boundary ct = Buffer_from "undefined").
  { unfold text_boundary. rewrite (split_absent _ _ Hct). reflexivity. }
  split; [reflexivity|]. split; [rewrite Hb; reflexivity|].
  apply legacy_upload_accepts; [|exact (text_filenameMatch_truthy _ _ Hname)
                                | exact Hc | exact Hw].
  unfold text_extract. rewrite Hb, Htext.
  change (Buffer_from "--" ++ Buffer_from "undefined") with (Buffer_from "--undefined").
  rewrite (split_absent _ _ Hund).
  apply text_parts_file_part; assumption.
Qed.

(** ** Instances *)

(** The word café: five bytes, four characters. *)
Definition text_content : Buffer := [x63; x61; x66; xc3; xa9].

Definition text_body : Buffer :=
  multipart_body sample_delimiter []
    [sample_field; file_part sample_head text_content]
    (Buffer_from "--" ++ crlfBuffer).

Definition legacy_empty : LegacyState := mkLegacyState [] [].

Lemma text_upload_sample :
  legacy_upload_end no_faults (Some sample_content_type) "h" text_body sample_id 1000
    legacy_empty
  = (text_uploaded "h" sample_id (String.append sample_id ".txt") 1000,
     mkLegacyState
       [(sample_id,
         mkLegacyRecord "a.txt" (String.append sample_id ".txt") 4 1000
           (1000 + FILE_EXPIRY) false)]
       [(String.append sample_id ".txt", text_content)]).
Proof.
  apply (text_upload_keeps_text no_faults sample_content_type "h" [] [sample_field]
           sample_head text_content (Buffer_from "--" ++ crlfBuffer)
           (Buffer_from "a.txt") sample_id 1000 legacy_empty).
  - vm_compute. reflexivity.
  - exact sample_preamble_free.
  - reflexivity.
  - constructor; [exact sample_field_free | constructor].
  - constructor; [vm_compute; reflexivity | constructor].
  - apply first_atb_sound. vm_compute. reflexivity.
  - exact sample_head_block.
  - vm_compute. reflexivity.
  - discriminate.
  - reflexivity.
Defined.

Lemma text_upload_empty_sample :
  text_extract sample_content_type empty_body = (Buffer_from "a.txt", Some [])
  /\ legacy_upload_end no_faults (Some sample_content_type) "h" empty_body sample_id
       1000 legacy_empty
     = (sendResponse 400 (JsonError "No file uploaded"), legacy_empty).
Proof.
  apply (text_upload_rejects_empty_file no_faults sample_content_type "h" []
           [sample_field] sample_head (Buffer_from "--" ++ crlfBuffer)
           (Buffer_from "a.txt") sample_id 1000 legacy_empty).
  - vm_compute. reflexivity.
  - exact sample_preamble_free.
  - reflexivity.
  - constructor; [exact sample_field_free | constructor].
  - constructor; [vm_compute; reflexivity | constructor].
  - exact empty_part_free.
  - exact sample_head_block.
  - vm_compute. reflexivity.
Defined.

(** A payload of three bytes, the second of which is 0xFF. *)
Definition binary_body : Buffer :=
  multipart_body sample_delimiter []
    [sample_field; file_part sample_head ([x41] ++ [xff] ++ [x42])]
    (Buffer_from "--" ++ crlfBuffer).

Lemma text_upload_binary_sample :
  fst (legacy_upload_end no_faults (Some sample_content_type) "h" binary_body
         sample_id 1000 legacy_empty)
  = text_uploaded "h" sample_id (String.append sample_id ".txt") 1000
  /\ dict_get (String.append sample_id ".txt")
       (legacy_uploads (snd (legacy_upload_end no_faults (Some sample_content_type)
                               "h" binary_body sample_id 1000 legacy_empty)))
     = Some [x41; xef; xbf; xbd; x42]
  /\ length [x41; xef; xbf; xbd; x42] = length [x41; xff; x42] + 2
  /\ (exists m,
        dict_get sample_id
          (legacy_fileDatabase
             (snd (legacy_upload_end no_faults (Some sample_content_type) "h"
                     binary_body sample_id 1000 legacy_empty))) = Some m
        /\ legacy_size m = length [x41; xff; x42]).
Proof.
  apply (text_upload_replaces_non_text no_faults sample_content_type "h" []
           [sample_field] sample_head [x41] [x42] (Buffer_from "--" ++ crlfBuffer)
           (Buffer_from "a.txt") sample_id 1000 legacy_empty).
  - reflexivity.
  - reflexivity.
  - constructor; [vm_compute; reflexivity | constructor].
  - vm_compute. reflexivity.
  - reflexivity.
  - reflexivity.
  - reflexivity.
  - exact sample_preamble_free.
  - reflexivity.
  - constructor; [exact sample_field_free | constructor].
  - constructor; [vm_compute; reflexivity | constructor].
  - apply first_atb_sound. vm_compute. reflexivity.
  - exact sample_head_block.
  - vm_compute. reflexivity.
  - reflexivity.
Defined.

Lemma legacy_listing_sample :
  exists m,
    dict_get sample_id
      (legacy_fileDatabase
         (snd (legacy_upload_end no_faults (Some sample_content_type) "h" text_body
                 sample_id 1000 legacy_empty)))
    = Some m
    /\ legacy_api_files "other"
         (snd (legacy_upload_end no_faults (Some sample_content_type) "h" text_body
                 sample_id 1000 legacy_empty))
       = sendResponse 200
           (JsonFiles
              (map (legacy_entry "other") (legacy_fileDatabase legacy_empty)
               ++ [mkFileInfo sample_id (legacy_originalName m) (legacy_size m) 1000
                     (1000 + FILE_EXPIRY)
                     (downloadLink "other" (legacy_filename m))])).
Proof.
  apply (legacy_listing_shows_every_upload no_faults (Some sample_content_type) "h"
           "other" text_body sample_id 1000 legacy_empty).
  - vm_compute. reflexivity.
  - reflexivity.
Defined.

(** A request of one file part, as the header without boundary parameter
    makes it read: all of it is one part. *)
Definition whole_head : Buffer := sample_delimiter ++ sample_head.
Definition whole_content : Buffer :=
  Buffer_from "hi" ++ crlfBuffer ++ sample_delimiter ++ Buffer_from "--".

Lemma text_upload_without_boundary_sample :
  file_part whole_head whole_content
  = multipart_body sample_delimiter [] [file_part sample_head (Buffer_from "hi")]
      (Buffer_from "--" ++ crlfBuffer)
  /\ legacy_upload_end no_faults None "h" (file_part whole_head whole_content)
       sample_id 1000 legacy_empty
     = (sendResponse 500 (JsonError "File upload failed"), legacy_empty)
  /\ Buffer_from "--" ++ text_boundary "multipart/form-data" = Buffer_from "--undefined"
  /\ legacy_upload_end no_faults (Some "multipart/form-data") "h"
       (file_part whole_head whole_content) sample_id 1000 legacy_empty
     = (text_uploaded "h" sample_id (String.append sample_id ".txt") 1000,
        mkLegacyState
          [(sample_id,
            mkLegacyRecord "a.txt" (String.append sample_id ".txt") 10 1000
              (1000 + FILE_EXPIRY) false)]
          [(String.append sample_id ".txt", whole_content)]).
Proof.
  split; [vm_compute; reflexivity|].
  apply (text_upload_without_boundary no_faults "multipart/form-data" "h"
           (file_part whole_head whole_content) whole_head whole_content
           (Buffer_from "a.txt") sample_id 1000 legacy_empty).
  - vm_compute. reflexivity.
  - vm_compute. reflexivity.
  - vm_compute. reflexivity.
  - apply first_atb_sound. vm_compute. reflexivity.
  - vm_compute. reflexivity.
  - discriminate.
  - reflexivity.
Defined.

(** ** The pieces of [split] put together again *)

(** [pieces.join(sep)] *)
Fixpoint str_join (sep : Buffer) (pieces : list Buffer) : Buffer :=
  match pieces with
  | [] => []
  | [p] => p
  | p :: rest => p ++ sep ++ str_join sep rest
  end.

Lemma indexOf_occurrence (s sep : Buffer) (pos q : nat) :
  sep <> [] ->
  indexOf s sep pos = Some q ->
  pos <= q /\ q + length sep <= length s
  /\ skipn q s = sep ++ skipn (q + length sep) s.
Proof.
  intros Hsep H. destruct (indexOf_bounds s sep pos q Hsep H) as [H1 H2].
  split; [exact H1|]. split; [exact H2|].
  unfold indexOf in H.
  destruct (find_first sep (skipn pos s)) as [n|] eqn:E; [|discriminate].
  injection H as <-. apply find_first_first_at in E. destruct E as [E _].
  unfold occurs_at in E. rewrite skipn_skipn in E.
  apply starts_with_iff in E. destruct E as [rest E].
  replace (pos + n) with (n + pos) by lia. rewrite E. f_equal.
  rewrite Nat.add_comm, <- skipn_skipn.
  replace (n + pos) with (pos + n) in E by lia.
  replace (skipn (pos + n) s) with (skipn (n + pos) s) in * by (f_equal; lia).
  rewrite E. symmetry. apply skipn_app_exact.
Qed.

(** The rounds of [split] never run out: joined with the separator, the
    pieces give the text back. *)
Lemma str_split_loop_join (s sep : Buffer) :
  sep <> [] ->
  forall fuel pos,
    pos <= length s -> length s < pos + fuel ->
    str_join sep (str_split_loop fuel s sep pos) = skipn pos s.
Proof.
  intros Hsep.
  assert (Hlen : 0 < length sep) by (destruct sep; [congruence | simpl; lia]).
  induction fuel as [|fuel IH]; intros pos Hpos Hfuel; [lia|].
  cbn [str_split_loop]. destruct (indexOf s sep pos) as [q|] eqn:E.
  - destruct (indexOf_occurrence s sep pos q Hsep E) as [H1 [H2 H3]].
    assert (Hnext : str_join sep (str_split_loop fuel s sep (q + length sep))
                    = skipn (q + length sep) s) by (apply IH; lia).
    destruct fuel as [|fuel']; [lia|].
    destruct (str_split_loop (S fuel') s sep (q + length sep)) as [|p rest] eqn:P.
    + cbn [str_split_loop] in P. destruct (indexOf s sep (q + length sep)); discriminate P.
    + change (str_join sep (slice s pos q :: p :: rest))
        with (slice s pos q ++ sep ++ str_join sep (p :: rest)).
      rewrite Hnext, <- H3. unfold slice.
      replace (skipn q s) with (skipn (q - pos) (skipn pos s))
        by (rewrite skipn_skipn; f_equal; lia).
      apply firstn_skipn.
  - cbn [str_join]. unfold slice. apply firstn_all2. rewrite length_skipn. lia.
Qed.

Lemma split_join (s sep : Buffer) : sep <> [] -> str_join sep (str_split s sep) = s.
Proof.
  intros Hsep. unfold str_split.
  rewrite (str_split_loop_join s sep Hsep (S (length s)) 0) by lia. reflexivity.
Qed.

(** ** The download of server.js *)

(** The handler up to the registration of the [finish] callback; [name] is
    the segment of the request path after /download/.  As in the other
    server, [res.setHeader] is called outside every [try], before the flag
    is set. *)
Definition legacy_download (name : string) (st : LegacyState)
  : Reply * LegacyState :=
  let fileId := file_id_of name in
  match dict_get name (legacy_uploads st),
        dict_get fileId (legacy_fileDatabase st) with
  | Some data, Some metadata =>
      if checkInvalidHeaderChar (content_disposition (legacy_originalName metadata))
      then (throws "ERR_INVALID_CHAR", st)
      else
        (mkReply 200
           (FileStream (content_disposition (legacy_originalName metadata))
                       (getContentType name) data),
         mkLegacyState
           (dict_set fileId
              (mkLegacyRecord (legacy_originalName metadata)
                 (legacy_filename metadata) (legacy_size metadata)
                 (legacy_uploadTime metadata) (legacy_expiryTime metadata) true)
              (legacy_fileDatabase st))
           (legacy_uploads st))
  | _, _ => (sendResponse 404 (JsonError "File not found or expired"), st)
  end.

(** The [finish] callback of the response. *)
Definition legacy_download_finish (io : FsFaults) (name : string) (st : LegacyState)
  : LegacyState :=
  match unlinkSync io name (legacy_uploads st) with
  | None => st
  | Some disk =>
      mkLegacyState (dict_delete (file_id_of name) (legacy_fileDatabase st)) disk
  end.

(** X28. Upload, download and deletion in server.js: for a file the upload
    accepted, whose storage key a request path carries as it is, a request
    for the link the upload returned throws at [res.setHeader] and leaves
    the stores alone when the declared name holds a character no header
    value may carry; otherwise it is served the bytes the upload stored,
    under the declared name, and when the response is complete (and the
    unlink is not refused) the bytes and the record are gone and the link
    answers 404. *)
Theorem legacy_download_after_upload (io io' : FsFaults) (ct host : string)
  (body name content : Buffer) (fileId : string) (now : Z) (st : LegacyState) :
  let key := String.append fileId (path_extname (toString name)) in
  let st1 := snd (legacy_upload_end io (Some ct) host body fileId now st) in
  let st2 := legacy_download_finish io' key (snd (legacy_download key st1)) in
  text_extract ct body = (name, Some content) ->
  name <> [] -> content <> [] ->
  write_fails io key = false ->
  plain_id fileId ->
  url_segment key = true ->
  unlink_fails io' key = false ->
  fst (legacy_upload_end io (Some ct) host body fileId now st)
  = text_uploaded host fileId key now
  /\ (checkInvalidHeaderChar (toString name) = true ->
      legacy_download key st1 = (throws "ERR_INVALID_CHAR", st1))
  /\ (checkInvalidHeaderChar (toString name) = false ->
      fst (legacy_download key st1)
      = mkReply 200
          (FileStream (content_disposition (toString name)) (getContentType key)
             content)
      /\ dict_get key (legacy_uploads st2) = None
      /\ dict_get fileId (legacy_fileDatabase st2) = None
      /\ legacy_download key st2
         = (sendResponse 404 (JsonError "File not found or expired"), st2)).
Proof.
  intros key st1 st2 He Hn Hc Hw Hid _ Hio.
  assert (Ht : text_truthy name = true) by (destruct name; [congruence | reflexivity]).
  assert (Hup := legacy_upload_accepts io ct host body name content fileId now st
                   He Ht Hc Hw).
  fold key in Hup.
  assert (Hkey : file_id_of key = fileId) by (apply storage_key_resolves, Hid).
  assert (Hd : dict_get key (legacy_uploads st1) = Some content).
  { subst st1. rewrite Hup. cbn [snd legacy_uploads]. apply dict_get_set_same. }
  assert (Hm : dict_get fileId (legacy_fileDatabase st1)
               = Some (mkLegacyRecord (toString name) key (text_length content) now
                         (now + FILE_EXPIRY) false)).
  { subst st1. rewrite Hup. cbn [snd legacy_fileDatabase]. apply dict_get_set_same. }
  split; [rewrite Hup; reflexivity|]. split.
  - intros Hbad. unfold legacy_download. rewrite Hd, Hkey, Hm.
    cbn [legacy_originalName]. rewrite header_value_of_name, Hbad. reflexivity.
  - intros Hok.
    assert (H1 : legacy_download key st1
                 = (mkReply 200
                      (FileStream (content_disposition (toString name))
                         (getContentType key) content),
                    mkLegacyState
                      (dict_set fileId
                         (mkLegacyRecord (toString name) key (text_length content)
                            now (now + FILE_EXPIRY) true)
                         (legacy_fileDatabase st1))
                      (legacy_uploads st1))).
    { unfold legacy_download. rewrite Hd, Hkey, Hm.
      cbn [legacy_originalName legacy_filename legacy_size legacy_uploadTime
           legacy_expiryTime].
      rewrite header_value_of_name, Hok. reflexivity. }
    assert (H2 : st2 = mkLegacyState
                         (dict_delete fileId
                            (dict_set fileId
                               (mkLegacyRecord (toString name) key
                                  (text_length content) now (now + FILE_EXPIRY) true)
                               (legacy_fileDatabase st1)))
                         (dict_delete key (legacy_uploads st1))).
    { subst st2. rewrite H1. cbn [snd]. unfold legacy_download_finish.
      cbn [legacy_uploads legacy_fileDatabase].
      rewrite (unlinkSync_ok io' key _ content Hd Hio), Hkey. reflexivity. }
    split; [rewrite H1; reflexivity|].
    rewrite H2. cbn [legacy_uploads legacy_fileDatabase].
    split; [apply dict_get_delete_same|]. split; [apply dict_get_delete_same|].
    unfold legacy_download. cbn [legacy_uploads]. rewrite dict_get_delete_same.
    reflexivity.
Qed.

Lemma legacy_download_sample :
  fst (legacy_upload_end no_faults (Some sample_content_type) "h" text_body sample_id
         1000 legacy_empty)
  = text_uploaded "h" sample_id (String.append sample_id ".txt") 1000
  /\ fst (legacy_download (String.append sample_id ".txt")
            (snd (legacy_upload_end no_faults (Some sample_content_type) "h"
                    text_body sample_id 1000 legacy_empty)))
     = mkReply 200 (FileStream (content_disposition "a.txt") "text/plain" text_content)
  /\ dict_get (String.append sample_id ".txt")
       (legacy_uploads
          (legacy_download_finish no_faults (String.append sample_id ".txt")
             (snd (legacy_download (String.append sample_id ".txt")
                     (snd (legacy_upload_end no_faults (Some sample_content_type) "h"
                             text_body sample_id 1000 legacy_empty))))))
     = None
  /\ dict_get sample_id
       (legacy_fileDatabase
          (legacy_download_finish no_faults (String.append sample_id ".txt")
             (snd (legacy_download (String.append sample_id ".txt")
                     (snd (legacy_upload_end no_faults (Some sample_content_type) "h"
                             text_body sample_id 1000 legacy_empty))))))
     = None
  /\ legacy_download (String.append sample_id ".txt")
       (legacy_download_finish no_faults (String.append sample_id ".txt")
          (snd (legacy_download (String.append sample_id ".txt")
                  (snd (legacy_upload_end no_faults (Some sample_content_type) "h"
                          text_body sample_id 1000 legacy_empty)))))
     = (sendResponse 404 (JsonError "File not found or expired"),
        legacy_download_finish no_faults (String.append sample_id ".txt")
          (snd (legacy_download (String.append sample_id ".txt")
                  (snd (legacy_upload_end no_faults (Some sample_content_type) "h"
                          text_body sample_id 1000 legacy_empty))))).
Proof.
  destruct (legacy_download_after_upload no_faults no_faults sample_content_type "h"
              text_body (Buffer_from "a.txt") text_content sample_id 1000
              legacy_empty) as [H1 [_ H2]].
  - vm_compute. reflexivity.
  - discriminate.
  - discriminate.
  - reflexivity.
  - split; [discriminate | reflexivity].
  - reflexivity.
  - reflexivity.
  - split; [exact H1|]. apply H2. reflexivity.
Defined.

(** ** The sweep of server.js *)

(** One round of the [forEach] over the snapshot of the records. *)
Definition legacy_sweep_file (io : FsFaults) (now : Z) (st : LegacyState)
  (entry : string * LegacyRecord) : LegacyState :=
  let '(fileId, metadata) := entry in
  if (now >? legacy_expiryTime metadata)%Z then
    let filePath := legacy_filename metadata in
    let unlinked :=
      if existsSync filePath (legacy_uploads st)
      then unlinkSync io filePath (legacy_uploads st)
      else Some (legacy_uploads st) in
    match unlinked with
    | Some disk => mkLegacyState (dict_delete fileId (legacy_fileDatabase st)) disk
    | None => st
    end
  else st.

Definition legacy_sweep (io : FsFaults) (now : Z) (st : LegacyState) : LegacyState :=
  fold_left (legacy_sweep_file io now) (legacy_fileDatabase st) st.

Definition legacy_sweep_entries (io : FsFaults) (now : Z)
  (entries : list (string * LegacyRecord)) (st : LegacyState) : LegacyState :=
  fold_left (legacy_sweep_file io now) entries st.

Lemma legacy_sweep_file_eq (io : FsFaults) (now : Z) (st : LegacyState)
  (fileId : string) (m : LegacyRecord) :
  legacy_sweep_file io now st (fileId, m) =
  if (now >? legacy_expiryTime m)%Z
     && unlink_goes_through io (legacy_filename m) (legacy_uploads st)
  then mkLegacyState (dict_delete fileId (legacy_fileDatabase st))
                     (dict_delete (legacy_filename m) (legacy_uploads st))
  else st.
Proof.
  unfold legacy_sweep_file. destruct (now >? legacy_expiryTime m)%Z; [|reflexivity].
  rewrite guarded_unlink. destruct (unlink_goes_through io _ _); reflexivity.
Qed.

Lemma legacy_sweep_file_get (io : FsFaults) (now : Z) (st : LegacyState)
  (e : string * LegacyRecord) (k : string) :
  dict_get k (legacy_fileDatabase (legacy_sweep_file io now st e)) = None
  \/ dict_get k (legacy_fileDatabase (legacy_sweep_file io now st e))
     = dict_get k (legacy_fileDatabase st).
Proof.
  destruct e as [k' m]. rewrite legacy_sweep_file_eq.
  destruct (_ && _); [|right; reflexivity]. cbn [legacy_fileDatabase].
  destruct (String.eqb k k') eqn:E.
  - apply String.eqb_eq in E. subst k'. left. apply dict_get_delete_same.
  - apply String.eqb_neq in E. right. apply dict_get_delete_other, E.
Qed.

Lemma legacy_sweep_entries_none (io : FsFaults) (now : Z)
  (entries : list (string * LegacyRecord)) (st : LegacyState) (k : string) :
  dict_get k (legacy_fileDatabase st) = None ->
  dict_get k (legacy_fileDatabase (legacy_sweep_entries io now entries st)) = None.
Proof.
  revert st. induction entries as [|e entries IH]; intros st H; [exact H|].
  change (legacy_sweep_entries io now (e :: entries) st)
    with (legacy_sweep_entries io now entries (legacy_sweep_file io now st e)).
  apply IH. destruct (legacy_sweep_file_get io now st e k) as [E|E];
    [exact E | rewrite E; exact H].
Qed.

Lemma legacy_sweep_entries_removes (io : FsFaults) (now : Z)
  (entries : list (string * LegacyRecord)) (st : LegacyState) (k : string)
  (m : LegacyRecord) :
  In (k, m) entries ->
  (now > legacy_expiryTime m)%Z ->
  unlink_fails io (legacy_filename m) = false ->
  dict_get k (legacy_fileDatabase (legacy_sweep_entries io now entries st)) = None.
Proof.
  revert st. induction entries as [|e entries IH]; intros st Hin Hexp Hio;
    [destruct Hin|].
  destruct Hin as [->|Hin]; [|apply IH; assumption].
  change (legacy_sweep_entries io now ((k, m) :: entries) st)
    with (legacy_sweep_entries io now entries (legacy_sweep_file io now st (k, m))).
  apply legacy_sweep_entries_none. rewrite legacy_sweep_file_eq.
  assert (E : (now >? legacy_expiryTime m)%Z = true) by (apply Z.gtb_lt; lia).
  unfold unlink_goes_through. rewrite E, Hio, orb_true_r.
  cbn [andb legacy_fileDatabase]. apply dict_get_delete_same.
Qed.

Lemma legacy_sweep_entries_spares (io : FsFaults) (now : Z)
  (entries : list (string * LegacyRecord)) (k : string) (m : LegacyRecord) :
  (forall m', In (k, m') entries -> (now <= legacy_expiryTime m')%Z) ->
  forall st,
    dict_get k (legacy_fileDatabase st) = Some m ->
    dict_get k (legacy_fileDatabase (legacy_sweep_entries io now entries st)) = Some m.
Proof.
  induction entries as [|[k' m'] entries IH]; intros Hn st Hm; [exact Hm|].
  change (legacy_sweep_entries io now ((k', m') :: entries) st)
    with (legacy_sweep_entries io now entries (legacy_sweep_file io now st (k', m'))).
  apply (IH (fun m0 H => Hn m0 (or_intror H))).
  rewrite legacy_sweep_file_eq.
  destruct ((now >? legacy_expiryTime m')%Z && _) eqn:E; [|exact Hm].
  apply andb_prop in E. destruct E as [E _]. apply Z.gtb_lt in E.
  cbn [legacy_fileDatabase]. rewrite dict_get_delete_other; [exact Hm|].
  intros <-. specialize (Hn m' (or_introl eq_refl)). lia.
Qed.

(** X29. The sweep of server.js removes the expired records and no other:
    after a sweep (record keys being distinct) a record whose expiry time
    is passed is gone, unless the file system refused to unlink its file; a
    record whose expiry time is not passed is kept as it is; and no record
    appears. *)
Theorem legacy_sweep_removes_expired (io : FsFaults) (now : Z) (st : LegacyState) :
  NoDup (dict_keys (legacy_fileDatabase st)) ->
  forall fileId,
    match dict_get fileId (legacy_fileDatabase st) with
    | Some m =>
        ((now > legacy_expiryTime m)%Z ->
         unlink_fails io (legacy_filename m) = false ->
         dict_get fileId (legacy_fileDatabase (legacy_sweep io now st)) = None)
        /\ ((now <= legacy_expiryTime m)%Z ->
            dict_get fileId (legacy_fileDatabase (legacy_sweep io now st)) = Some m)
    | None => dict_get fileId (legacy_fileDatabase (legacy_sweep io now st)) = None
    end.
Proof.
  intros Hkeys fileId. unfold legacy_sweep.
  fold (legacy_sweep_entries io now (legacy_fileDatabase st) st).
  destruct (dict_get fileId (legacy_fileDatabase st)) as [m|] eqn:Hm.
  - split.
    + intros Hexp Hio.
      apply (legacy_sweep_entries_removes io now _ st fileId m);
        [apply dict_get_In, Hm | exact Hexp | exact Hio].
    + intros Hnow. apply legacy_sweep_entries_spares; [|exact Hm].
      intros m' Hin. apply (dict_In_get _ _ _ Hkeys) in Hin. congruence.
  - apply legacy_sweep_entries_none, Hm.
Qed.

(** Two records, the first expiring at 100, the second at 300. *)
Definition legacy_two : LegacyState :=
  mkLegacyState
    [("f1", mkLegacyRecord "a.txt" "f1.txt" 3 0 100 false);
     ("f2", mkLegacyRecord "b.txt" "f2.txt" 2 200 300 false)]
    [("f1.txt", [x61; x62; x63]); ("f2.txt", [x68; x69])].

Lemma legacy_sweep_sample :
  dict_get "f1" (legacy_fileDatabase (legacy_sweep no_faults 200 legacy_two)) = None
  /\ dict_get "f2" (legacy_fileDatabase (legacy_sweep no_faults 200 legacy_two))
     = Some (mkLegacyRecord "b.txt" "f2.txt" 2 200 300 false).
Proof.
  assert (Hkeys : NoDup (dict_keys (legacy_fileDatabase legacy_two))).
  { repeat constructor; simpl; intuition discriminate. }
  split.
  - refine (proj1 (legacy_sweep_removes_expired no_faults 200 legacy_two Hkeys "f1")
              _ _); [vm_compute; reflexivity | reflexivity].
  - refine (proj2 (legacy_sweep_removes_expired no_faults 200 legacy_two Hkeys "f2")
              _). vm_compute. discriminate.
Defined.
